(** * Transcript summarisation pipeline of the study-session backend

    A shallow embedding of [src/api/session/controller.ts]: the extractive
    summariser [generateExtractiveSummary], the remote adapter
    [summarizeWithGemini], and the request handlers [uploadTranscript] and
    [getSummary], followed by the properties proved about them.

    Conventions of the embedding.
    - A JavaScript string is the list of its UTF-16 code units, each a
      number in [N].
    - JavaScript numbers that the code computes are non-negative integer
      counts and quotients of two such counts; they are kept exact (in [N]
      and [Q]), together with the value NaN. The quotient of the source is a
      binary64 division: the model agrees with it as long as two different
      quotients are not rounded to the same double.
    - Regular expressions are embedded by their matching behaviour: a matcher
      tried at a position, and the [/g] driver that walks the string. *)

From Stdlib Require Import ZArith NArith QArith List Ascii Lia Permutation Sorted.
From stdpp Require Import base gmap list strings.
Import ListNotations.

Local Open Scope N_scope.

(** ** JavaScript strings *)

Abbreviation jsstring := (list N).

(** An ASCII literal as a JavaScript string. *)
Definition lit (s : string) : jsstring :=
  map N_of_ascii (String.list_ascii_of_string s).

(** The characters matched by [\s] and stripped by [String.prototype.trim]:
    WhiteSpace (TAB, VT, FF, SP, NBSP, ZWNBSP and the Zs category) and
    LineTerminator (LF, CR, LS, PS). *)
Definition isWhiteSpace (c : N) : bool :=
  (c =? 9) || (c =? 10) || (c =? 11) || (c =? 12) || (c =? 13) || (c =? 32)
  || (c =? 160) || (c =? 5760) || ((8192 <=? c) && (c <=? 8202))
  || (c =? 8232) || (c =? 8233) || (c =? 8239) || (c =? 8287)
  || (c =? 12288) || (c =? 65279).

(** The class [[.!?]]. *)
Definition isTerminator (c : N) : bool :=
  (c =? 46) || (c =? 33) || (c =? 63).

(** The class [[a-zA-Z0-9']]. *)
Definition isWordChar (c : N) : bool :=
  ((97 <=? c) && (c <=? 122)) || ((65 <=? c) && (c <=? 90))
  || ((48 <=? c) && (c <=? 57)) || (c =? 39).

Fixpoint dropWhile (p : N -> bool) (str : jsstring) : jsstring :=
  match str with
  | [] => []
  | c :: r => if p c then dropWhile p r else str
  end.

(** [span p str] splits [str] into its longest prefix of characters
    satisfying [p] and the rest: a greedy [[class]*]. *)
Fixpoint span (p : N -> bool) (str : jsstring) : jsstring * jsstring :=
  match str with
  | [] => ([], [])
  | c :: r =>
      if p c then let '(a, b) := span p r in (c :: a, b) else ([], str)
  end.

(** [String.prototype.trim]. *)
Definition trim (str : jsstring) : jsstring :=
  rev (dropWhile isWhiteSpace (rev (dropWhile isWhiteSpace str))).

(** [String.prototype.toLowerCase], one code unit at a time. The ASCII
    capitals are folded; U+0130 becomes "i" followed by U+0307 and the Kelvin
    sign U+212A becomes "k". These are the only characters whose lower case
    contains a character of [[a-zA-Z0-9']]; the lower case of every other
    character lies outside that class, as the character itself does, and the
    code only ever passes the result to the word pattern, so such characters
    are left as they are. *)
Definition lowerUnit (c : N) : jsstring :=
  if (65 <=? c) && (c <=? 90) then [c + 32]
  else if c =? 304 then [105; 775]
  else if c =? 8490 then [107]
  else [c].

Definition toLowerCase (str : jsstring) : jsstring := flat_map lowerUnit str.

(** [Array.prototype.join]. *)
Fixpoint join (sep : jsstring) (parts : list jsstring) : jsstring :=
  match parts with
  | [] => []
  | [x] => x
  | x :: r => x ++ sep ++ join sep r
  end.

(** [str.replace(/\s+/g, " ")]: every maximal run of white space becomes one
    space. [inRun] tells whether the previous character was white space. *)
Fixpoint replaceWsFrom (inRun : bool) (str : jsstring) : jsstring :=
  match str with
  | [] => []
  | c :: r =>
      if isWhiteSpace c
      then (if inRun then replaceWsFrom true r else 32 :: replaceWsFrom true r)
      else c :: replaceWsFrom false r
  end.

Definition replaceWs (str : jsstring) : jsstring := replaceWsFrom false str.

(** ** Global regular-expression matching *)

(** A matcher tries the pattern at the start of a string and gives the match
    and what follows it. *)
Definition matcher := jsstring -> option (jsstring * jsstring).

(** [/[^.!?]+[.!?]+/] at a position: the longest run of non-terminators, at
    least one, then the longest run of terminators, at least one. The two
    classes are complementary, so giving back characters of the first run can
    never make the second succeed. *)
Definition sentenceRe : matcher := fun str =>
  let '(body, rest) := span (fun c => negb (isTerminator c)) str in
  match body with
  | [] => None
  | _ :: _ =>
      let '(marks, rest') := span isTerminator rest in
      match marks with
      | [] => None
      | _ :: _ => Some (body ++ marks, rest')
      end
  end.

(** [/[a-zA-Z0-9']+/] at a position. *)
Definition wordRe : matcher := fun str =>
  let '(w, rest) := span isWordChar str in
  match w with
  | [] => None
  | _ :: _ => Some (w, rest)
  end.

(** The loop of [String.prototype.match] with a [/g] pattern: after a match
    the search resumes behind it, after a failure one character further.
    Neither pattern matches the empty string, so [fuel] = length + 1 always
    reaches the end (lemma [matchAll_fuel]). *)
Fixpoint matchAll (re : matcher) (fuel : nat) (str : jsstring) : list jsstring :=
  match fuel with
  | O => []
  | S fuel' =>
      match re str with
      | Some (hit, rest) => hit :: matchAll re fuel' rest
      | None =>
          match str with
          | [] => []
          | _ :: r => matchAll re fuel' r
          end
      end
  end.

(** [str.match(re)]: the list of all matches, or [null] when there is none. *)
Definition String_match (re : matcher) (str : jsstring) : option (list jsstring) :=
  match matchAll re (S (length str)) str with
  | [] => None
  | hits => Some hits
  end.

(** ** Numbers *)

Inductive jsnumber :=
| Fin (q : Q)
| NaN.

(** A value that is a count or a string; such a string always contains the
    source text of a function, so it is non-empty and not numeric. *)
Inductive numOrStr :=
| Num (n : N)
| Str.

(** What reading a property of the frequency table can give. *)
Inductive jsval :=
| VUndefined
| VOwn (v : numOrStr)
| VFunction.

(** [v || 0]. *)
Definition orZero (v : jsval) : numOrStr :=
  match v with
  | VUndefined => Num 0
  | VOwn (Num n) => Num n
  | VOwn Str => Str
  | VFunction => Str
  end.

(** [a + b] where each side is a number or a string: numeric addition of two
    numbers, concatenation as soon as one side is a string. In [orZero]
    above, a function that survives [||] is only ever an operand of [+],
    where it is turned into its source text: hence [Str]. *)
Definition plus (a b : numOrStr) : numOrStr :=
  match a, b with
  | Num x, Num y => Num (x + y)
  | _, _ => Str
  end.

(** [x / d] for a positive integer [d]. *)
Definition divide (x : numOrStr) (d : nat) : jsnumber :=
  match x with
  | Num n => Fin (Z.of_N n # Pos.of_nat d)
  | Str => NaN
  end.

(** [a - b] on numbers. *)
Definition minus (a b : jsnumber) : jsnumber :=
  match a, b with
  | Fin p, Fin q => Fin (p - q)
  | _, _ => NaN
  end.

(** ** [Array.prototype.sort] *)

(** [SortCompare(x, y) > 0]: a comparator result that is NaN counts as 0. *)
Definition isPositive (v : jsnumber) : bool :=
  match v with
  | Fin q => match (0 ?= q)%Q with Lt => true | _ => false end
  | NaN => false
  end.

(** A stable insertion sort. For a consistent comparator every conforming
    implementation returns this very list, the sort being stable. When the
    comparator yields NaN the order is implementation-defined: the general
    theorems below use only that the result is a permutation of the array,
    and the one example with a NaN score sorts two entries, which this sort
    leaves in their order, as V8 does. *)
Section Sort.
Context {A : Type} (comparefn : A -> A -> jsnumber).

Fixpoint insertSorted (x : A) (l : list A) : list A :=
  match l with
  | [] => [x]
  | y :: r =>
      if isPositive (comparefn x y) then y :: insertSorted x r else x :: l
  end.

Fixpoint js_sort (l : list A) : list A :=
  match l with
  | [] => []
  | x :: r => insertSorted x (js_sort r)
  end.
End Sort.

(** [arr.slice(0, e)] for an integer [e]: a negative [e] counts from the
    end. *)
Definition slice0 {A : Type} (e : Z) (l : list A) : list A :=
  let len := Z.of_nat (length l) in
  let final := if (e <? 0)%Z then Z.max (len + e) 0 else Z.min e len in
  take (Z.to_nat final) l.

(** ** The extractive summariser *)

Definition stop : gset jsstring :=
  list_to_set (map lit
    ["the"; "is"; "in"; "at"; "of"; "a"; "an"; "and"; "or"; "to"; "for";
     "on"; "with"; "as"; "by"; "it"; "this"; "that"; "from"; "are"; "be";
     "was"; "were"; "will"; "can"; "could"]%string).

(** [freq[w]] on the object literal [{}]: an own property if one was
    written, otherwise what [Object.prototype] provides. Words consist of
    lower-case letters, digits and apostrophes; the only property of
    [Object.prototype] with such a name is [constructor]. *)
Definition freq_get (freq : gmap jsstring numOrStr) (w : jsstring) : jsval :=
  match freq !! w with
  | Some v => VOwn v
  | None => if decide (w = lit "constructor") then VFunction else VUndefined
  end.

(** One round of the loop [for (const w of words)]. *)
Definition freqStep (freq : gmap jsstring numOrStr) (w : jsstring)
  : gmap jsstring numOrStr :=
  if decide (w ∈ stop) then freq
  else <[w := plus (orZero (freq_get freq w)) (Num 1)]> freq.

Definition buildFreq (words : list jsstring) : gmap jsstring numOrStr :=
  fold_left freqStep words ∅.

(** [str.toLowerCase().match(/[a-zA-Z0-9']+/g) || []]. *)
Definition wordsOf (str : jsstring) : list jsstring :=
  match String_match wordRe (toLowerCase str) with
  | Some ws => ws
  | None => []
  end.

(** [text.replace(/\s+/g, " ").match(/[^.!?]+[.!?]+/g) || [text]]. *)
Definition sentencesOf (text : jsstring) : list jsstring :=
  match String_match sentenceRe (replaceWs text) with
  | Some ss => ss
  | None => [text]
  end.

(** The body of [sentences.map((s) => ...)]. *)
Definition scoreOf (freq : gmap jsstring numOrStr) (sentence : jsstring) : jsnumber :=
  let sw := wordsOf sentence in
  let score := fold_left (fun score w => plus score (orZero (freq_get freq w))) sw (Num 0) in
  divide score (Nat.max 5 (length sw)).

Record entry := { ent_s : jsstring; ent_i : nat; ent_score : jsnumber }.

(** [sentences.map((s, i) => ({ s, i, score: scores[i] }))]. *)
Fixpoint indexFrom (k : nat) (sentences : list jsstring) (scores : list jsnumber)
  : list entry :=
  match sentences, scores with
  | s :: ss, sc :: scs =>
      {| ent_s := s; ent_i := k; ent_score := sc |} :: indexFrom (S k) ss scs
  | _, _ => []
  end.

(** [(a, b) => b.score - a.score] and [(a, b) => a.i - b.i]. *)
Definition byScoreDesc (a b : entry) : jsnumber :=
  minus (ent_score b) (ent_score a).

Definition byIndexAsc (a b : entry) : jsnumber :=
  Fin (inject_Z (Z.of_nat (ent_i a) - Z.of_nat (ent_i b))).

Definition scoresOf (text : jsstring) : list jsnumber :=
  map (scoreOf (buildFreq (wordsOf text))) (sentencesOf text).

Definition indexedOf (text : jsstring) : list entry :=
  indexFrom 0 (sentencesOf text) (scoresOf text).

(** [indexed] after [indexed.sort((a, b) => b.score - a.score)]. *)
Definition rankedOf (text : jsstring) : list entry :=
  js_sort byScoreDesc (indexedOf text).

(** [indexed.slice(0, Math.min(maxSentences, indexed.length))]. *)
Definition selectedOf (text : jsstring) (maxSentences : Z) : list entry :=
  let ranked := rankedOf text in
  slice0 (Z.min maxSentences (Z.of_nat (length ranked))) ranked.

Definition topOf (text : jsstring) (maxSentences : Z) : list entry :=
  js_sort byIndexAsc (selectedOf text maxSentences).

(** [generateExtractiveSummary(text, maxSentences)], for an integer
    [maxSentences]. *)
Definition generateExtractiveSummary (text : jsstring) (maxSentences : Z) : jsstring :=
  match text with
  | [] => []
  | _ :: _ => join (lit " ") (map (fun t => trim (ent_s t)) (topOf text maxSentences))
  end.

(** ** JSON values and the remote summariser *)

#[local] Unset Elimination Schemes.
Inductive json :=
| JNull
| JBool (b : bool)
| JNumber (q : Q)
| JString (str : jsstring)
| JArray (items : list json)
| JObject (fields : list (jsstring * json)).
#[local] Set Elimination Schemes.

(** The value of a key in a parsed object; of a repeated key the last
    occurrence counts, as in [JSON.parse]. *)
Fixpoint lookupField (name : jsstring) (fields : list (jsstring * json)) : option json :=
  match fields with
  | [] => None
  | (k, v) :: r =>
      match lookupField name r with
      | Some x => Some x
      | None => if decide (k = name) then Some v else None
      end
  end.

(** [v?.name] for the names the code reads ([candidates], [content],
    [parts], [text]); [None] is [undefined]. No prototype has a property of
    such a name, so only an object with the key gives a value. *)
Definition member (name : jsstring) (v : option json) : option json :=
  match v with
  | Some (JObject fields) => lookupField name fields
  | _ => None
  end.

(** [v?.[0]]. *)
Definition first (v : option json) : option json :=
  match v with
  | Some (JArray items) => head items
  | Some (JObject fields) => lookupField (lit "0") fields
  | Some (JString (c :: _)) => Some (JString [c])
  | _ => None
  end.

(** The outcome of [await fetch(...)] followed by [resp.ok] and
    [await resp.json()]: the request is rejected, or a response arrives whose
    body parses ([Some]) or does not ([None], [resp.json()] rejects). *)
Inductive fetchResult :=
| FetchRejected
| FetchResponse (ok : bool) (body : option json).

(** The process environment and the network, as one request sees them. *)
Record env := {
  GEMINI_API_KEY : option jsstring;
  fetch : jsstring -> jsstring -> fetchResult
}.

(** The result of evaluating code that may throw. *)
Inductive completion (A : Type) :=
| Normal (a : A)
| Throw.
Arguments Normal {A} a.
Arguments Throw {A}.

Definition tryCatch {A : Type} (body handler : completion A) : completion A :=
  match body with
  | Normal a => Normal a
  | Throw => handler
  end.

Definition maxChars : N := 16000.

(** [transcript.slice(-maxChars)]. *)
Definition sliceLast (n : N) (str : jsstring) : jsstring :=
  drop (length str - N.to_nat n) str.

Definition preamble : jsstring :=
  lit "You are an expert note-taker for student study sessions. Summarize the discussion into clear, concise bullet points with headings, action items, and key takeaways. Keep it objective and avoid fabrications. Transcript begins:"
  ++ [10; 10].

Definition endpoint (apiKey : jsstring) : jsstring :=
  lit "https://generativelanguage.googleapis.com/v1beta/models/gemini-1.5-flash:generateContent?key="
  ++ apiKey.

(** [input]: the last [maxChars] characters of a longer transcript. *)
Definition inputOf (transcript : jsstring) : jsstring :=
  if decide (maxChars < N.of_nat (length transcript))
  then sliceLast maxChars transcript else transcript.

(** [data?.candidates?.[0]?.content?.parts?.[0]?.text]. *)
Definition textOf (data : json) : option json :=
  member (lit "text") (first (member (lit "parts")
    (member (lit "content") (first (member (lit "candidates") (Some data)))))).

(** The [try] block of [summarizeWithGemini]. *)
Definition summarizeWithGemini_try (e : env) (transcript : jsstring)
  : completion (option jsstring) :=
  match GEMINI_API_KEY e with
  | None | Some [] => Normal None
  | Some apiKey =>
      let input := inputOf transcript in
      match fetch e (endpoint apiKey) (preamble ++ input) with
      | FetchRejected => Throw
      | FetchResponse false _ => Normal None
      | FetchResponse true None => Throw
      | FetchResponse true (Some data) =>
          match textOf data with
          | Some (JString str) =>
              if decide (0 < length (trim str))%nat
              then Normal (Some (trim str)) else Normal None
          | _ => Normal None
          end
      end
  end.

(** [summarizeWithGemini(transcript)]; [None] is [null]. *)
Definition summarizeWithGemini (e : env) (transcript : jsstring)
  : completion (option jsstring) :=
  tryCatch (summarizeWithGemini_try e transcript) (Normal None).

(** ** The store *)

(** The fields of a session record that the handlers read or write. *)
Record Session := {
  groupId : jsstring;
  transcript : option jsstring;
  transcriptLang : option jsstring;
  summary : option jsstring;
  summaryStatus : option jsstring
}.

(** What the handlers do to the outside, in order: a write of a session
    record (with the record as stored) and the call of the summarisers on a
    transcript. *)
Inductive event :=
| Updated (sessionId : jsstring) (stored : Session)
| Summarizing (merged : jsstring).

(** The database, the outcomes of the coming database calls ([true]: the
    call throws; none left: the calls succeed) and the events so far. *)
Record World := {
  sessions : gmap jsstring Session;
  groups : gmap jsstring (list jsstring);
  failures : list bool;
  trace : list event
}.

(** Computations of a handler: state passing over [World], with
    exceptions. *)
Definition M (A : Type) : Type := World -> completion A * World.

Definition ret {A : Type} (a : A) : M A := fun w => (Normal a, w).

Definition bind {A B : Type} (m : M A) (k : A -> M B) : M B := fun w =>
  match m w with
  | (Normal a, w') => k a w'
  | (Throw, w') => (Throw, w')
  end.

Notation "'let*' x <- m 'in' k" := (bind m (fun x => k))
  (at level 10, x name, m at level 100, k at level 200).

Definition tryCatchM {A : Type} (body handler : M A) : M A := fun w =>
  match body w with
  | (Normal a, w') => (Normal a, w')
  | (Throw, w') => handler w'
  end.

Definition emit (ev : event) : M unit := fun w =>
  (Normal tt,
   {| sessions := sessions w; groups := groups w; failures := failures w;
      trace := trace w ++ [ev] |}).

(** A database call: it throws when the store fails, and runs otherwise. *)
Definition dbCall {A : Type} (op : M A) : M A := fun w =>
  match failures w with
  | [] => op w
  | failed :: rest =>
      let w' := {| sessions := sessions w; groups := groups w;
                   failures := rest; trace := trace w |} in
      if failed then (Throw, w') else op w'
  end.

(** [db.session.findUnique({ where: { id } })]. *)
Definition session_findUnique (id : jsstring) : M (option Session) :=
  dbCall (fun w => (Normal (sessions w !! id), w)).

(** [db.group.findFirst({ where: { id, memberIds: { has: userId } } })]. *)
Definition group_findFirst (id userId : jsstring) : M (option (list jsstring)) :=
  dbCall (fun w =>
    (Normal (match groups w !! id with
             | Some memberIds =>
                 if decide (userId ∈ memberIds) then Some memberIds else None
             | None => None
             end), w)).

(** [db.session.update({ where: { id }, data })]: [data] is the change made
    to the record; updating a record that does not exist throws. *)
Definition session_update (id : jsstring) (data : Session -> Session) : M unit :=
  dbCall (fun w =>
    match sessions w !! id with
    | None => (Throw, w)
    | Some old =>
        let new := data old in
        (Normal tt,
         {| sessions := <[id := new]> (sessions w); groups := groups w;
            failures := failures w; trace := trace w ++ [Updated id new] |})
    end).

(** ** The handlers *)

Record TokenPayload := { id : jsstring }.

Record Request := {
  user : option TokenPayload;
  params_sessionId : jsstring;
  body : option json
}.

Record Response := { status : nat; payload : json }.

Definition message (code : nat) (text : string) : Response :=
  {| status := code; payload := JObject [(lit "message", JString (lit text))] |}.

(** [bodySchema.safeParse(req.body)] for
    [z.object({ transcript: z.string().min(1), lang: z.string().optional() })]:
    the parsed [transcript] and [lang], or [None] when parsing fails. *)
Definition bodySchema_safeParse (b : option json) : option (jsstring * option jsstring) :=
  match b with
  | Some (JObject fields) =>
      match lookupField (lit "transcript") fields with
      | Some (JString t) =>
          if decide (1 <= length t)%nat then
            match lookupField (lit "lang") fields with
            | None => Some (t, None)
            | Some (JString l) => Some (t, Some l)
            | Some _ => None
            end
          else None
      | _ => None
      end
  | _ => None
  end.

(** [existingTranscript ? existingTranscript + "\n" + transcript : transcript]. *)
Definition mergeTranscript (existingTranscript : option jsstring) (incoming : jsstring)
  : jsstring :=
  match existingTranscript with
  | Some (c :: r) => (c :: r) ++ [10] ++ incoming
  | _ => incoming
  end.

(** [llmSummary || generateExtractiveSummary(mergedTranscript, 5)]. *)
Definition orExtractive (llmSummary : option jsstring) (mergedTranscript : jsstring)
  : jsstring :=
  match llmSummary with
  | Some (c :: r) => c :: r
  | _ => generateExtractiveSummary mergedTranscript 5
  end.

(** The data of the first update; a [lang] that is [undefined] leaves the
    stored language as it is. *)
Definition markPending (mergedTranscript : jsstring) (lang : option jsstring)
  (old : Session) : Session :=
  {| groupId := groupId old;
     transcript := Some mergedTranscript;
     transcriptLang := match lang with Some l => Some l | None => transcriptLang old end;
     summary := summary old;
     summaryStatus := Some (lit "pending") |}.

(** The data of the second update. *)
Definition markCompleted (text : jsstring) (old : Session) : Session :=
  {| groupId := groupId old;
     transcript := transcript old;
     transcriptLang := transcriptLang old;
     summary := Some text;
     summaryStatus := Some (lit "completed") |}.

Definition liftC {A : Type} (c : completion A) : M A := fun w => (c, w).

(** [uploadTranscript(req, res)]; the result is the response sent. The
    [emit] marks the point where the summarisers are called, after the first
    write; it has no counterpart in the source. *)
Definition uploadTranscript (e : env) (req : Request) : M Response :=
  tryCatchM
    (match user req with
     | None => ret (message 401 "Unauthorized")
     | Some u =>
         let sessionId := params_sessionId req in
         match bodySchema_safeParse (body req) with
         | None => ret (message 400 "Invalid payload")
         | Some (fragment, lang) =>
             let* found <- session_findUnique sessionId in
             match found with
             | None => ret (message 404 "Session not found")
             | Some session =>
                 let* isMember <- group_findFirst (groupId session) (id u) in
                 match isMember with
                 | None => ret (message 403 "Forbidden")
                 | Some _ =>
                     let mergedTranscript :=
                       mergeTranscript (transcript session) fragment in
                     let* _ <- session_update sessionId (markPending mergedTranscript lang) in
                     let* _ <- emit (Summarizing mergedTranscript) in
                     let* llmSummary <- liftC (summarizeWithGemini e mergedTranscript) in
                     let text := orExtractive llmSummary mergedTranscript in
                     let* _ <- session_update sessionId (markCompleted text) in
                     ret {| status := 200;
                            payload := JObject [(lit "message", JString (lit "Transcript saved"));
                                                (lit "summary", JString text)] |}
                 end
             end
         end
     end)
    (ret (message 500 "Failed to save transcript")).

(** [v || null]. *)
Definition orNull (v : option jsstring) : json :=
  match v with
  | Some (c :: r) => JString (c :: r)
  | _ => JNull
  end.

(** [s.summaryStatus || (s.summary ? "completed" : "not_available")]. *)
Definition statusOf (s : Session) : jsstring :=
  match summaryStatus s with
  | Some (c :: r) => c :: r
  | _ =>
      match summary s with
      | Some (_ :: _) => lit "completed"
      | _ => lit "not_available"
      end
  end.

(** [getSummary(req, res)]; the result is the response sent. *)
Definition getSummary (req : Request) : M Response :=
  tryCatchM
    (match user req with
     | None => ret (message 401 "Unauthorized")
     | Some u =>
         let sessionId := params_sessionId req in
         let* found <- session_findUnique sessionId in
         match found with
         | None => ret (message 404 "Session not found")
         | Some session =>
             let* isMember <- group_findFirst (groupId session) (id u) in
             match isMember with
             | None => ret (message 403 "Forbidden")
             | Some _ =>
                 ret {| status := 200;
                        payload := JObject [(lit "transcript", orNull (transcript session));
                                            (lit "summary", orNull (summary session));
                                            (lit "status", JString (statusOf session));
                                            (lit "lang", orNull (transcriptLang session))] |}
             end
         end
     end)
    (ret (message 500 "Failed to fetch summary")).

(** ** Notions used in the statements *)

(** A string with a character that is not white space. *)
Definition hasInk (str : jsstring) : bool :=
  existsb (fun c => negb (isWhiteSpace c)) str.

(** What follows the last terminator of a string (the whole string when it
    has no terminator). *)
Fixpoint afterLastTerminator (str : jsstring) : jsstring :=
  match str with
  | [] => []
  | c :: r =>
      if existsb isTerminator r then afterLastTerminator r
      else if isTerminator c then r else c :: r
  end.

(** A string in which some terminator comes after a non-terminator. *)
Definition hasSentence (str : jsstring) : bool :=
  existsb isTerminator (dropWhile isTerminator str).

(** A match of the sentence pattern: non-terminators, then terminators. *)
Definition sentenceShape (hit : jsstring) : Prop :=
  exists body marks,
    hit = body ++ marks /\ body <> [] /\ marks <> []
    /\ forallb (fun c => negb (isTerminator c)) body = true
    /\ forallb isTerminator marks = true.

(** The number of occurrences of [w] among the words [ws] that are not
    stopwords, and among those of a text. *)
Definition countOf (ws : list jsstring) (w : jsstring) : nat :=
  length (filter (fun x => x = w) (filter (fun x => x ∉ stop) ws)).

Definition contentCount (text w : jsstring) : nat := countOf (wordsOf text) w.

(** The score of a sentence in the words of the specification: the sum of
    the content counts of its words, over [max(5, number of words)]. *)
Definition specScore (text sentence : jsstring) : Q :=
  let sw := wordsOf sentence in
  Z.of_nat (foldr (fun w acc => (contentCount text w + acc)%nat) 0%nat sw)
    # Pos.of_nat (Nat.max 5 (length sw)).

(** The ways in which the remote service gives no summary: no credential,
    a request that fails, a response that is not a success, a body that does
    not parse, a body without a text, and a text that is blank. *)
Inductive unavailable (e : env) (transcript : jsstring) : Prop :=
| no_credential :
    GEMINI_API_KEY e = None \/ GEMINI_API_KEY e = Some [] ->
    unavailable e transcript
| no_summary (apiKey : jsstring) :
    GEMINI_API_KEY e = Some apiKey ->
    match fetch e (endpoint apiKey) (preamble ++ inputOf transcript) with
    | FetchRejected => True
    | FetchResponse false _ => True
    | FetchResponse true None => True
    | FetchResponse true (Some data) =>
        match textOf data with
        | Some (JString str) => trim str = []
        | _ => True
        end
    end ->
    unavailable e transcript.

(** A field that JavaScript takes for false: not stored, or the empty
    string. *)
Definition absent (v : option jsstring) : Prop := v = None \/ v = Some [].

(** A new session: no transcript, no summary, no status. The creation
    handler passes none of these columns; that they start without a value is
    a matter of the schema of the store, which is not among the sources
    modelled here, and is taken as the starting point. *)
Definition fresh (group : jsstring) : Session :=
  {| groupId := group; transcript := None; transcriptLang := None;
     summary := None; summaryStatus := None |}.

(** The events that a run adds to the trace. *)
Definition newEvents (before after : World) : list event :=
  drop (length (trace before)) (trace after).

(** The states of a session record that transcript submissions can store,
    starting from a fresh session: any request, any environment, any
    behaviour of the store. *)
Inductive reachable : Session -> Prop :=
| reach_fresh (group : jsstring) : reachable (fresh group)
| reach_upload (s stored : Session) (e : env) (req : Request) (w : World) :
    reachable s ->
    sessions w !! params_sessionId req = Some s ->
    Updated (params_sessionId req) stored ∈ newEvents w (uploadTranscript e req w).2 ->
    reachable stored.

(** No call of the store is going to fail. *)
Definition storeUp (w : World) : Prop :=
  Forall (fun failed => failed = false) (failures w).

(** A request that the handlers accept: an authenticated member of the
    group that owns the session. *)
Definition authorized (req : Request) (w : World) (session : Session) : Prop :=
  exists u members,
    user req = Some u /\
    sessions w !! params_sessionId req = Some session /\
    groups w !! groupId session = Some members /\
    id u ∈ members.

(** The status that [getSummary] reports for each stored state of a
    session, in the order of the writes. *)
Definition statusesOf (sessionId : jsstring) (events : list event) : list jsstring :=
  omap (fun ev =>
          match ev with
          | Updated i stored =>
              if decide (i = sessionId) then Some (statusOf stored) else None
          | Summarizing _ => None
          end) events.

(** The response to an accepted submission. *)
Definition saved (text : jsstring) : Response :=
  {| status := 200;
     payload := JObject [(lit "message", JString (lit "Transcript saved"));
                         (lit "summary", JString text)] |}.

(** The body of the response of [getSummary] for a session. *)
Definition summaryView (s : Session) : Response :=
  {| status := 200;
     payload := JObject [(lit "transcript", orNull (transcript s));
                         (lit "summary", orNull (summary s));
                         (lit "status", JString (statusOf s));
                         (lit "lang", orNull (transcriptLang s))] |}.

(** A small world for examples: no credential for the remote service; one
    group with the one member "u1" and one session "s1"; a request of that
    member for that session, carrying a fragment. *)
Definition offline : env :=
  {| GEMINI_API_KEY := None; fetch := fun _ _ => FetchRejected |}.

Definition demoWorld (s : Session) : World :=
  {| sessions := {[ lit "s1" := s ]};
     groups := {[ groupId s := [lit "u1"] ]};
     failures := [];
     trace := [] |}.

Definition demoRequest (fragment : string) : Request :=
  {| user := Some {| id := lit "u1" |};
     params_sessionId := lit "s1";
     body := Some (JObject [(lit "transcript", JString (lit fragment))]) |}.

(** ** Further notions used in the statements *)

(** A list that the sort leaves as it is: no element comes after its
    successor. *)
Fixpoint inOrder {A : Type} (comparefn : A -> A -> jsnumber) (l : list A) : Prop :=
  match l with
  | x :: ((y :: _) as r) => isPositive (comparefn x y) = false /\ inOrder comparefn r
  | _ => True
  end.

(** A body of the remote service whose first candidate has [str] as the text
    of its first part. *)
Definition geminiReply (str : jsstring) (otherParts otherCandidates : list json) : json :=
  JObject
    [(lit "candidates",
      JArray
        (JObject
           [(lit "content",
             JObject
               [(lit "parts",
                 JArray (JObject [(lit "text", JString str)] :: otherParts))])]
         :: otherCandidates))].

(** One submission after the other. *)
Definition submitAll (steps : list (env * Request)) (w : World) : World :=
  fold_left (fun w0 step => (uploadTranscript step.1 step.2 w0).2) steps w.

(** A request of a member of the group for the session [sid], carrying the
    fragment [fragment]. *)
Definition memberRequest (sid : jsstring) (members : list jsstring)
  (req : Request) (fragment : jsstring) : Prop :=
  params_sessionId req = sid
  /\ (exists u, user req = Some u /\ id u ∈ members)
  /\ exists lang, bodySchema_safeParse (body req) = Some (fragment, lang).

(** The request of the user [uid] for the session [sid], carrying a
    fragment. *)
Definition requestOf (uid sid fragment : string) : Request :=
  {| user := Some {| id := lit uid |};
     params_sessionId := lit sid;
     body := Some (JObject [(lit "transcript", JString (lit fragment))]) |}.

(** An environment with a credential, in which the remote service answers
    every request with the given text. *)
Definition online (answer : string) : env :=
  {| GEMINI_API_KEY := Some (lit "key");
     fetch := fun _ _ => FetchResponse true (Some (geminiReply (lit answer) [] [])) |}.

(** ** The other handlers of the session controller *)

(** The value of [new Date(...)]: a time in milliseconds, or the invalid
    date. *)
Inductive Date :=
| ValidDate (ms : Z)
| InvalidDate.

(** The columns of a session record that the handlers below read or write,
    beside those of [Session]. A stored [time] is a valid date; [isStarted]
    is [false] also where the column holds no value. *)
Record Details := {
  name : jsstring;
  description : option jsstring;
  time : Z;
  prerequisites : option jsstring;
  creatorID : jsstring;
  isStarted : bool;
  startedAt : option Z;
  endedAt : option Z
}.

(** The table of sessions with all its columns: the records of [World] and,
    under the same identifiers, their further columns. *)
Record Db := {
  world : World;
  details : gmap jsstring Details
}.

(** A session record as the store returns it: its identifier and its
    columns. *)
Definition Row : Type := jsstring * Session * Details.

(** The responses of these handlers: [{ message }]; [{ message, errors }]
    with the errors that the validation library composes; a record; [{
    message, session }]; a list of records. *)
Inductive Reply :=
| Message (code : nat) (text : string)
| Invalid (code : nat) (text : string)
| OneRow (code : nat) (row : Row)
| MessageRow (code : nat) (text : string) (row : Row)
| Rows (code : nat) (rows : list Row).

Definition codeOf (r : Reply) : nat :=
  match r with
  | Message c _ | Invalid c _ | OneRow c _ | MessageRow c _ _ | Rows c _ => c
  end.

(** Computations over [Db]. *)
Definition H (A : Type) : Type := Db -> completion A * Db.

Definition retH {A : Type} (a : A) : H A := fun d => (Normal a, d).

Definition bindH {A B : Type} (m : H A) (k : A -> H B) : H B := fun d =>
  match m d with
  | (Normal a, d') => k a d'
  | (Throw, d') => (Throw, d')
  end.

Notation "'let+' x <- m 'in' k" := (bindH m (fun x => k))
  (at level 10, x name, m at level 100, k at level 200).

Definition tryCatchH {A : Type} (body handler : H A) : H A := fun d =>
  match body d with
  | (Normal a, d') => (Normal a, d')
  | (Throw, d') => handler d'
  end.

(** A computation over [World], run on the records of [Db]. *)
Definition liftW {A : Type} (m : M A) : H A := fun d =>
  let '(c, w') := m (world d) in (c, {| world := w'; details := details d |}).

(** [db.session.findUnique({ where: { id }, include: { group: true } })]. *)
Definition row_findUnique (id : jsstring) : H (option Row) :=
  let+ found <- liftW (session_findUnique id) in
  fun d =>
    (Normal match found, details d !! id with
            | Some s, Some x => Some (id, s, x)
            | _, _ => None
            end, d).

(** [db.session.update({ where: { id }, data })] on the further columns; the
    result is the record as updated. *)
Definition row_update (id : jsstring) (data : Details -> Details) : H Row :=
  let+ _ <- liftW (session_update id (fun s => s)) in
  fun d =>
    match sessions (world d) !! id, details d !! id with
    | Some s, Some x =>
        (Normal (id, s, data x),
         {| world := world d; details := <[id := data x]> (details d) |})
    | _, _ => (Throw, d)
    end.

(** [db.session.delete({ where: { id } })]; deleting a record that does not
    exist throws. *)
Definition row_delete (id : jsstring) : H Row :=
  let+ s <- liftW (dbCall (fun w =>
              match sessions w !! id with
              | None => (Throw, w)
              | Some s =>
                  (Normal s,
                   {| sessions := delete id (sessions w); groups := groups w;
                      failures := failures w; trace := trace w |})
              end)) in
  fun d =>
    match details d !! id with
    | Some x =>
        (Normal (id, s, x), {| world := world d; details := delete id (details d) |})
    | None => (Throw, d)
    end.

(** [db.session.create({ data })], [newId] being the identifier that the
    store gives to the record. *)
Definition row_create (newId : jsstring) (s : Session) (x : Details) : H Row :=
  let+ _ <- liftW (dbCall (fun w =>
              match sessions w !! newId with
              | Some _ => (Throw, w)
              | None =>
                  (Normal tt,
                   {| sessions := <[newId := s]> (sessions w); groups := groups w;
                      failures := failures w; trace := trace w |})
              end)) in
  fun d =>
    (Normal (newId, s, x),
     {| world := world d; details := <[newId := x]> (details d) |}).

(** [db.session.findMany({ where: { groupId } })]; the order of the records
    is the one of the model's table. *)
Definition rows_findMany (group : jsstring) : H (list Row) :=
  let+ found <- liftW (dbCall (fun w =>
                  (Normal (filter (fun kv => groupId kv.2 = group)
                                  (map_to_list (sessions w))), w))) in
  fun d =>
    (Normal (omap (fun kv => match details d !! kv.1 with
                             | Some x => Some (kv.1, kv.2, x)
                             | None => None
                             end) found), d).

(** The membership check shared by the handlers. *)
Definition member_findFirst (group userId : jsstring) : H (option (list jsstring)) :=
  liftW (group_findFirst group userId).

(** A value that may be [undefined], [null] or a string. *)
Inductive nullable :=
| Undefined
| Null
| Text (str : jsstring).

(** [z.string().optional()] on the value of a key. *)
Definition optionalString (v : option json) : option (option jsstring) :=
  match v with
  | None => Some None
  | Some (JString str) => Some (Some str)
  | Some _ => None
  end.

(** [z.string().optional().nullable()]. *)
Definition nullableString (v : option json) : option nullable :=
  match v with
  | None => Some Undefined
  | Some JNull => Some Null
  | Some (JString str) => Some (Text str)
  | Some _ => None
  end.

(** [z.string().min(1, ...).max(100)]. *)
Definition sessionName (v : option json) : option jsstring :=
  match v with
  | Some (JString str) =>
      if decide (1 <= length str <= 100)%nat then Some str else None
  | _ => None
  end.

(** The class [[0-9a-fA-F]]. *)
Definition isHexDigit (c : N) : bool :=
  ((48 <=? c) && (c <=? 57)) || ((97 <=? c) && (c <=? 102))
  || ((65 <=? c) && (c <=? 70)).

(** [z.string().length(24, ...).regex(/^[0-9a-fA-F]{24}$/, ...)]. *)
Definition groupIdentifier (v : option json) : option jsstring :=
  match v with
  | Some (JString str) =>
      if decide (length str = 24%nat) then
        if forallb isHexDigit str then Some str else None
      else None
  | _ => None
  end.

(** [z.string().transform((str) => new Date(str))], [parseDate] being
    [new Date] on strings. *)
Definition dateString (parseDate : jsstring -> Date) (v : option json) : option Date :=
  match v with
  | Some (JString str) => Some (parseDate str)
  | _ => None
  end.

Record NewSession := {
  new_name : jsstring;
  new_description : option jsstring;
  new_groupId : jsstring;
  new_preRequisites : option jsstring;
  new_time : Date
}.

(** [createSessionSchema.safeParse(req.body)]. *)
Definition createSessionSchema_safeParse (parseDate : jsstring -> Date)
  (b : option json) : option NewSession :=
  match b with
  | Some (JObject fields) =>
      match sessionName (lookupField (lit "name") fields),
            optionalString (lookupField (lit "description") fields),
            groupIdentifier (lookupField (lit "groupId") fields),
            optionalString (lookupField (lit "preRequisites") fields),
            dateString parseDate (lookupField (lit "time") fields) with
      | Some n, Some d, Some g, Some p, Some t =>
          Some {| new_name := n; new_description := d; new_groupId := g;
                  new_preRequisites := p; new_time := t |}
      | _, _, _, _, _ => None
      end
  | _ => None
  end.

Record SessionUpdate := {
  upd_name : jsstring;
  upd_description : option jsstring;
  upd_time : Date;
  upd_prerequisites : nullable
}.

(** [updateBodySchema.safeParse(req.body)]. *)
Definition updateBodySchema_safeParse (parseDate : jsstring -> Date)
  (b : option json) : option SessionUpdate :=
  match b with
  | Some (JObject fields) =>
      match sessionName (lookupField (lit "name") fields),
            optionalString (lookupField (lit "description") fields),
            dateString parseDate (lookupField (lit "time") fields),
            nullableString (lookupField (lit "prerequisites") fields) with
      | Some n, Some d, Some t, Some p =>
          Some {| upd_name := n; upd_description := d; upd_time := t;
                  upd_prerequisites := p |}
      | _, _, _, _ => None
      end
  | _ => None
  end.

(** The request of [getAllSessions]. *)
Record GroupRequest := {
  g_user : option TokenPayload;
  params_groupId : jsstring
}.

Definition getAllSessions (req : GroupRequest) : H Reply :=
  tryCatchH
    (match g_user req with
     | None => retH (Message 401 "Unauthorized")
     | Some u =>
         match params_groupId req with
         | [] => retH (Message 400 "Group ID is required")
         | group =>
             let+ found <- member_findFirst group (id u) in
             match found with
             | None => retH (Message 403 "You are not a member of this group")
             | Some _ =>
                 let+ rows <- rows_findMany group in
                 retH (Rows 200 rows)
             end
         end
     end)
    (retH (Message 500 "Failed to get sessions")).

(** The values that the store gives to the columns that a [create] leaves
    out. They are fixed by the schema of the store, which is not among the
    sources modelled here: the model takes them as a parameter and assumes
    nothing about them. *)
Record Defaults := {
  default_transcript : option jsstring;
  default_transcriptLang : option jsstring;
  default_summary : option jsstring;
  default_summaryStatus : option jsstring;
  default_description : option jsstring;
  default_prerequisites : option jsstring;
  default_isStarted : bool;
  default_startedAt : option Z;
  default_endedAt : option Z
}.

(** The record that [createSession] asks the store to create. The handler
    passes [name], [time], [description], [groupId], [prerequisites] and
    [creatorID]; a [description] or [prerequisites] that is [undefined] is
    left out as well. *)
Definition createdSession (defaults : Defaults) (group : jsstring) : Session :=
  {| groupId := group;
     transcript := default_transcript defaults;
     transcriptLang := default_transcriptLang defaults;
     summary := default_summary defaults;
     summaryStatus := default_summaryStatus defaults |}.

Definition createdDetails (defaults : Defaults) (parsed : NewSession) (ms : Z)
  (creator : jsstring) : Details :=
  {| name := new_name parsed;
     description := match new_description parsed with
                    | Some text => Some text
                    | None => default_description defaults
                    end;
     time := ms;
     prerequisites := match new_preRequisites parsed with
                      | Some text => Some text
                      | None => default_prerequisites defaults
                      end;
     creatorID := creator;
     isStarted := default_isStarted defaults;
     startedAt := default_startedAt defaults;
     endedAt := default_endedAt defaults |}.

(** [createSession]; a record with an invalid date is refused by the store
    client, which throws. *)
Definition createSession (parseDate : jsstring -> Date) (newId : jsstring)
  (defaults : Defaults) (req : Request) : H Reply :=
  tryCatchH
    (match user req with
     | None => retH (Message 401 "Unauthorized")
     | Some u =>
         match createSessionSchema_safeParse parseDate (body req) with
         | None => retH (Invalid 400 "Invalid input data")
         | Some parsed =>
             let+ found <- member_findFirst (new_groupId parsed) (id u) in
             match found with
             | None => retH (Message 403 "You are not a member of this group")
             | Some _ =>
                 match new_time parsed with
                 | InvalidDate => fun d => (Throw, d)
                 | ValidDate ms =>
                     let+ session <- row_create newId
                                       (createdSession defaults (new_groupId parsed))
                                       (createdDetails defaults parsed ms (id u)) in
                     retH (OneRow 201 session)
                 end
             end
         end
     end)
    (retH (Message 500 "Failed to create session")).

Definition deleteSession (req : Request) : H Reply :=
  tryCatchH
    (match user req with
     | None => retH (Message 401 "Unauthorized")
     | Some u =>
         match params_sessionId req with
         | [] => retH (Message 400 "Session ID is required")
         | sessionId =>
             let+ found <- row_findUnique sessionId in
             match found with
             | None => retH (Message 404 "Session not found")
             | Some (_, session, _) =>
                 let+ isMember <- member_findFirst (groupId session) (id u) in
                 match isMember with
                 | None => retH (Message 403 "You are not a member of this group")
                 | Some _ =>
                     let+ deletedSession <- row_delete sessionId in
                     retH (OneRow 200 deletedSession)
                 end
             end
         end
     end)
    (retH (Message 500 "Failed to delete session")).

(** [prerequisites == null || prerequisites === undefined || prerequisites
    === "null"] makes [prerequisites] the empty string. *)
Definition normalizePrerequisites (p : nullable) : jsstring :=
  match p with
  | Undefined | Null => []
  | Text str => if decide (str = lit "null") then [] else str
  end.

(** The data of the update in [updateSession]; a [description] that is
    [undefined] leaves the stored one as it is. *)
Definition updatedDetails (parsed : SessionUpdate) (ms : Z) (old : Details) : Details :=
  {| name := upd_name parsed;
     description := match upd_description parsed with
                    | Some d => Some d
                    | None => description old
                    end;
     time := ms;
     prerequisites := Some (normalizePrerequisites (upd_prerequisites parsed));
     creatorID := creatorID old;
     isStarted := isStarted old;
     startedAt := startedAt old;
     endedAt := endedAt old |}.

Definition updateSession (parseDate : jsstring -> Date) (req : Request) : H Reply :=
  tryCatchH
    (match user req with
     | None => retH (Message 401 "Unauthorized")
     | Some u =>
         let sessionId := params_sessionId req in
         match updateBodySchema_safeParse parseDate (body req) with
         | None => retH (Invalid 400 "Invalid input data")
         | Some parsed =>
             let+ found <- row_findUnique sessionId in
             match found with
             | None => retH (Message 404 "Session not found")
             | Some (_, session, _) =>
                 let+ isMember <- member_findFirst (groupId session) (id u) in
                 match isMember with
                 | None => retH (Message 403 "You are not a member of this group")
                 | Some _ =>
                     match upd_time parsed with
                     | InvalidDate => fun d => (Throw, d)
                     | ValidDate ms =>
                         let+ updatedSession <-
                           row_update sessionId (updatedDetails parsed ms) in
                         retH (OneRow 200 updatedSession)
                     end
                 end
             end
         end
     end)
    (retH (Message 500 "Failed to update session")).

(** [{ isStarted: true, startedAt: new Date() }] and [{ endedAt: new Date()
    }], [now] being the time of the call. *)
Definition markStarted (now : Z) (old : Details) : Details :=
  {| name := name old; description := description old; time := time old;
     prerequisites := prerequisites old; creatorID := creatorID old;
     isStarted := true; startedAt := Some now; endedAt := endedAt old |}.

Definition markEnded (now : Z) (old : Details) : Details :=
  {| name := name old; description := description old; time := time old;
     prerequisites := prerequisites old; creatorID := creatorID old;
     isStarted := isStarted old; startedAt := startedAt old; endedAt := Some now |}.

Definition startSession (now : Z) (req : Request) : H Reply :=
  tryCatchH
    (match user req with
     | None => retH (Message 401 "Unauthorized")
     | Some u =>
         let sessionId := params_sessionId req in
         let+ found <- row_findUnique sessionId in
         match found with
         | None => retH (Message 404 "Session not found")
         | Some (_, _, session) =>
             if decide (creatorID session = id u) then
               if isStarted session
               then retH (Message 400 "Session already started")
               else
                 let+ updatedSession <- row_update sessionId (markStarted now) in
                 retH (MessageRow 200 "Session started successfully" updatedSession)
             else retH (Message 403 "Only session creator can start the session")
         end
     end)
    (retH (Message 500 "Failed to start session")).

Definition endSession (now : Z) (req : Request) : H Reply :=
  tryCatchH
    (match user req with
     | None => retH (Message 401 "Unauthorized")
     | Some u =>
         let sessionId := params_sessionId req in
         let+ found <- row_findUnique sessionId in
         match found with
         | None => retH (Message 404 "Session not found")
         | Some (_, _, session) =>
             if decide (creatorID session = id u) then
               if isStarted session then
                 match endedAt session with
                 | Some _ => retH (Message 400 "Session already ended")
                 | None =>
                     let+ updatedSession <- row_update sessionId (markEnded now) in
                     retH (MessageRow 200 "Session ended successfully" updatedSession)
                 end
               else retH (Message 400 "Session hasn't started yet")
             else retH (Message 403 "Only session creator can end the session")
         end
     end)
    (retH (Message 500 "Failed to end session")).

(** The shape of the goals about a run that changes nothing. *)
Ltac refused :=
  split; [congruence|]; split; [congruence|]; split; [tauto|];
  eexists; split; [reflexivity|];
  left; split; [congruence|]; split; [discriminate|].

(** A table for examples: the session "s1" of the example world, created by
    "u1", with the given state. *)
Definition demoDetails (started : bool) (startedAt0 endedAt0 : option Z) : Details :=
  {| name := lit "Algebra"; description := None; time := 0;
     prerequisites := None; creatorID := lit "u1";
     isStarted := started; startedAt := startedAt0; endedAt := endedAt0 |}.

Definition demoDb (x : Details) : Db :=
  {| world := demoWorld (fresh (lit "g1")); details := {[ lit "s1" := x ]} |}.

(** A date parser for examples: every string is the time 0. *)
Definition epoch (str : jsstring) : Date := ValidDate 0.

(** Defaults for examples: a summary status is set, the other columns hold
    no value. *)
Definition demoDefaults : Defaults :=
  {| default_transcript := None; default_transcriptLang := None;
     default_summary := None; default_summaryStatus := Some (lit "draft");
     default_description := None; default_prerequisites := None;
     default_isStarted := false; default_startedAt := None;
     default_endedAt := None |}.

(** ** The transcription route ([src/api/transcription.ts]) *)

(** The uploaded file: [req.file.buffer] and [req.file.mimetype]. *)
Record AudioFile := { buffer : list N; mimetype : jsstring }.

(** The outcome of the request to the speech service: the request is
    rejected; the response is not a success, with the outcome of reading its
    text; the response is a success, with its body when it parses. *)
Inductive deepgramResult :=
| DgRejected
| DgFailure (errText : completion jsstring)
| DgSuccess (body : option json).

(** The process environment and the two services, as one request sees them.
    [listen] gets the credential, the content type and the audio;
    [generateContent] stands for the call of the model and the reading of its
    text, and gets the transcript, which determines the prompt. *)
Record TranscribeEnv := {
  env_DEEPGRAM_API_KEY : option jsstring;
  env_GEMINI_API_KEY : option jsstring;
  listen : jsstring -> jsstring -> list N -> deepgramResult;
  generateContent : json -> completion jsstring
}.

(** Whether JavaScript takes a parsed value for true. *)
Definition truthy (v : json) : bool :=
  match v with
  | JNull => false
  | JBool b => b
  | JNumber q => negb (Qeq_bool q 0)
  | JString str => match str with [] => false | _ :: _ => true end
  | JArray _ | JObject _ => true
  end.

(** [dgJson?.results?.channels?.[0]?.alternatives?.[0]?.transcript || ""];
    no prototype has a property of one of these names either. *)
Definition transcriptOf (dgJson : json) : json :=
  match member (lit "transcript") (first (member (lit "alternatives")
          (first (member (lit "channels") (member (lit "results") (Some dgJson)))))) with
  | Some v => if truthy v then v else JString []
  | None => JString []
  end.

(** The responses of the route: 500 [{ error }] for a missing credential;
    400 for a missing file; 502 with the text of the speech service; 500
    "Server error" with the message of the exception; 200 [{ transcript,
    summary }]. *)
Inductive TranscribeReply :=
| ConfigError (error : string)
| NoAudio
| DeepgramError (details : jsstring)
| ServerError
| Transcribed (transcript : json) (summary : jsstring).

(** [req.file.mimetype || "audio/webm"]. *)
Definition contentTypeOf (file : AudioFile) : jsstring :=
  match mimetype file with
  | [] => lit "audio/webm"
  | m => m
  end.

(** The [try] block of the handler of [POST /transcribe]. *)
Definition transcribe_try (e : TranscribeEnv) (file : option AudioFile)
  : completion TranscribeReply :=
  match env_DEEPGRAM_API_KEY e with
  | None | Some [] => Normal (ConfigError "Missing DEEPGRAM_API_KEY")
  | Some dgKey =>
      match env_GEMINI_API_KEY e with
      | None | Some [] => Normal (ConfigError "Missing GEMINI_API_KEY")
      | Some _ =>
          match file with
          | None => Normal NoAudio
          | Some f =>
              match listen e dgKey (contentTypeOf f) (buffer f) with
              | DgRejected => Throw
              | DgFailure (Normal errText) => Normal (DeepgramError errText)
              | DgFailure Throw => Throw
              | DgSuccess None => Throw
              | DgSuccess (Some dgJson) =>
                  let transcript := transcriptOf dgJson in
                  match generateContent e transcript with
                  | Normal summary => Normal (Transcribed transcript summary)
                  | Throw => Throw
                  end
              end
          end
      end
  end.

Definition transcribe (e : TranscribeEnv) (file : option AudioFile) : TranscribeReply :=
  match transcribe_try e file with
  | Normal reply => reply
  | Throw => ServerError
  end.

(** Services for examples: the speech service hears "hello"; the model is
    down. *)
Definition demoServices : TranscribeEnv :=
  {| env_DEEPGRAM_API_KEY := Some (lit "dg");
     env_GEMINI_API_KEY := Some (lit "gm");
     listen := fun _ _ _ =>
       DgSuccess (Some (JObject
         [(lit "results",
           JObject [(lit "channels",
             JArray [JObject [(lit "alternatives",
               JArray [JObject [(lit "transcript", JString (lit "hello"))]])]])])]));
     generateContent := fun _ => Throw |}.

(** ** Strings and patterns *)

Lemma isTerminator_not_ws c : isTerminator c = true -> isWhiteSpace c = false.
Proof.
  unfold isTerminator. rewrite !orb_true_iff, !N.eqb_eq.
  intros [[-> | ->] | ->]; reflexivity.
Qed.

Lemma span_spec p str :
  str = (span p str).1 ++ (span p str).2
  /\ forallb p (span p str).1 = true
  /\ match (span p str).2 with [] => True | c :: _ => p c = false end.
Proof.
  induction str as [|c r IH]; simpl; [done|].
  destruct (p c) eqn:Hc; simpl; [|done].
  destruct (span p r) as [a b]; simpl in *.
  destruct IH as (-> & Ha & Hb). rewrite Hc. done.
Qed.

Lemma hasInk_app a b : hasInk (a ++ b) = hasInk a || hasInk b.
Proof. apply existsb_app. Qed.

Lemma hasInk_rev a : hasInk (rev a) = hasInk a.
Proof.
  induction a as [|c r IH]; simpl; [done|].
  rewrite hasInk_app, IH. simpl. rewrite orb_false_r. apply orb_comm.
Qed.

Lemma hasInk_dropWhile a : hasInk (dropWhile isWhiteSpace a) = hasInk a.
Proof.
  induction a as [|c r IH]; simpl; [done|].
  destruct (isWhiteSpace c) eqn:Hc; simpl; [done|]. by rewrite Hc.
Qed.

Lemma hasInk_trim a : hasInk (trim a) = hasInk a.
Proof.
  unfold trim. by rewrite hasInk_rev, hasInk_dropWhile, hasInk_rev, hasInk_dropWhile.
Qed.

Lemma trim_nonempty a : hasInk a = true -> trim a <> [].
Proof. intros H E. rewrite <- hasInk_trim, E in H. discriminate. Qed.

Lemma dropWhile_head p a :
  match dropWhile p a with [] => True | c :: _ => p c = false end.
Proof.
  induction a as [|c r IH]; simpl; [done|].
  destruct (p c) eqn:Hc; [done|]. by simpl.
Qed.

Lemma dropWhile_id p a :
  match a with [] => True | c :: _ => p c = false end -> dropWhile p a = a.
Proof. destruct a as [|c r]; simpl; [done|]. by intros ->. Qed.

Lemma dropWhile_suffix p a : exists pre, a = pre ++ dropWhile p a.
Proof.
  induction a as [|c r [pre IH]]; simpl; [by exists []|].
  destruct (p c); [|by exists []].
  exists (c :: pre). simpl. by f_equal.
Qed.

(** Trimming the reverse of a left-trimmed string leaves a string that
    neither starts nor ends with white space. *)
Lemma rev_dropWhile_head a :
  match a with [] => True | c :: _ => isWhiteSpace c = false end ->
  match rev (dropWhile isWhiteSpace (rev a)) with
  | [] => True
  | c :: _ => isWhiteSpace c = false
  end.
Proof.
  intros Ha.
  destruct (dropWhile_suffix isWhiteSpace (rev a)) as [pre E].
  apply (f_equal (@rev N)) in E. rewrite rev_involutive, rev_app_distr in E.
  destruct (rev (dropWhile isWhiteSpace (rev a))) as [|c r]; [done|].
  subst a. exact Ha.
Qed.

Lemma trim_idempotent a : trim (trim a) = trim a.
Proof.
  unfold trim.
  set (y := dropWhile isWhiteSpace (rev (dropWhile isWhiteSpace a))).
  assert (H1 : match y with [] => True | c :: _ => isWhiteSpace c = false end)
    by apply dropWhile_head.
  assert (H2 : match rev y with [] => True | c :: _ => isWhiteSpace c = false end)
    by (apply rev_dropWhile_head, dropWhile_head).
  by rewrite (dropWhile_id _ _ H2), rev_involutive, (dropWhile_id _ _ H1).
Qed.

Lemma join_nonempty sep parts :
  parts <> [] -> Forall (fun x => x <> []) parts -> join sep parts <> [].
Proof.
  destruct parts as [|x r]; [done|]. intros _ H.
  apply Forall_cons in H as [Hx _].
  destruct r; simpl; [done|].
  destruct x; [done|]. discriminate.
Qed.

(** ** Sorting and slicing *)

Section SortFacts.
Context {A : Type} (comparefn : A -> A -> jsnumber).

Lemma insertSorted_perm x l : insertSorted comparefn x l ≡ₚ x :: l.
Proof.
  induction l as [|y r IH]; simpl; [done|].
  destruct (isPositive (comparefn x y)); [|done].
  rewrite IH. apply Permutation_swap.
Qed.

Lemma js_sort_perm l : js_sort comparefn l ≡ₚ l.
Proof.
  induction l as [|x r IH]; simpl; [done|].
  by rewrite insertSorted_perm, IH.
Qed.

Lemma js_sort_length l : length (js_sort comparefn l) = length l.
Proof. apply Permutation_length, js_sort_perm. Qed.
End SortFacts.

Lemma isPositive_byIndexAsc a b :
  isPositive (byIndexAsc a b) = true <-> (ent_i b < ent_i a)%nat.
Proof.
  unfold byIndexAsc, isPositive, Qcompare, inject_Z. simpl.
  destruct (Z.of_nat (ent_i a) - Z.of_nat (ent_i b))%Z eqn:E;
    split; intros H; try discriminate; try done; lia.
Qed.

Lemma insertSorted_byIndex x l :
  StronglySorted (fun a b => (ent_i a <= ent_i b)%nat) l ->
  StronglySorted (fun a b => (ent_i a <= ent_i b)%nat) (insertSorted byIndexAsc x l).
Proof.
  induction 1 as [|y r Hr IH Hy]; cbn [insertSorted].
  - repeat constructor.
  - destruct (isPositive (byIndexAsc x y)) eqn:E.
    + apply isPositive_byIndexAsc in E.
      constructor; [exact IH|].
      rewrite (Forall_forall (fun b => (ent_i y <= ent_i b)%nat)).
      intros z Hz. rewrite insertSorted_perm in Hz.
      apply elem_of_cons in Hz as [->|Hz]; [lia|].
      rewrite Forall_forall in Hy. by apply Hy.
    + assert (ent_i x <= ent_i y)%nat as Hxy.
      { destruct (decide (ent_i y < ent_i x)%nat) as [H|H]; [|lia].
        apply isPositive_byIndexAsc in H. congruence. }
      constructor; [by constructor|].
      constructor; [exact Hxy|].
      eapply Forall_impl; [exact Hy|]. simpl. intros; lia.
Qed.

Lemma js_sort_byIndex l :
  StronglySorted (fun a b => (ent_i a <= ent_i b)%nat) (js_sort byIndexAsc l).
Proof.
  induction l as [|x r IH]; simpl; [constructor|].
  by apply insertSorted_byIndex.
Qed.

(** A list sorted by index whose indices are pairwise different is strictly
    ascending. *)
Lemma sorted_strict (l : list entry) :
  StronglySorted (fun a b => (ent_i a <= ent_i b)%nat) l ->
  NoDup (map ent_i l) ->
  StronglySorted lt (map ent_i l).
Proof.
  induction 1 as [|y r Hr IH Hy]; simpl; intros Hnd; [constructor|].
  apply NoDup_cons in Hnd as [Hny Hnd].
  constructor; [by apply IH|].
  rewrite Forall_forall. intros k Hk.
  apply list_elem_of_fmap in Hk as (z & -> & Hz).
  rewrite Forall_forall in Hy. specialize (Hy z Hz).
  destruct (decide (ent_i y = ent_i z)) as [E|E]; [|lia].
  exfalso. apply Hny. rewrite E. by apply list_elem_of_fmap_2.
Qed.

Lemma slice0_sublist {A : Type} (e : Z) (l : list A) : slice0 e l `sublist_of` l.
Proof. apply sublist_take. Qed.

(** ** The indexed sentences *)

Lemma indexFrom_spec k sentences scores :
  length scores = length sentences ->
  map ent_i (indexFrom k sentences scores) = seq k (length sentences)
  /\ map ent_s (indexFrom k sentences scores) = sentences
  /\ map ent_score (indexFrom k sentences scores) = scores.
Proof.
  revert k scores. induction sentences as [|s ss IH]; intros k [|sc scs] H;
    simpl in *; try done.
  destruct (IH (S k) scs) as (-> & -> & ->); [lia|]. done.
Qed.

Lemma indexFrom_lookup k sentences scores t :
  length scores = length sentences ->
  t ∈ indexFrom k sentences scores ->
  (k <= ent_i t)%nat /\ sentences !! (ent_i t - k)%nat = Some (ent_s t).
Proof.
  revert k scores. induction sentences as [|s ss IH]; intros k [|sc scs] H Ht;
    simpl in *; try by apply elem_of_nil in Ht.
  apply elem_of_cons in Ht as [->|Ht]; simpl.
  - split; [lia|]. by rewrite Nat.sub_diag.
  - apply IH in Ht as [Hk Hl]; [|lia]. split; [lia|].
    replace (ent_i t - k)%nat with (S (ent_i t - S k)) by lia. done.
Qed.

Lemma scoresOf_length text : length (scoresOf text) = length (sentencesOf text).
Proof. unfold scoresOf. by rewrite length_map. Qed.

Lemma indexedOf_length text : length (indexedOf text) = length (sentencesOf text).
Proof.
  unfold indexedOf.
  rewrite <- (length_map ent_i).
  destruct (indexFrom_spec 0 (sentencesOf text) (scoresOf text)) as (-> & _);
    [apply scoresOf_length|]. by rewrite length_seq.
Qed.

Lemma rankedOf_length text : length (rankedOf text) = length (sentencesOf text).
Proof. unfold rankedOf. by rewrite js_sort_length, indexedOf_length. Qed.

Lemma topOf_perm text m : topOf text m ≡ₚ selectedOf text m.
Proof. apply js_sort_perm. Qed.

Lemma selectedOf_sublist text m : selectedOf text m `sublist_of` rankedOf text.
Proof. apply slice0_sublist. Qed.

Lemma topOf_elem text m t :
  t ∈ topOf text m -> sentencesOf text !! ent_i t = Some (ent_s t).
Proof.
  intros Ht. rewrite topOf_perm in Ht.
  apply (λ H, elem_of_sublist _ _ _ H (selectedOf_sublist text m)) in Ht.
  unfold rankedOf in Ht. rewrite js_sort_perm in Ht.
  apply indexFrom_lookup in Ht as [_ Ht]; [|apply scoresOf_length].
  by rewrite Nat.sub_0_r in Ht.
Qed.

Lemma topOf_ascending text m : StronglySorted lt (map ent_i (topOf text m)).
Proof.
  apply sorted_strict; [apply js_sort_byIndex|].
  change (NoDup (ent_i <$> topOf text m)).
  rewrite topOf_perm.
  apply (sublist_NoDup _ (ent_i <$> rankedOf text));
    [|apply fmap_sublist, selectedOf_sublist].
  unfold rankedOf. rewrite js_sort_perm. unfold indexedOf.
  destruct (indexFrom_spec 0 (sentencesOf text) (scoresOf text)) as (E & _);
    [apply scoresOf_length|].
  change (NoDup (map ent_i (indexFrom 0 (sentencesOf text) (scoresOf text)))).
  rewrite E. apply NoDup_ListNoDup, seq_NoDup.
Qed.

Lemma selectedOf_nonpositive text m :
  (m <= 0)%Z ->
  selectedOf text m
  = take (Z.to_nat (if decide (m = 0%Z) then 0%Z
                    else Z.max 0 (Z.of_nat (length (sentencesOf text)) + m)))
         (rankedOf text).
Proof.
  intros Hm. unfold selectedOf, slice0. rewrite rankedOf_length.
  set (n := Z.of_nat (length (sentencesOf text))).
  assert (0 <= n)%Z by lia.
  destruct (decide (m = 0%Z)) as [->|Hne].
  - rewrite Z.min_l by lia. simpl. by rewrite Z.min_l by lia.
  - rewrite Z.min_l by lia.
    destruct (Z.ltb_spec m 0) as [_|?]; [|lia].
    by rewrite Z.max_comm.
Qed.

Lemma selectedOf_within text k :
  (0 <= k <= Z.of_nat (length (sentencesOf text)))%Z ->
  selectedOf text k = take (Z.to_nat k) (rankedOf text).
Proof.
  intros Hk. unfold selectedOf, slice0. rewrite rankedOf_length.
  rewrite Z.min_l by lia.
  destruct (Z.ltb_spec k 0) as [?|_]; [lia|].
  by rewrite Z.min_l by lia.
Qed.

(** ** The merge of transcripts *)

(** C4. The merge of the stored transcript with an incoming fragment is the
    fragment when nothing or the empty string is stored, and otherwise the
    stored text, one newline (code unit 10) and the fragment; so merging [a]
    into nothing and then [b] gives [a], a newline and [b]. *)
Theorem mergeTranscript_spec (existing incoming a b : jsstring) :
  existing <> [] -> a <> [] -> b <> [] ->
  mergeTranscript None incoming = incoming
  /\ mergeTranscript (Some []) incoming = incoming
  /\ mergeTranscript (Some existing) incoming = existing ++ [10] ++ incoming
  /\ mergeTranscript (Some (mergeTranscript None a)) b = a ++ [10] ++ b.
Proof.
  intros He Ha Hb. repeat split.
  - by destruct existing.
  - by destruct a.
Qed.

Lemma mergeTranscript_spec_witness :
  mergeTranscript None (lit "world") = lit "world"
  /\ mergeTranscript (Some []) (lit "world") = lit "world"
  /\ mergeTranscript (Some (lit "hello")) (lit "world") = lit "hello" ++ [10] ++ lit "world"
  /\ mergeTranscript (Some (mergeTranscript None (lit "a"))) (lit "b") = lit "a" ++ [10] ++ lit "b".
Proof.
  apply (mergeTranscript_spec (lit "hello") (lit "world") (lit "a") (lit "b"));
    vm_compute; discriminate.
Defined.

(** ** Order and number of the selected sentences *)

(** C6. The summary is the join, with one space, of the trimmed sentences
    of the selected entries taken in strictly ascending order of their
    position in the list of sentences, whatever their scores are: [top] has
    the entries of the slice of the ranking (none for the empty text), each
    entry carries the sentence at its position, and its positions ascend. *)
Theorem summary_in_document_order (text : jsstring) (maxSentences : Z) :
  exists top : list entry,
    generateExtractiveSummary text maxSentences
    = join (lit " ") (map (fun t => trim (ent_s t)) top)
    /\ StronglySorted lt (map ent_i top)
    /\ Forall (fun t => sentencesOf text !! ent_i t = Some (ent_s t)) top
    /\ top ≡ₚ match text with [] => [] | _ :: _ => selectedOf text maxSentences end.
Proof.
  destruct text as [|c r].
  - exists []. repeat split; constructor.
  - exists (topOf (c :: r) maxSentences). repeat split.
    + apply topOf_ascending.
    + apply Forall_forall. intros t. apply topOf_elem.
    + apply topOf_perm.
Qed.

(** C7 as stated fails: with [maxSentences = -1] the slice drops the last
    entry of the ranking and keeps the others. *)
Lemma negative_maxSentences_counterexample :
  ~ (forall (text : jsstring) (maxSentences : Z),
       (maxSentences <= 0)%Z -> generateExtractiveSummary text maxSentences = []).
Proof.
  intros H. specialize (H (lit "Hello world. Bye.") (-1)%Z).
  vm_compute in H. by specialize (H ltac:(discriminate)).
Qed.

(** C7, amended. For [maxSentences <= 0] the summary is empty when
    [maxSentences] is 0, when the text is empty, or when the text has at most
    [- maxSentences] sentences; for a negative [maxSentences] it is the
    summary for [n + maxSentences] sentences, [n] being the number of
    sentences of the text (none when that is negative). *)
Theorem nonpositive_maxSentences (text : jsstring) (maxSentences : Z) :
  (maxSentences <= 0)%Z ->
  let n := Z.of_nat (length (sentencesOf text)) in
  (maxSentences = 0%Z \/ text = [] \/ (n <= - maxSentences)%Z ->
   generateExtractiveSummary text maxSentences = [])
  /\ ((maxSentences < 0)%Z ->
      generateExtractiveSummary text maxSentences
      = generateExtractiveSummary text (Z.max 0 (n + maxSentences))).
Proof.
  intros Hm n. destruct text as [|c r]; [by split|].
  unfold generateExtractiveSummary, topOf.
  rewrite (selectedOf_nonpositive _ _ Hm). fold n. split.
  - intros [->|[?|Hn]]; [done|done|].
    destruct (decide (maxSentences = 0%Z)); [done|].
    by rewrite Z.max_l by lia.
  - intros Hneg. destruct (decide (maxSentences = 0%Z)); [lia|].
    rewrite selectedOf_within; [done|]. fold n. lia.
Qed.

Lemma nonpositive_maxSentences_witness :
  generateExtractiveSummary (lit "Hello world. Bye.") (-2) = []
  /\ generateExtractiveSummary (lit "Hello world. Bye.") (-1)
     = generateExtractiveSummary (lit "Hello world. Bye.") 1.
Proof.
  destruct (nonpositive_maxSentences (lit "Hello world. Bye.") (-2)) as [H2 _];
    [vm_compute; discriminate|].
  destruct (nonpositive_maxSentences (lit "Hello world. Bye.") (-1)) as [_ H1];
    [vm_compute; discriminate|].
  split.
  - apply H2. right. right. vm_compute. discriminate.
  - apply H1. reflexivity.
Defined.

(** ** The segmentation into sentences *)

Lemma sentenceRe_Some str hit rest :
  sentenceRe str = Some (hit, rest) ->
  str = hit ++ rest /\ sentenceShape hit
  /\ match rest with [] => True | c :: _ => isTerminator c = false end.
Proof.
  unfold sentenceRe.
  pose proof (span_spec (fun c => negb (isTerminator c)) str) as (E1 & F1 & _).
  destruct (span (fun c => negb (isTerminator c)) str) as [body rest1]; simpl in *.
  destruct body as [|b body]; [done|].
  pose proof (span_spec isTerminator rest1) as (E2 & F2 & H2).
  destruct (span isTerminator rest1) as [marks rest2]; simpl in *.
  destruct marks as [|m marks]; [done|].
  intros [= <- <-]. split; [|split].
  - rewrite E1, E2. simpl. f_equal. by rewrite <- app_assoc.
  - by exists (b :: body), (m :: marks).
  - exact H2.
Qed.

Lemma sentenceRe_None str :
  sentenceRe str = None ->
  match str with
  | [] => True
  | c :: _ => isTerminator c = true \/ existsb isTerminator str = false
  end.
Proof.
  unfold sentenceRe.
  pose proof (span_spec (fun c => negb (isTerminator c)) str) as (E1 & F1 & H1).
  destruct (span (fun c => negb (isTerminator c)) str) as [body rest1]; simpl in *.
  destruct body as [|b body].
  - intros _. simpl in E1. subst rest1. destruct str as [|c r]; [done|].
    left. by apply negb_false_iff.
  - pose proof (span_spec isTerminator rest1) as (E2 & F2 & H2).
    destruct (span isTerminator rest1) as [marks rest2]; simpl in *.
    destruct marks as [|m marks]; [|done]. intros _.
    simpl in E2. subst rest2.
    destruct rest1 as [|c1 r1].
    + rewrite app_nil_r in E1. subst str. right.
      apply not_true_iff_false. intros Hex.
      apply existsb_exists in Hex as (x & Hx & Hterm).
      change (forallb (fun c => negb (isTerminator c)) (b :: body) = true) in F1.
      rewrite forallb_forall in F1. specialize (F1 x Hx).
      by rewrite Hterm in F1.
    + apply negb_false_iff in H1. congruence.
Qed.

Lemma sentenceShape_terminator hit : sentenceShape hit -> existsb isTerminator hit = true.
Proof.
  intros (body & marks & -> & _ & Hm & _ & Fm).
  rewrite existsb_app. destruct marks as [|m marks]; [done|].
  simpl in *. apply andb_true_iff in Fm as [-> _]. simpl. apply orb_true_r.
Qed.

Lemma sentenceShape_ink hit : sentenceShape hit -> hasInk hit = true.
Proof.
  intros H. apply sentenceShape_terminator, existsb_exists in H as (x & Hx & Hterm).
  apply existsb_exists. exists x. split; [done|].
  by rewrite (isTerminator_not_ws _ Hterm).
Qed.

Lemma afterLast_none str :
  existsb isTerminator str = false -> afterLastTerminator str = str.
Proof.
  destruct str as [|c r]; simpl; [done|].
  intros H. apply orb_false_iff in H as [Hc Hr]. by rewrite Hr, Hc.
Qed.

Lemma afterLast_app_r a b :
  existsb isTerminator b = true ->
  afterLastTerminator (a ++ b) = afterLastTerminator b.
Proof.
  intros Hb. induction a as [|c r IH]; simpl; [done|].
  by rewrite existsb_app, Hb, orb_true_r.
Qed.

Lemma afterLast_app_l a b :
  existsb isTerminator b = false ->
  afterLastTerminator (a ++ b) = afterLastTerminator a ++ b.
Proof.
  intros Hb. induction a as [|c r IH]; simpl; [by apply afterLast_none|].
  rewrite existsb_app, Hb, orb_false_r.
  destruct (existsb isTerminator r); [done|].
  by destruct (isTerminator c).
Qed.

Lemma afterLast_marks marks :
  forallb isTerminator marks = true -> afterLastTerminator marks = [].
Proof.
  induction marks as [|m r IH]; simpl; [done|].
  intros H. apply andb_true_iff in H as [Hm Hr]. rewrite Hm.
  destruct (existsb isTerminator r) eqn:Hex; [by apply IH|].
  destruct r as [|m' r']; [done|].
  simpl in Hex, Hr. apply andb_true_iff in Hr as [Hm' _].
  rewrite Hm' in Hex. discriminate.
Qed.

Lemma afterLast_shape hit : sentenceShape hit -> afterLastTerminator hit = [].
Proof.
  intros (body & marks & -> & _ & Hm & _ & Fm).
  rewrite afterLast_app_r; [by apply afterLast_marks|].
  destruct marks as [|m marks]; [done|]. simpl in *.
  by apply andb_true_iff in Fm as [-> _].
Qed.

(** What the global match of the sentence pattern returns: every match has
    the shape of a sentence; with no match, no terminator comes after a
    non-terminator; otherwise the string is a run of terminators, the matches
    one after the other, and what follows the last terminator. *)
Lemma matchAll_sentenceRe fuel str :
  (length str < fuel)%nat ->
  let hits := matchAll sentenceRe fuel str in
  Forall sentenceShape hits
  /\ match hits with
     | [] => hasSentence str = false
     | _ :: _ =>
         existsb isTerminator str = true
         /\ exists lead,
              forallb isTerminator lead = true
              /\ str = lead ++ concat hits ++ afterLastTerminator str
     end.
Proof.
  revert str. induction fuel as [|fuel IH]; intros str Hlen; [lia|].
  cbn [matchAll]. destruct (sentenceRe str) as [[hit rest]|] eqn:Hre.
  - apply sentenceRe_Some in Hre as (-> & Hshape & Hrest).
    assert (hit <> []) as Hne.
    { destruct Hshape as (body & marks & -> & Hb & _). by destruct body. }
    destruct (IH rest) as [Hall Hdec].
    { rewrite length_app in Hlen. destruct hit; [done|]. simpl in Hlen. lia. }
    cbn zeta. split; [by constructor|]. split.
    { by rewrite existsb_app, (sentenceShape_terminator _ Hshape). }
    exists []. split; [done|]. simpl.
    destruct (matchAll sentenceRe fuel rest) as [|h hs] eqn:Hhits.
    + unfold hasSentence in Hdec. rewrite dropWhile_id in Hdec.
      * rewrite afterLast_app_l, (afterLast_shape _ Hshape) by done.
        simpl. by rewrite app_nil_r.
      * destruct rest; [done|]. exact Hrest.
    + destruct Hdec as (Hex & lead & Hlead & Hdec).
      rewrite afterLast_app_r by done.
      destruct lead as [|l lead].
      * simpl in Hdec. rewrite <- app_assoc. by f_equal.
      * exfalso. destruct rest as [|r0 rest]; [done|].
        injection Hdec as -> _. simpl in Hlead.
        apply andb_true_iff in Hlead as [Hl _]. congruence.
  - apply sentenceRe_None in Hre.
    destruct str as [|c r]; [by split|].
    destruct (IH r) as [Hall Hdec]; [simpl in Hlen; lia|].
    cbn zeta. split; [exact Hall|].
    destruct (matchAll sentenceRe fuel r) as [|h hs] eqn:Hhits.
    + destruct Hre as [Hc|Hno].
      * unfold hasSentence in *. simpl. by rewrite Hc.
      * unfold hasSentence.
        destruct (dropWhile_suffix isTerminator (c :: r)) as [pre E].
        rewrite E, existsb_app in Hno. by apply orb_false_iff in Hno as [_ ?].
    + destruct Hdec as (Hex & lead & Hlead & Hdec).
      destruct Hre as [Hc|Hno].
      * split; [simpl; by rewrite Hex, orb_true_r|].
        exists (c :: lead). split; [simpl; by rewrite Hc|].
        simpl. rewrite Hex. by f_equal.
      * simpl in Hno. apply orb_false_iff in Hno as [_ Hno]. congruence.
Qed.

Lemma sentencesOf_nonempty text : sentencesOf text <> [].
Proof.
  unfold sentencesOf, String_match.
  by destruct (matchAll sentenceRe (S (length (replaceWs text))) (replaceWs text)).
Qed.

(** The sentences of a text with a sentence in it are the matches of the
    pattern. *)
Lemma sentencesOf_matches text :
  hasSentence (replaceWs text) = true ->
  sentencesOf text
  = matchAll sentenceRe (S (length (replaceWs text))) (replaceWs text)
  /\ sentencesOf text <> [].
Proof.
  intros H. unfold sentencesOf, String_match.
  pose proof (matchAll_sentenceRe (S (length (replaceWs text))) (replaceWs text)
                ltac:(lia)) as [_ Hdec].
  destruct (matchAll sentenceRe (S (length (replaceWs text))) (replaceWs text));
    [congruence|done].
Qed.

Lemma sentencesOf_ink text :
  hasInk text = true -> Forall (fun s => hasInk s = true) (sentencesOf text).
Proof.
  intros Htext. unfold sentencesOf, String_match.
  pose proof (matchAll_sentenceRe (S (length (replaceWs text))) (replaceWs text)
                ltac:(lia)) as [Hall _].
  destruct (matchAll sentenceRe (S (length (replaceWs text))) (replaceWs text)).
  - by repeat constructor.
  - eapply Forall_impl; [exact Hall|]. apply sentenceShape_ink.
Qed.

(** The summary is built from sentences of the text, one per position. *)
Lemma summary_of_sentences text m :
  exists top : list entry,
    generateExtractiveSummary text m = join (lit " ") (map (fun t => trim (ent_s t)) top)
    /\ Forall (fun t => sentencesOf text !! ent_i t = Some (ent_s t)) top.
Proof.
  destruct text as [|c r].
  - exists []. by split.
  - exists (topOf (c :: r) m). split; [done|].
    apply Forall_forall. intros t. apply topOf_elem.
Qed.

(** With at least one sentence asked for, a text that is not blank has a
    summary that is not empty. *)
Lemma summary_nonempty text m :
  (1 <= m)%Z -> hasInk text = true -> generateExtractiveSummary text m <> [].
Proof.
  intros Hm Hink. destruct text as [|c r]; [done|].
  unfold generateExtractiveSummary. apply join_nonempty.
  - intros E. apply (f_equal length) in E. rewrite length_map in E.
    unfold topOf in E. rewrite js_sort_length in E.
    unfold selectedOf, slice0 in E. rewrite rankedOf_length in E.
    pose proof (sentencesOf_nonempty (c :: r)) as Hne.
    destruct (sentencesOf (c :: r)) as [|s ss] eqn:Es; [done|].
    rewrite length_take, rankedOf_length, Es in E. simpl length in E.
    destruct (Z.ltb_spec (Z.min m (Z.of_nat (S (length ss)))) 0); simpl in E; lia.
  - apply Forall_forall. intros x Hx.
    apply list_elem_of_fmap in Hx as (t & -> & Ht).
    apply trim_nonempty. apply topOf_elem in Ht.
    pose proof (sentencesOf_ink _ Hink) as Hall.
    rewrite Forall_forall in Hall. apply Hall.
    by eapply list_elem_of_lookup_2.
Qed.

(** C10 as stated fails: in ".abc" a terminator occurs, the pattern finds
    no sentence, and the whole text, "abc" included, is the one sentence and
    the summary. *)
Lemma leading_terminator_counterexample :
  ~ (forall text : jsstring,
       existsb isTerminator (replaceWs text) = true ->
       exists lead,
         replaceWs text
         = lead ++ concat (sentencesOf text) ++ afterLastTerminator (replaceWs text))
  /\ afterLastTerminator (replaceWs (lit ".abc")) = lit "abc"
  /\ generateExtractiveSummary (lit ".abc") 5 = lit ".abc".
Proof.
  split; [|by vm_compute].
  intros H. destruct (H (lit ".abc")) as [lead E]; [by vm_compute|].
  replace (replaceWs (lit ".abc")) with [46; 97; 98; 99] in E by (by vm_compute).
  replace (concat (sentencesOf (lit ".abc"))) with [46; 97; 98; 99] in E
    by (by vm_compute).
  apply (f_equal length) in E. rewrite !length_app in E. simpl in E. lia.
Qed.

(** C10, amended. When in the collapsed text some terminator comes after a
    non-terminator, the collapsed text is a run of terminators, then the
    sentences one after the other, then the characters after the last
    terminator; every sentence ends in a terminator, and the summary, for every
    [maxSentences], is made of trimmed sentences only. *)
Theorem trailing_text_excluded (text : jsstring) (maxSentences : Z) :
  hasSentence (replaceWs text) = true ->
  (exists lead,
     forallb isTerminator lead = true
     /\ replaceWs text
        = lead ++ concat (sentencesOf text) ++ afterLastTerminator (replaceWs text))
  /\ Forall sentenceShape (sentencesOf text)
  /\ exists top : list entry,
       generateExtractiveSummary text maxSentences
       = join (lit " ") (map (fun t => trim (ent_s t)) top)
       /\ Forall (fun t => sentencesOf text !! ent_i t = Some (ent_s t)) top.
Proof.
  intros H. destruct (sentencesOf_matches _ H) as [E Hne].
  pose proof (matchAll_sentenceRe (S (length (replaceWs text))) (replaceWs text)
                ltac:(lia)) as [Hall Hdec].
  cbn zeta in Hdec, Hall. rewrite <- E in Hdec, Hall.
  split; [|split; [exact Hall|apply summary_of_sentences]].
  destruct (sentencesOf text); [done|]. by destruct Hdec as [_ ?].
Qed.

Lemma trailing_text_excluded_witness :
  exists lead,
    forallb isTerminator lead = true
    /\ replaceWs (lit "..abc. def!? ghi")
       = lead ++ concat (sentencesOf (lit "..abc. def!? ghi"))
              ++ afterLastTerminator (replaceWs (lit "..abc. def!? ghi")).
Proof.
  apply (trailing_text_excluded (lit "..abc. def!? ghi") 5). by vm_compute.
Defined.

(** ** Scores *)

Lemma countOf_snoc ws x w :
  countOf (ws ++ [x]) w
  = (countOf ws w + (if decide ((x ∉ stop) /\ x = w) then 1 else 0))%nat.
Proof.
  unfold countOf. rewrite filter_app, filter_app, length_app. f_equal.
  rewrite filter_cons, filter_nil.
  destruct (decide (x ∉ stop)) as [Hs|Hs].
  - rewrite filter_cons, filter_nil.
    destruct (decide (x = w)) as [E|E];
      destruct (decide ((x ∉ stop) /\ x = w)) as [[_ E']|Hn]; try done.
    exfalso. by apply Hn.
  - rewrite filter_nil.
    by destruct (decide ((x ∉ stop) /\ x = w)) as [[Hs' _]|_].
Qed.

Lemma fold_freqStep ws :
  forall (freq : gmap jsstring numOrStr) (seen : list jsstring),
    lit "constructor" ∉ ws ->
    (forall w, freq !! w
               = if decide (countOf seen w = 0%nat) then None
                 else Some (Num (N.of_nat (countOf seen w)))) ->
    forall w, fold_left freqStep ws freq !! w
              = if decide (countOf (seen ++ ws) w = 0%nat) then None
                else Some (Num (N.of_nat (countOf (seen ++ ws) w))).
Proof.
  induction ws as [|x ws IH]; intros freq seen Hc Hfreq w; simpl.
  - by rewrite app_nil_r.
  - apply not_elem_of_cons in Hc as [Hx Hc].
    replace (seen ++ x :: ws) with ((seen ++ [x]) ++ ws) by (by rewrite <- app_assoc).
    apply IH; [done|]. clear w. intros w.
    rewrite countOf_snoc. unfold freqStep.
    destruct (decide (x ∈ stop)) as [Hs|Hs].
    + destruct (decide ((x ∉ stop) /\ x = w)) as [[Hs' _]|_]; [done|].
      rewrite Nat.add_0_r. apply Hfreq.
    + destruct (decide ((x ∉ stop) /\ x = w)) as [[_ ->]|Hn].
      * rewrite lookup_insert_eq.
        destruct (decide ((countOf seen w + 1)%nat = 0%nat)); [lia|]. f_equal.
        unfold freq_get. rewrite Hfreq.
        destruct (decide (countOf seen w = 0%nat)) as [E|E].
        -- rewrite decide_False by done. by rewrite E.
        -- simpl. f_equal. lia.
      * rewrite Nat.add_0_r. rewrite lookup_insert_ne; [apply Hfreq|].
        intros ->. by apply Hn.
Qed.

Lemma buildFreq_lookup ws w :
  lit "constructor" ∉ ws ->
  buildFreq ws !! w
  = if decide (countOf ws w = 0%nat) then None
    else Some (Num (N.of_nat (countOf ws w))).
Proof.
  intros Hc. apply (fold_freqStep ws ∅ [] Hc). intros w'. by rewrite lookup_empty.
Qed.

(** A stopword never gets an entry in the table. *)
Lemma buildFreq_stop ws w : w ∈ stop -> buildFreq ws !! w = None.
Proof.
  intros Hw. unfold buildFreq.
  assert (forall freq : gmap jsstring numOrStr,
            freq !! w = None -> fold_left freqStep ws freq !! w = None) as H.
  { induction ws as [|x ws IH]; intros freq Hf; simpl; [done|].
    apply IH. unfold freqStep. destruct (decide (x ∈ stop)); [done|].
    rewrite lookup_insert_ne; [done|]. by intros ->. }
  apply H, lookup_empty.
Qed.

Lemma constructor_not_stop : lit "constructor" ∉ stop.
Proof. by vm_compute. Qed.

Lemma fold_score (freq : gmap jsstring numOrStr) (count : jsstring -> nat) sw :
  Forall (fun w => orZero (freq_get freq w) = Num (N.of_nat (count w))) sw ->
  forall acc : nat,
    fold_left (fun score w => plus score (orZero (freq_get freq w))) sw (Num (N.of_nat acc))
    = Num (N.of_nat (acc + foldr (fun w a => (count w + a)%nat) 0%nat sw)).
Proof.
  induction 1 as [|w sw Hw _ IH]; intros acc; simpl.
  - by rewrite Nat.add_0_r.
  - rewrite Hw. simpl. rewrite <- Nat2N.inj_add, IH. do 2 f_equal. lia.
Qed.

(** Where the word [constructor] occurs neither in the text nor in the
    sentence, the score is the one of the specification. *)
Lemma scoreOf_spec text sentence :
  lit "constructor" ∉ wordsOf text ->
  lit "constructor" ∉ wordsOf sentence ->
  scoreOf (buildFreq (wordsOf text)) sentence = Fin (specScore text sentence).
Proof.
  intros Ht Hs. unfold scoreOf, specScore.
  rewrite (fold_score _ (contentCount text) _ ) with (acc := 0%nat).
  - simpl. by rewrite nat_N_Z.
  - apply Forall_forall. intros w Hw. unfold freq_get.
    rewrite buildFreq_lookup by done. fold (contentCount text w).
    destruct (decide (contentCount text w = 0%nat)) as [E|E]; [|done].
    rewrite decide_False; [by rewrite E|]. by intros ->.
Qed.

(** A sentence made of stopwords only scores 0, in every text. *)
Lemma stopword_sentence_scores_zero (ws : list jsstring) sentence :
  Forall (fun w => w ∈ stop) (wordsOf sentence) ->
  scoreOf (buildFreq ws) sentence
  = Fin (0 # Pos.of_nat (Nat.max 5 (length (wordsOf sentence)))).
Proof.
  intros Hall. unfold scoreOf.
  rewrite (fold_score _ (fun _ => 0%nat) _) with (acc := 0%nat).
  - simpl. do 2 f_equal. clear Hall.
    induction (wordsOf sentence) as [|w sw IH]; simpl; [done|]. exact IH.
  - eapply Forall_impl; [exact Hall|]. intros w Hw. unfold freq_get.
    rewrite buildFreq_stop by done.
    rewrite decide_False; [done|].
    intros ->. by apply constructor_not_stop.
Qed.

(** The entry of [constructor] in the table is never a number. *)
Lemma buildFreq_constructor ws :
  orZero (freq_get (buildFreq ws) (lit "constructor")) = Str
  \/ buildFreq ws !! lit "constructor" = None.
Proof.
  unfold buildFreq.
  assert (forall freq : gmap jsstring numOrStr,
            freq !! lit "constructor" = None \/ freq !! lit "constructor" = Some Str ->
            fold_left freqStep ws freq !! lit "constructor" = None
            \/ fold_left freqStep ws freq !! lit "constructor" = Some Str) as H.
  { induction ws as [|x ws IH]; intros freq Hf; simpl; [done|].
    apply IH. unfold freqStep. destruct (decide (x ∈ stop)); [done|].
    destruct (decide (x = lit "constructor")) as [->|Hne].
    - right. rewrite lookup_insert_eq. f_equal. unfold freq_get.
      destruct Hf as [-> | ->]; [|done]. by rewrite decide_True.
    - by rewrite lookup_insert_ne. }
  destruct (H ∅) as [E|E]; [left; apply lookup_empty|by right|].
  left. unfold freq_get. by rewrite E.
Qed.

Lemma fold_score_Str (freq : gmap jsstring numOrStr) sw :
  fold_left (fun score w => plus score (orZero (freq_get freq w))) sw Str = Str.
Proof. induction sw as [|w sw IH]; simpl; [done|]. exact IH. Qed.

(** A sentence with the word [constructor] has the score NaN, whatever the
    text is. *)
Lemma constructor_sentence_scores_NaN ws sentence :
  lit "constructor" ∈ wordsOf sentence ->
  scoreOf (buildFreq ws) sentence = NaN.
Proof.
  intros Hin. unfold scoreOf.
  assert (orZero (freq_get (buildFreq ws) (lit "constructor")) = Str) as Hc.
  { destruct (buildFreq_constructor ws) as [E|E]; [done|].
    unfold freq_get. rewrite E. by rewrite decide_True. }
  apply list_elem_of_split in Hin as (pre & post & ->).
  rewrite fold_left_app. simpl. rewrite Hc.
  replace (plus _ Str) with Str by (by destruct (fold_left _ pre (Num 0))).
  by rewrite fold_score_Str.
Qed.

(** C5 fails on the code for a text with the word [constructor]: the
    frequency table is an object literal, so reading [freq["constructor"]]
    gives the inherited function, [+ 1] makes a string of it, and the score
    of the sentence is NaN, where the specification gives 1/5. The summary of
    one sentence then keeps "Filler words." although the other sentence has
    the higher specified score. *)
Theorem constructor_score_is_NaN :
  sentencesOf (lit "Constructor.") = [lit "Constructor."]
  /\ scoresOf (lit "Constructor.") = [NaN]
  /\ specScore (lit "Constructor.") (lit "Constructor.") = (1 # 5)%Q
  /\ scoresOf (lit "Filler words. Constructor constructor constructor.")
     = [Fin (2 # 5); NaN]
  /\ specScore (lit "Filler words. Constructor constructor constructor.")
               (lit " Constructor constructor constructor.") = (9 # 5)%Q
  /\ generateExtractiveSummary
       (lit "Filler words. Constructor constructor constructor.") 1
     = lit "Filler words.".
Proof. by vm_compute. Qed.

(** ** The remote summariser *)

(** C3. The remote summariser returns for every environment and every
    transcript, and never by an exception; it returns [null] when the
    credential is absent, the request fails, the response is not a success,
    the body does not parse or carries no text, or the text is blank; a
    summary that it returns is not empty and is its own trim. *)
Theorem summarizeWithGemini_fail_safe (e : env) (transcript : jsstring) :
  exists r : option jsstring,
    summarizeWithGemini e transcript = Normal r
    /\ (unavailable e transcript -> r = None)
    /\ (forall s, r = Some s -> s <> [] /\ trim s = s).
Proof.
  unfold summarizeWithGemini, summarizeWithGemini_try, tryCatch.
  destruct (GEMINI_API_KEY e) as [[|k key]|] eqn:Hkey.
  1, 3: exists None; split; [done|]; by split.
  destruct (fetch e (endpoint (k :: key)) (preamble ++ inputOf transcript))
    as [|[] [data|]] eqn:Hfetch.
  1, 3, 4, 5: exists None; split; [done|]; by split.
  destruct (textOf data) as [[| | |str| |]|] eqn:Htext.
  1, 2, 3, 5, 6, 7: exists None; split; [done|]; by split.
  destruct (decide (0 < length (trim str))%nat) as [Hlen|Hlen].
  - exists (Some (trim str)). split; [done|]. split.
    + intros [[Hk|Hk]|apiKey Hk Hno]; [congruence|congruence|].
      rewrite Hkey in Hk. injection Hk as <-.
      rewrite Hfetch, Htext in Hno. rewrite Hno in Hlen. simpl in Hlen. lia.
    + intros s [= <-]. split; [|apply trim_idempotent].
      intros E. rewrite E in Hlen. simpl in Hlen. lia.
  - exists None. split; [done|]. by split.
Qed.

Lemma summarizeWithGemini_normal e transcript :
  exists r : option jsstring,
    summarizeWithGemini e transcript = Normal r /\ r <> Some [].
Proof.
  unfold summarizeWithGemini, summarizeWithGemini_try, tryCatch.
  destruct (GEMINI_API_KEY e) as [[|k key]|]; try by exists None.
  destruct (fetch e (endpoint (k :: key)) (preamble ++ inputOf transcript))
    as [|[] [data|]]; try by exists None.
  destruct (textOf data) as [[| | |str| |]|]; try by exists None.
  destruct (decide (0 < length (trim str))%nat) as [Hlen|Hlen]; [|by exists None].
  exists (Some (trim str)). split; [done|].
  intros [= E]. rewrite E in Hlen. simpl in Hlen. lia.
Qed.

(** ** The handlers *)

Lemma storeUp_tail w failed rest :
  failures w = failed :: rest ->
  storeUp w ->
  failed = false
  /\ storeUp {| sessions := sessions w; groups := groups w;
                failures := rest; trace := trace w |}.
Proof.
  unfold storeUp. intros -> H. simpl. by apply Forall_cons in H.
Qed.

(** A read of the store changes nothing but the pending failures, and
    throws only when the store fails. *)
Lemma read_spec {A : Type} (f : World -> A) w c w' :
  dbCall (fun w0 => (Normal (f w0), w0)) w = (c, w') ->
  sessions w' = sessions w /\ groups w' = groups w /\ trace w' = trace w
  /\ (storeUp w -> storeUp w')
  /\ ((c = Throw /\ ~ storeUp w) \/ c = Normal (f w')).
Proof.
  unfold dbCall. destruct (failures w) as [|failed rest] eqn:Hf.
  - intros [= <- <-]. repeat split; auto.
  - pose proof (storeUp_tail w failed rest Hf) as Hup.
    destruct failed; intros [= <- <-]; simpl; repeat split; try tauto.
    left. split; [done|]. intros H. by destruct (Hup H).
Qed.

(** A write either throws, leaving the records as they are, or replaces the
    record and adds the event. *)
Lemma session_update_spec sid data w c w' :
  session_update sid data w = (c, w') ->
  groups w' = groups w
  /\ (storeUp w -> storeUp w')
  /\ ((c = Throw /\ sessions w' = sessions w /\ trace w' = trace w
       /\ (~ storeUp w \/ sessions w !! sid = None))
      \/ exists old,
           sessions w !! sid = Some old /\ c = Normal tt
           /\ sessions w' = <[sid := data old]> (sessions w)
           /\ trace w' = trace w ++ [Updated sid (data old)]).
Proof.
  unfold session_update, dbCall. destruct (failures w) as [|failed rest] eqn:Hf.
  - destruct (sessions w !! sid) as [old|] eqn:Hold; intros [= <- <-]; simpl.
    + repeat split; [by unfold storeUp; simpl; rewrite Hf|]. right. by exists old.
    + repeat split; auto. left. repeat split; auto.
  - pose proof (storeUp_tail w failed rest Hf) as Hup.
    destruct failed; simpl.
    + intros [= <- <-]; simpl. repeat split; try tauto.
      left. repeat split; auto. left. intros H. by destruct (Hup H).
    + destruct (sessions w !! sid) as [old|] eqn:Hold; intros [= <- <-]; simpl.
      * repeat split; [tauto|]. right. by exists old.
      * repeat split; tauto.
Qed.

(** Every run of [uploadTranscript]: it is rejected or fails before the
    first write; or both writes happen and the summary is returned; or the
    first write happens and the second fails. *)
Lemma uploadTranscript_run e req w :
  let sid := params_sessionId req in
  let c := (uploadTranscript e req w).1 in
  let w' := (uploadTranscript e req w).2 in
  groups w' = groups w
  /\ ((trace w' = trace w /\ sessions w' = sessions w
       /\ (~ storeUp w \/ user req = None \/ bodySchema_safeParse (body req) = None
           \/ forall session, ~ authorized req w session))
      \/ exists session fragment lang llm,
           sessions w !! sid = Some session
           /\ bodySchema_safeParse (body req) = Some (fragment, lang)
           /\ summarizeWithGemini e (mergeTranscript (transcript session) fragment)
              = Normal llm
           /\ llm <> Some []
           /\ let merged := mergeTranscript (transcript session) fragment in
              let pending := markPending merged lang session in
              let text := orExtractive llm merged in
              let completed := markCompleted text pending in
              (~ storeUp w
               /\ trace w' = trace w ++ [Updated sid pending; Summarizing merged]
               /\ sessions w' = <[sid := pending]> (sessions w))
              \/ (c = Normal (saved text)
                  /\ trace w' = trace w ++ [Updated sid pending; Summarizing merged;
                                             Updated sid completed]
                  /\ sessions w' = <[sid := completed]> (<[sid := pending]> (sessions w)))).
Proof.
  cbn zeta. unfold uploadTranscript, tryCatchM, bind, ret.
  destruct (user req) as [u|] eqn:Hu; simpl; [|split; [done|]; left; tauto].
  destruct (bodySchema_safeParse (body req)) as [[fragment lang]|] eqn:Hparse;
    simpl; [|split; [done|]; left; tauto].
  destruct (session_findUnique (params_sessionId req) w) as [c1 w1] eqn:E1.
  apply read_spec in E1 as (S1 & G1 & T1 & U1 & [[-> Hdown] | ->]); simpl.
  { split; [done|]. left. tauto. }
  rewrite S1.
  destruct (sessions w !! params_sessionId req) as [session|] eqn:Hsession; simpl.
  2: { split; [done|]. left. repeat split; try done. do 3 right.
       intros session (u' & members & _ & Hs & _). congruence. }
  destruct (group_findFirst (groupId session) (id u) w1) as [c2 w2] eqn:E2.
  apply read_spec in E2 as (S2 & G2 & T2 & U2 & [[-> Hdown] | ->]); simpl.
  { split; [congruence|]. left. repeat split; try congruence. tauto. }
  rewrite G2, G1.
  destruct (groups w !! groupId session) as [members|] eqn:Hgroup; simpl.
  2: { split; [congruence|]. left. repeat split; try congruence. do 3 right.
       intros session' (u' & members & _ & Hs & Hg & _). congruence. }
  destruct (decide (id u ∈ members)) as [Hin|Hout]; simpl.
  2: { split; [congruence|]. left. repeat split; try congruence. do 3 right.
       intros session' (u' & members' & Hu' & Hs & Hg & Hin'). congruence. }
  set (merged := mergeTranscript (transcript session) fragment).
  destruct (session_update (params_sessionId req) (markPending merged lang) w2)
    as [c3 w3] eqn:E3.
  apply session_update_spec in E3
    as (G3 & U3 & [(-> & S3 & T3 & Hwhy)|(old & Hold & -> & S3 & T3)]); simpl.
  { split; [congruence|]. left. repeat split; try congruence.
    destruct Hwhy as [Hdown|Hnone]; [tauto|]. congruence. }
  assert (old = session) as -> by congruence.
  destruct (summarizeWithGemini_normal e merged) as (llm & Hllm & Hne).
  unfold liftC. rewrite Hllm.
  set (text := orExtractive llm merged).
  match goal with
  | |- context [session_update ?i ?d ?w0] =>
      destruct (session_update i d w0) as [c5 w5] eqn:E5
  end.
  apply session_update_spec in E5
    as (G5 & U5 & [(-> & S5 & T5 & Hwhy)|(old & Hold5 & -> & S5 & T5)]);
    simpl in *.
  - split; [congruence|]. right. exists session, fragment, lang, llm.
    repeat split; try done. left. repeat split.
    + destruct Hwhy as [Hdown|Hnone].
      * intros Hup. apply Hdown. unfold storeUp in *. simpl. tauto.
      * rewrite S3, S2, S1, lookup_insert_eq in Hnone. done.
    + rewrite T5, T3, T2, T1. by rewrite <- app_assoc.
    + rewrite S5, S3, S2, S1. done.
  - split; [congruence|]. right. exists session, fragment, lang, llm.
    repeat split; try done. right.
    rewrite S3, S2, S1, lookup_insert_eq in Hold5. injection Hold5 as <-.
    repeat split.
    + rewrite T5, T3, T2, T1. by rewrite <- !app_assoc.
    + rewrite S5, S3, S2, S1. done.
Qed.

(** An accepted submission while the store works: both writes happen and
    the summary is returned. *)
Lemma uploadTranscript_accepted e req w session fragment lang :
  authorized req w session ->
  bodySchema_safeParse (body req) = Some (fragment, lang) ->
  storeUp w ->
  let sid := params_sessionId req in
  let merged := mergeTranscript (transcript session) fragment in
  let pending := markPending merged lang session in
  exists llm,
    summarizeWithGemini e merged = Normal llm
    /\ llm <> Some []
    /\ let completed := markCompleted (orExtractive llm merged) pending in
       let w' := (uploadTranscript e req w).2 in
       (uploadTranscript e req w).1 = Normal (saved (orExtractive llm merged))
       /\ trace w' = trace w ++ [Updated sid pending; Summarizing merged;
                                  Updated sid completed]
       /\ sessions w' = <[sid := completed]> (<[sid := pending]> (sessions w))
       /\ groups w' = groups w.
Proof.
  intros Hauth Hparse Hup. cbn zeta.
  destruct (uploadTranscript_run e req w) as [Hg [(_ & _ & Hwhy)|Hrun]].
  - exfalso. destruct Hauth as (u & members & Hu & Hrest).
    destruct Hwhy as [?|[?|[?|Hno]]]; try congruence.
    apply (Hno session). by exists u, members.
  - destruct Hrun as (session' & fragment' & lang' & llm & Hs & Hp & Hllm & Hne & Hcases).
    destruct Hauth as (u & members & Hu & Hs' & _).
    assert (session' = session) as -> by congruence.
    assert (fragment' = fragment /\ lang' = lang) as [-> ->]
      by (split; congruence).
    exists llm. split; [done|]. split; [done|]. cbn zeta in Hcases.
    destruct Hcases as [[Hdown _]|(Hc & Ht & Hss)]; [done|]. done.
Qed.

Lemma authorized_after e req req' w session stored :
  authorized req' w session ->
  sessions (uploadTranscript e req w).2 !! params_sessionId req' = Some stored ->
  groupId stored = groupId session ->
  authorized req' (uploadTranscript e req w).2 stored.
Proof.
  intros (u & members & Hu & _ & Hg & Hin) Hs Hgid.
  exists u, members. repeat split; try done.
  destruct (uploadTranscript_run e req w) as [-> _]. by rewrite Hgid.
Qed.

Lemma storeUp_after e req w : storeUp w -> storeUp (uploadTranscript e req w).2.
Proof.
  unfold uploadTranscript, tryCatchM, bind, ret, liftC, emit.
  intros Hup.
  destruct (user req) as [u|]; simpl; [|done].
  destruct (bodySchema_safeParse (body req)) as [[fragment lang]|]; simpl; [|done].
  destruct (session_findUnique (params_sessionId req) w) as [c1 w1] eqn:E1.
  apply read_spec in E1 as (_ & _ & _ & U1 & [[-> _] | ->]); simpl; [auto|].
  destruct (sessions w1 !! params_sessionId req) as [session|]; simpl; [|auto].
  destruct (group_findFirst (groupId session) (id u) w1) as [c2 w2] eqn:E2.
  apply read_spec in E2 as (_ & _ & _ & U2 & [[-> _] | ->]); simpl; [auto|].
  destruct (groups w2 !! groupId session) as [members|]; simpl; [|auto].
  destruct (decide (id u ∈ members)); simpl; [|auto].
  match goal with
  | |- context [session_update ?i ?d ?w0] =>
      destruct (session_update i d w0) as [c3 w3] eqn:E3
  end.
  apply session_update_spec in E3 as (_ & U3 & _).
  destruct c3; simpl; [|auto].
  destruct (summarizeWithGemini e _); simpl; [|unfold storeUp in *; simpl; auto].
  match goal with
  | |- context [session_update ?i ?d ?w0] =>
      destruct (session_update i d w0) as [c5 w5] eqn:E5
  end.
  apply session_update_spec in E5 as (_ & U5 & _).
  assert (storeUp w5) by (apply U5; unfold storeUp in *; simpl; auto).
  by destruct c5.
Qed.

(** ** The orchestration *)

(** C1. When the remote summariser returns [null] for the merged
    transcript, an accepted submission answers with the extractive summary of
    the merged transcript for five sentences, and that summary is what the
    session record holds afterwards. *)
Theorem fallback_summary_persisted e req w session fragment lang :
  authorized req w session ->
  bodySchema_safeParse (body req) = Some (fragment, lang) ->
  storeUp w ->
  summarizeWithGemini e (mergeTranscript (transcript session) fragment) = Normal None ->
  let merged := mergeTranscript (transcript session) fragment in
  let final := generateExtractiveSummary merged 5 in
  let stored := sessions (uploadTranscript e req w).2 !! params_sessionId req in
  (uploadTranscript e req w).1 = Normal (saved final)
  /\ summary <$> stored = Some (Some final)
  /\ transcript <$> stored = Some (Some merged)
  /\ summaryStatus <$> stored = Some (Some (lit "completed")).
Proof.
  intros Hauth Hparse Hup Hnone. cbn zeta.
  destruct (uploadTranscript_accepted e req w session fragment lang Hauth Hparse Hup)
    as (llm & Hllm & _ & Hc & _ & Hs & _).
  rewrite Hnone in Hllm. injection Hllm as <-.
  split; [exact Hc|]. rewrite Hs, lookup_insert_eq. done.
Qed.

Lemma fallback_summary_persisted_witness :
  (uploadTranscript offline (demoRequest "Hi there. Bye") (demoWorld (fresh (lit "g1")))).1
  = Normal (saved (lit "Hi there.")).
Proof.
  refine (proj1 (fallback_summary_persisted offline (demoRequest "Hi there. Bye")
                   (demoWorld (fresh (lit "g1"))) (fresh (lit "g1"))
                   (lit "Hi there. Bye") None _ _ _ _)).
  - exists {| id := lit "u1" |}, [lit "u1"]. repeat split.
    apply list_elem_of_here.
  - reflexivity.
  - constructor.
  - reflexivity.
Defined.

(** C2 as stated fails: the fragment " " passes the validation, the remote
    service is not available, and the extractive summary of a blank transcript
    is the empty string, stored with the status "completed". *)
Lemma blank_fragment_counterexample :
  ~ (forall s : Session,
       reachable s ->
       summaryStatus s = Some (lit "completed") ->
       exists text, summary s = Some text /\ text <> []).
Proof.
  intros H.
  destruct (H (markCompleted [] (markPending (lit " ") None (fresh (lit "g1")))))
    as (text & Htext & Hne); [|reflexivity|].
  - apply (reach_upload (fresh (lit "g1")) _ offline (demoRequest " ")
             (demoWorld (fresh (lit "g1")))).
    + constructor.
    + reflexivity.
    + apply list_elem_of_further, list_elem_of_further, list_elem_of_here.
  - simpl in Htext. congruence.
Qed.

(** C2, amended. In every state that submissions can store for a session,
    starting from a fresh one, a status "completed" comes with a stored
    transcript and a stored summary, and the summary is not empty when the
    transcript has a character that is not white space. *)
Theorem completed_has_summary (s : Session) :
  reachable s ->
  summaryStatus s = Some (lit "completed") ->
  exists merged text,
    transcript s = Some merged /\ summary s = Some text
    /\ (hasInk merged = true -> text <> []).
Proof.
  intros Hreach. destruct Hreach as [group|s stored e req w _ Hs Hin]; [done|].
  unfold newEvents in Hin.
  destruct (uploadTranscript_run e req w) as [_ [(Ht & _)|Hrun]].
  - rewrite Ht, drop_all in Hin. by apply elem_of_nil in Hin.
  - destruct Hrun as (session & fragment & lang & llm & _ & _ & _ & Hne & Hcases).
    cbn zeta in Hcases.
    set (merged := mergeTranscript (transcript session) fragment) in *.
    assert (hasInk merged = true -> orExtractive llm merged <> []) as Hfinal.
    { intros Hink. destruct llm as [[|c r]|]; simpl; [done|done|].
      by apply summary_nonempty. }
    destruct Hcases as [(_ & Ht & _)|(_ & Ht & _)];
      rewrite Ht, drop_app_length in Hin;
      repeat (apply elem_of_cons in Hin as [Hin|Hin]);
      try (by apply elem_of_nil in Hin); try discriminate;
      injection Hin as ->; simpl; try discriminate;
      intros _; by exists merged, (orExtractive llm merged).
Qed.

Lemma completed_has_summary_witness :
  exists merged text,
    transcript (markCompleted (lit "Hi there.")
                  (markPending (lit "Hi there. Bye") None (fresh (lit "g1"))))
    = Some merged
    /\ summary (markCompleted (lit "Hi there.")
                  (markPending (lit "Hi there. Bye") None (fresh (lit "g1"))))
       = Some text
    /\ (hasInk merged = true -> text <> []).
Proof.
  apply completed_has_summary; [|reflexivity].
  apply (reach_upload (fresh (lit "g1")) _ offline (demoRequest "Hi there. Bye")
           (demoWorld (fresh (lit "g1")))).
  - constructor.
  - reflexivity.
  - apply list_elem_of_further, list_elem_of_further, list_elem_of_here.
Defined.

(** ** Reading the summary *)

(** Every run of [getSummary] leaves the store as it is; an accepted request
    is answered with the view of the session. *)
Lemma getSummary_run req w :
  let w' := (getSummary req w).2 in
  sessions w' = sessions w /\ groups w' = groups w /\ trace w' = trace w
  /\ forall session,
       authorized req w session -> storeUp w ->
       (getSummary req w).1 = Normal (summaryView session).
Proof.
  cbn zeta. unfold getSummary, tryCatchM, bind, ret.
  destruct (user req) as [u|] eqn:Hu; simpl.
  2: { repeat split. intros session (u' & members & Hu' & _). congruence. }
  destruct (session_findUnique (params_sessionId req) w) as [c1 w1] eqn:E1.
  apply read_spec in E1 as (S1 & G1 & T1 & U1 & [[-> Hdown] | ->]); simpl.
  { repeat split; tauto. }
  rewrite S1.
  destruct (sessions w !! params_sessionId req) as [session|] eqn:Hsession; simpl.
  2: { repeat split; try done. intros session (u' & members & _ & Hs & _). congruence. }
  destruct (group_findFirst (groupId session) (id u) w1) as [c2 w2] eqn:E2.
  apply read_spec in E2 as (S2 & G2 & T2 & U2 & [[-> Hdown] | ->]); simpl.
  { repeat split; try congruence. intros. exfalso. tauto. }
  rewrite G2, G1.
  destruct (groups w !! groupId session) as [members|] eqn:Hgroup; simpl.
  2: { repeat split; try congruence.
       intros session' (u' & members & _ & Hs & Hg & _). congruence. }
  destruct (decide (id u ∈ members)) as [Hin|Hout]; simpl.
  2: { repeat split; try congruence.
       intros session' (u' & members' & Hu' & Hs & Hg & Hin'). congruence. }
  repeat split; try congruence.
  intros session' (u' & members' & _ & Hs & _) _.
  assert (session' = session) as -> by congruence. done.
Qed.

(** C8. No run of [getSummary] changes a record, a group or the trace of
    writes, whoever asks and whatever the store does; and an accepted
    [getSummary] reports the stored status when one is stored; with no status
    stored it reports "completed" when a summary is stored and
    "not_available" when none is. A field that holds the empty string counts
    as not stored, as the code tests the fields for truth. *)
Theorem getSummary_status req w :
  (sessions (getSummary req w).2 = sessions w
   /\ groups (getSummary req w).2 = groups w
   /\ trace (getSummary req w).2 = trace w)
  /\ forall session,
       authorized req w session ->
       storeUp w ->
       (getSummary req w).1 = Normal (summaryView session)
       /\ lookupField (lit "status") [(lit "transcript", orNull (transcript session));
                                      (lit "summary", orNull (summary session));
                                      (lit "status", JString (statusOf session));
                                      (lit "lang", orNull (transcriptLang session))]
          = Some (JString (statusOf session))
       /\ (forall c st, summaryStatus session = Some (c :: st) ->
           statusOf session = c :: st)
       /\ (absent (summaryStatus session) ->
           forall c t, summary session = Some (c :: t) ->
                       statusOf session = lit "completed")
       /\ (absent (summaryStatus session) -> absent (summary session) ->
           statusOf session = lit "not_available").
Proof.
  destruct (getSummary_run req w) as (Hs & Hg & Ht & Hview).
  split; [by repeat split|].
  intros session Hauth Hup.
  split; [by apply Hview|]. split; [reflexivity|].
  unfold statusOf, absent.
  repeat split.
  - by intros c st ->.
  - by intros [-> | ->] c t ->.
  - by intros [-> | ->] [-> | ->].
Qed.

Lemma getSummary_status_witness :
  (getSummary (demoRequest "")
     (demoWorld {| groupId := lit "g1"; transcript := None; transcriptLang := None;
                   summary := Some (lit "Notes"); summaryStatus := None |})).1
  = Normal (summaryView {| groupId := lit "g1"; transcript := None;
                           transcriptLang := None; summary := Some (lit "Notes");
                           summaryStatus := None |})
  /\ statusOf {| groupId := lit "g1"; transcript := None; transcriptLang := None;
                 summary := Some (lit "Notes"); summaryStatus := None |}
     = lit "completed"
  /\ sessions (getSummary {| user := None; params_sessionId := lit "s1"; body := None |}
                 (demoWorld (fresh (lit "g1")))).2
     = sessions (demoWorld (fresh (lit "g1"))).
Proof.
  split; [|split].
  - refine (proj1 (proj2 (getSummary_status (demoRequest "") (demoWorld _)) _ _ _)).
    + exists {| id := lit "u1" |}, [lit "u1"]. repeat split.
      apply list_elem_of_here.
    + constructor.
  - reflexivity.
  - exact (proj1 (proj1 (getSummary_status
                           {| user := None; params_sessionId := lit "s1"; body := None |}
                           (demoWorld (fresh (lit "g1")))))).
Defined.

(** ** The sequence of statuses *)

Lemma statusesOf_updated sid stored rest :
  statusesOf sid (Updated sid stored :: rest) = statusOf stored :: statusesOf sid rest.
Proof. unfold statusesOf. simpl. by rewrite decide_True. Qed.

Lemma statusesOf_summarizing sid merged rest :
  statusesOf sid (Summarizing merged :: rest) = statusesOf sid rest.
Proof. reflexivity. Qed.

(** C9. An accepted submission, while the store works, writes the merged
    transcript with the status "pending", then calls the summarisers, then
    writes the summary with the status "completed"; two such submissions for a
    session that reports "not_available" make [getSummary] report, state after
    state, not_available, pending, completed, pending, completed. *)
Theorem status_sequence e1 e2 req1 req2 w session f1 l1 f2 l2 :
  authorized req1 w session ->
  authorized req2 w session ->
  params_sessionId req2 = params_sessionId req1 ->
  bodySchema_safeParse (body req1) = Some (f1, l1) ->
  bodySchema_safeParse (body req2) = Some (f2, l2) ->
  storeUp w ->
  statusOf session = lit "not_available" ->
  let sid := params_sessionId req1 in
  let w1 := (uploadTranscript e1 req1 w).2 in
  let w2 := (uploadTranscript e2 req2 w1).2 in
  let m1 := mergeTranscript (transcript session) f1 in
  let m2 := mergeTranscript (Some m1) f2 in
  exists t1 t2,
    let p1 := markPending m1 l1 session in
    let c1 := markCompleted t1 p1 in
    let p2 := markPending m2 l2 c1 in
    let c2 := markCompleted t2 p2 in
    newEvents w w1 = [Updated sid p1; Summarizing m1; Updated sid c1]
    /\ newEvents w1 w2 = [Updated sid p2; Summarizing m2; Updated sid c2]
    /\ transcript p1 = Some m1 /\ transcript p2 = Some m2
    /\ summary c1 = Some t1 /\ summary c2 = Some t2
    /\ statusOf session :: statusesOf sid (newEvents w w2)
       = [lit "not_available"; lit "pending"; lit "completed";
          lit "pending"; lit "completed"].
Proof.
  intros Hauth1 Hauth2 Hsid Hp1 Hp2 Hup Hna. cbn zeta.
  destruct (uploadTranscript_accepted e1 req1 w session f1 l1 Hauth1 Hp1 Hup)
    as (llm1 & _ & _ & _ & Ht1 & Hs1 & _).
  set (m1 := mergeTranscript (transcript session) f1) in *.
  set (t1 := orExtractive llm1 m1) in *.
  set (c1 := markCompleted t1 (markPending m1 l1 session)) in *.
  set (w1 := (uploadTranscript e1 req1 w).2) in *.
  assert (authorized req2 w1 c1) as Hauth2'.
  { apply (authorized_after e1 req1 req2 w session c1 Hauth2); [|done].
    fold w1. by rewrite Hs1, Hsid, lookup_insert_eq. }
  destruct (uploadTranscript_accepted e2 req2 w1 c1 f2 l2 Hauth2' Hp2
              (storeUp_after e1 req1 w Hup))
    as (llm2 & _ & _ & _ & Ht2 & _).
  rewrite Hsid in Ht2. simpl transcript in Ht2.
  exists t1, (orExtractive llm2 (mergeTranscript (Some m1) f2)).
  split; [unfold newEvents; by rewrite Ht1, drop_app_length|].
  split; [unfold newEvents; by rewrite Ht2, drop_app_length|].
  do 4 (split; [reflexivity|]).
  unfold newEvents. rewrite Ht2, Ht1, <- app_assoc, drop_app_length. simpl app.
  rewrite Hna.
  repeat (rewrite statusesOf_updated || rewrite statusesOf_summarizing).
  reflexivity.
Qed.

Lemma status_sequence_witness :
  statusOf (fresh (lit "g1"))
    :: statusesOf (lit "s1")
         (newEvents (demoWorld (fresh (lit "g1")))
            (uploadTranscript offline (demoRequest "We met again.")
               (uploadTranscript offline (demoRequest "Hi there. Bye")
                  (demoWorld (fresh (lit "g1")))).2).2)
  = [lit "not_available"; lit "pending"; lit "completed";
     lit "pending"; lit "completed"].
Proof.
  assert (authorized (demoRequest "Hi there. Bye") (demoWorld (fresh (lit "g1")))
            (fresh (lit "g1"))) as Hauth.
  { exists {| id := lit "u1" |}, [lit "u1"]. repeat split.
    apply list_elem_of_here. }
  destruct (status_sequence offline offline (demoRequest "Hi there. Bye")
              (demoRequest "We met again.") (demoWorld (fresh (lit "g1")))
              (fresh (lit "g1")) (lit "Hi there. Bye") None (lit "We met again.") None
              Hauth Hauth eq_refl eq_refl eq_refl (Forall_nil_2 _) eq_refl)
    as (t1 & t2 & _ & _ & _ & _ & _ & _ & H).
  exact H.
Defined.

(** ** More on the extractive summariser *)

Lemma seq_ascending k n : StronglySorted lt (seq k n).
Proof.
  revert k. induction n as [|n IH]; intros k; simpl; constructor; [apply IH|].
  apply Forall_forall. intros x Hx. apply list_elem_of_In, in_seq in Hx. lia.
Qed.

(** Two lists with the same entries, both in strictly ascending order of
    position, are the same list. *)
Lemma ascending_perm_eq (l1 l2 : list entry) :
  StronglySorted lt (map ent_i l1) ->
  StronglySorted lt (map ent_i l2) ->
  l1 ≡ₚ l2 ->
  l1 = l2.
Proof.
  revert l2. induction l1 as [|a l1 IH]; intros l2 S1 S2 P.
  - by apply Permutation_nil in P.
  - destruct l2 as [|b l2]; [by apply Permutation_sym, Permutation_nil in P|].
    simpl in S1, S2.
    apply StronglySorted_inv in S1 as [S1 F1].
    apply StronglySorted_inv in S2 as [S2 F2].
    rewrite Forall_forall in F1, F2.
    assert (a = b) as ->.
    { assert (a ∈ b :: l2) as Ha by (rewrite <- P; apply list_elem_of_here).
      assert (b ∈ a :: l1) as Hb by (rewrite P; apply list_elem_of_here).
      apply elem_of_cons in Ha as [?|Ha]; [done|].
      apply elem_of_cons in Hb as [?|Hb]; [done|].
      pose proof (F2 _ (list_elem_of_fmap_2 ent_i _ _ Ha)).
      pose proof (F1 _ (list_elem_of_fmap_2 ent_i _ _ Hb)). lia. }
    f_equal. apply IH; [done|done|]. by apply Permutation_cons_inv in P.
Qed.

Lemma indexedOf_sentences text : map ent_s (indexedOf text) = sentencesOf text.
Proof.
  unfold indexedOf.
  by destruct (indexFrom_spec 0 (sentencesOf text) (scoresOf text)
                 (scoresOf_length text)) as (_ & -> & _).
Qed.

Lemma indexedOf_ascending text : StronglySorted lt (map ent_i (indexedOf text)).
Proof.
  unfold indexedOf.
  destruct (indexFrom_spec 0 (sentencesOf text) (scoresOf text)
              (scoresOf_length text)) as (-> & _).
  apply seq_ascending.
Qed.

(** Sorting a list that is in order returns it. *)
Lemma js_sort_inOrder {A : Type} (comparefn : A -> A -> jsnumber) (l : list A) :
  inOrder comparefn l -> js_sort comparefn l = l.
Proof.
  induction l as [|x r IH]; [done|]. intros H. cbn [js_sort].
  destruct r as [|y r']; [done|].
  destruct H as [Hxy Hr]. rewrite (IH Hr). cbn [insertSorted]. by rewrite Hxy.
Qed.

Lemma inOrder_take {A : Type} (comparefn : A -> A -> jsnumber) (l : list A) k :
  inOrder comparefn l -> inOrder comparefn (take k l).
Proof.
  revert k. induction l as [|x r IH]; intros k H; [by destruct k|].
  destruct k as [|k]; [done|]. destruct r as [|y r']; [by destruct k|].
  destruct H as [Hxy Hr]. specialize (IH k Hr).
  destruct k as [|k]; [done|]. simpl in *. by split.
Qed.

Lemma ascending_inOrder (l : list entry) :
  StronglySorted lt (map ent_i l) -> inOrder byIndexAsc l.
Proof.
  induction l as [|x r IH]; [done|]. simpl. intros H.
  apply StronglySorted_inv in H as [Hr Hx].
  destruct r as [|y r']; [done|]. split; [|by apply IH].
  apply Forall_cons in Hx as [Hxy _].
  destruct (isPositive (byIndexAsc x y)) eqn:E; [|done].
  apply isPositive_byIndexAsc in E. lia.
Qed.

Lemma ascending_take (l : list nat) k :
  StronglySorted lt l -> StronglySorted lt (take k l).
Proof.
  revert k. induction l as [|x r IH]; intros k H; [by destruct k|].
  destruct k as [|k]; [constructor|]. simpl.
  apply StronglySorted_inv in H as [Hr Hx].
  constructor; [by apply IH|].
  rewrite Forall_forall in *. intros y Hy. apply Hx.
  eapply elem_of_sublist; [exact Hy|apply sublist_take].
Qed.

Lemma topOf_everything (text : jsstring) (maxSentences : Z) :
  (Z.of_nat (length (sentencesOf text)) <= maxSentences)%Z ->
  generateExtractiveSummary text maxSentences
  = join (lit " ") (map trim (sentencesOf text)).
Proof.
  intros Hm. destruct text as [|c r]; [done|].
  unfold generateExtractiveSummary.
  assert (topOf (c :: r) maxSentences = indexedOf (c :: r)) as ->.
  { apply ascending_perm_eq;
      [apply topOf_ascending|apply indexedOf_ascending|].
    rewrite topOf_perm. unfold selectedOf, slice0.
    rewrite rankedOf_length, Z.min_r by lia.
    destruct (Z.ltb_spec (Z.of_nat (length (sentencesOf (c :: r)))) 0); [lia|].
    rewrite Z.min_id, Nat2Z.id, take_ge by (by rewrite rankedOf_length).
    apply js_sort_perm. }
  rewrite <- (indexedOf_sentences (c :: r)). by rewrite map_map.
Qed.

(** X1. When [maxSentences] is at least the number of sentences, the
    summary is every sentence of the text, trimmed, in the order of the text,
    with one space between two sentences. *)
Theorem summary_of_all_sentences (text : jsstring) (maxSentences : Z) :
  (Z.of_nat (length (sentencesOf text)) <= maxSentences)%Z ->
  generateExtractiveSummary text maxSentences
  = join (lit " ") (map trim (sentencesOf text)).
Proof.
  exact (topOf_everything text maxSentences).
Qed.

Lemma summary_of_all_sentences_witness :
  generateExtractiveSummary (lit "Hello  world.   Bye. ") 2 = lit "Hello world. Bye.".
Proof.
  rewrite summary_of_all_sentences; [reflexivity|]. vm_compute. discriminate.
Defined.

(** X2. For [maxSentences >= 0] the summary of a text that is not empty is
    made of exactly [min(maxSentences, n)] sentences of the text, [n] being
    their number, at pairwise different positions. *)
Theorem summary_sentence_count (text : jsstring) (maxSentences : Z) :
  text <> [] ->
  (0 <= maxSentences)%Z ->
  exists top : list entry,
    generateExtractiveSummary text maxSentences
    = join (lit " ") (map (fun t => trim (ent_s t)) top)
    /\ length top
       = Z.to_nat (Z.min maxSentences (Z.of_nat (length (sentencesOf text))))
    /\ NoDup (map ent_i top)
    /\ Forall (fun t => sentencesOf text !! ent_i t = Some (ent_s t)) top.
Proof.
  intros Hne Hm. destruct text as [|c r]; [done|].
  exists (topOf (c :: r) maxSentences). split; [done|]. split; [|split].
  - unfold topOf. rewrite js_sort_length. unfold selectedOf, slice0.
    rewrite rankedOf_length.
    set (n := Z.of_nat (length (sentencesOf (c :: r)))).
    destruct (Z.ltb_spec (Z.min maxSentences n) 0); [lia|].
    rewrite length_take, rankedOf_length. lia.
  - pose proof (topOf_ascending (c :: r) maxSentences) as H.
    apply NoDup_ListNoDup. clear -H.
    induction H as [|x l _ IH Hx]; constructor; [|done].
    intros Hin. rewrite List.Forall_forall in Hx. specialize (Hx _ Hin). lia.
  - apply Forall_forall. intros t. apply topOf_elem.
Qed.

Lemma summary_sentence_count_witness :
  exists top : list entry,
    generateExtractiveSummary (lit "One. Two. Three.") 2
    = join (lit " ") (map (fun t => trim (ent_s t)) top)
    /\ length top = 2%nat.
Proof.
  destruct (summary_sentence_count (lit "One. Two. Three.") 2)
    as (top & H1 & H2 & _); [discriminate|lia|].
  exists top. split; [exact H1|]. rewrite H2. reflexivity.
Defined.

Lemma terminator_ink str : existsb isTerminator str = true -> hasInk str = true.
Proof.
  intros H. apply existsb_exists in H as (x & Hx & Hterm).
  apply existsb_exists. exists x. split; [done|].
  by rewrite (isTerminator_not_ws _ Hterm).
Qed.

Lemma replaceWsFrom_ink inRun str : hasInk (replaceWsFrom inRun str) = hasInk str.
Proof.
  revert inRun. induction str as [|c r IH]; intros inRun; simpl; [done|].
  destruct (isWhiteSpace c) eqn:Hc; simpl.
  - destruct inRun; simpl; by rewrite IH.
  - by rewrite Hc, IH.
Qed.

Lemma trim_blank str : hasInk str = false -> trim str = [].
Proof.
  intros H. rewrite <- hasInk_trim in H. unfold trim in *.
  pose proof (rev_dropWhile_head (dropWhile isWhiteSpace str)
                (dropWhile_head isWhiteSpace str)) as Hd.
  destruct (rev (dropWhile isWhiteSpace (rev (dropWhile isWhiteSpace str))))
    as [|c r]; [done|].
  simpl in H. by rewrite Hd in H.
Qed.

Lemma dropWhile_lead p lead rest :
  forallb p lead = true -> dropWhile p (lead ++ rest) = dropWhile p rest.
Proof.
  induction lead as [|c r IH]; simpl; [done|].
  intros H. apply andb_true_iff in H as [-> Hr]. by apply IH.
Qed.

(** A collapsed text without a sentence in it has the text itself as its one
    sentence. *)
Lemma sentencesOf_fallback text :
  hasSentence (replaceWs text) = false -> sentencesOf text = [text].
Proof.
  intros H. unfold sentencesOf, String_match.
  pose proof (matchAll_sentenceRe (S (length (replaceWs text))) (replaceWs text)
                ltac:(lia)) as [Hall Hdec].
  cbn zeta in Hall, Hdec.
  destruct (matchAll sentenceRe (S (length (replaceWs text))) (replaceWs text))
    as [|h hs]; [done|].
  exfalso. destruct Hdec as (_ & lead & Hlead & E).
  apply Forall_cons in Hall as [Hh _].
  unfold hasSentence in H. rewrite E, (dropWhile_lead _ _ _ Hlead) in H.
  simpl in H. rewrite <- !app_assoc in H.
  destruct Hh as (body & marks & -> & Hb & Hm & Fb & Fm).
  destruct body as [|b body]; [done|]. simpl in Fb, H.
  apply andb_true_iff in Fb as [Hnb _]. apply negb_true_iff in Hnb.
  rewrite Hnb in H. simpl in H. rewrite Hnb in H. simpl in H.
  rewrite <- !app_assoc, existsb_app, existsb_app in H.
  destruct marks as [|m marks]; [done|]. simpl in Fm, H.
  apply andb_true_iff in Fm as [Hm' _]. rewrite Hm' in H. simpl in H.
  by rewrite orb_true_r in H.
Qed.

(** X4. A text in which no terminator follows a non-terminator is its own
    only sentence: for [maxSentences >= 1] the summary is the text as it was
    given, trimmed, its inner white space not collapsed. *)
Theorem summary_without_sentence (text : jsstring) (maxSentences : Z) :
  hasSentence (replaceWs text) = false ->
  (1 <= maxSentences)%Z ->
  generateExtractiveSummary text maxSentences = trim text.
Proof.
  intros H Hm. rewrite topOf_everything.
  - by rewrite (sentencesOf_fallback _ H).
  - rewrite (sentencesOf_fallback _ H). simpl. lia.
Qed.

Lemma summary_without_sentence_witness :
  generateExtractiveSummary (lit "  no   full stop here  ") 5 = lit "no   full stop here".
Proof.
  rewrite summary_without_sentence; [reflexivity|reflexivity|lia].
Defined.

Lemma summary_blank (text : jsstring) (maxSentences : Z) :
  hasInk text = false -> generateExtractiveSummary text maxSentences = [].
Proof.
  - intros Hblank.
    assert (sentencesOf text = [text]) as Hs.
    { apply sentencesOf_fallback. unfold hasSentence.
      destruct (existsb isTerminator (dropWhile isTerminator (replaceWs text)))
        eqn:E; [|done].
      apply terminator_ink in E.
      destruct (dropWhile_suffix isTerminator (replaceWs text)) as [pre Hpre].
      assert (hasInk (replaceWs text) = true) as Hink
        by (rewrite Hpre, hasInk_app, E; apply orb_true_r).
      unfold replaceWs in Hink. rewrite replaceWsFrom_ink in Hink. congruence. }
    destruct text as [|c r]; [done|].
    unfold generateExtractiveSummary.
    assert (length (topOf (c :: r) maxSentences) <= 1)%nat as Hlen.
    { unfold topOf. rewrite js_sort_length.
      etransitivity; [apply sublist_length, selectedOf_sublist|].
      by rewrite rankedOf_length, Hs. }
    pose proof (topOf_elem (c :: r) maxSentences) as Helem.
    destruct (topOf (c :: r) maxSentences) as [|t [|t' top]]; [done| |simpl in Hlen; lia].
    specialize (Helem t (list_elem_of_here _ _)).
    rewrite Hs in Helem. apply list_lookup_singleton_Some in Helem as [_ E].
    simpl. rewrite <- E. by apply trim_blank.
Qed.

(** X3. The summary of a text of white space only is empty for every
    [maxSentences], and for [maxSentences >= 1] no other text has an empty
    summary. *)
Theorem summary_empty_iff_blank (text : jsstring) (maxSentences : Z) :
  (hasInk text = false -> generateExtractiveSummary text maxSentences = [])
  /\ ((1 <= maxSentences)%Z ->
      generateExtractiveSummary text maxSentences = [] -> hasInk text = false).
Proof.
  split; [apply summary_blank|].
  - intros Hm Hempty. destruct (hasInk text) eqn:E; [|done].
    by destruct (summary_nonempty text maxSentences Hm E).
Qed.

Lemma summary_empty_iff_blank_witness :
  generateExtractiveSummary [32; 9; 10; 160] 3 = [].
Proof.
  apply (summary_empty_iff_blank [32; 9; 10; 160] 3). reflexivity.
Defined.


Lemma inOrder_map {A B : Type} (f : A -> B) (comparefn : B -> B -> jsnumber) (l : list A) :
  inOrder comparefn (map f l) -> inOrder (fun a b => comparefn (f a) (f b)) l.
Proof.
  induction l as [|x r IH]; [done|]. destruct r as [|y r']; [done|].
  simpl in *. intros [Hxy Hr]. split; [done|]. by apply IH.
Qed.

Lemma indexedOf_scores text : map ent_score (indexedOf text) = scoresOf text.
Proof.
  unfold indexedOf.
  by destruct (indexFrom_spec 0 (sentencesOf text) (scoresOf text)
                 (scoresOf_length text)) as (_ & _ & ->).
Qed.

(** X6. Ties are broken by position: when no sentence scores higher than
    the sentence before it (equal scores included), the summary for
    [maxSentences >= 0] is made of the first [maxSentences] sentences of the
    text. *)
Theorem summary_of_first_sentences (text : jsstring) (maxSentences : Z) :
  text <> [] ->
  (0 <= maxSentences)%Z ->
  inOrder (fun a b => minus b a) (scoresOf text) ->
  generateExtractiveSummary text maxSentences
  = join (lit " ") (map trim (take (Z.to_nat maxSentences) (sentencesOf text))).
Proof.
  intros Hne Hm Hord. destruct text as [|c r]; [done|].
  unfold generateExtractiveSummary, topOf, selectedOf.
  assert (rankedOf (c :: r) = indexedOf (c :: r)) as ->.
  { apply js_sort_inOrder. rewrite <- indexedOf_scores in Hord.
    by apply inOrder_map in Hord. }
  unfold slice0. rewrite indexedOf_length.
  set (n := Z.of_nat (length (sentencesOf (c :: r)))).
  destruct (Z.ltb_spec (Z.min maxSentences n) 0); [lia|].
  rewrite Z.min_l by lia.
  assert (take (Z.to_nat (Z.min maxSentences n)) (indexedOf (c :: r))
          = take (Z.to_nat maxSentences) (indexedOf (c :: r))) as ->.
  { destruct (Z.le_ge_cases maxSentences n); [by rewrite Z.min_l|].
    rewrite Z.min_r by done. unfold n. rewrite Nat2Z.id.
    rewrite !take_ge; [done| |]; rewrite indexedOf_length; lia. }
  rewrite js_sort_inOrder.
  - rewrite <- (indexedOf_sentences (c :: r)).
    change (map trim (take ?k (map ent_s ?l))) with (trim <$> take k (ent_s <$> l)).
    rewrite <- fmap_take, <- list_fmap_compose. done.
  - apply ascending_inOrder.
    change (StronglySorted lt (ent_i <$> take (Z.to_nat maxSentences) (indexedOf (c :: r)))).
    rewrite fmap_take. apply ascending_take, indexedOf_ascending.
Qed.

Lemma summary_of_first_sentences_witness :
  generateExtractiveSummary (lit "Aa bb. Cc dd. Ee ff.") 2 = lit "Aa bb. Cc dd.".
Proof.
  rewrite summary_of_first_sentences; [reflexivity|discriminate|lia|].
  vm_compute. tauto.
Defined.

(** Strings without white space at either end. *)
Lemma trim_fixed str :
  match str with [] => True | c :: _ => isWhiteSpace c = false end ->
  match rev str with [] => True | c :: _ => isWhiteSpace c = false end ->
  trim str = str.
Proof.
  intros H1 H2. unfold trim.
  by rewrite (dropWhile_id _ _ H1), (dropWhile_id _ _ H2), rev_involutive.
Qed.

Lemma trim_ends str :
  match trim str with [] => True | c :: _ => isWhiteSpace c = false end
  /\ match rev (trim str) with [] => True | c :: _ => isWhiteSpace c = false end.
Proof.
  unfold trim. split.
  - apply rev_dropWhile_head, dropWhile_head.
  - rewrite rev_involutive. apply dropWhile_head.
Qed.

Lemma join_ends sep (parts : list jsstring) :
  Forall (fun x => x <> []
                   /\ match x with [] => True | c :: _ => isWhiteSpace c = false end
                   /\ match rev x with [] => True | c :: _ => isWhiteSpace c = false end)
         parts ->
  match join sep parts with [] => True | c :: _ => isWhiteSpace c = false end
  /\ match rev (join sep parts) with [] => True | c :: _ => isWhiteSpace c = false end.
Proof.
  induction 1 as [|x r (Hne & Hh & Hl) Hr IH]; [done|].
  destruct r as [|y r']; [done|].
  assert (join sep (y :: r') <> []) as Hj.
  { apply join_nonempty; [done|]. eapply Forall_impl; [exact Hr|]. by intros ? [? _]. }
  change (join sep (x :: y :: r')) with (x ++ sep ++ join sep (y :: r')).
  destruct IH as [_ IH]. revert Hj IH.
  generalize (join sep (y :: r')). intros j Hj IH. split.
  - destruct x; [done|]. exact Hh.
  - rewrite !rev_app_distr.
    destruct (rev j) as [|d rest] eqn:E; [|exact IH].
    apply (f_equal (@rev N)) in E. rewrite rev_involutive in E. done.
Qed.

(** X5. The summary neither starts nor ends with white space: trimming it
    changes nothing. *)
Theorem summary_is_trimmed (text : jsstring) (maxSentences : Z) :
  trim (generateExtractiveSummary text maxSentences)
  = generateExtractiveSummary text maxSentences.
Proof.
  destruct (hasInk text) eqn:Hink.
  2: { by rewrite (summary_blank text maxSentences Hink). }
  destruct (summary_of_sentences text maxSentences) as (top & -> & Hall).
  apply trim_fixed; apply join_ends; apply Forall_forall; intros x Hx;
    apply list_elem_of_fmap in Hx as (t & -> & Ht);
    rewrite Forall_forall in Hall; specialize (Hall t Ht);
    pose proof (sentencesOf_ink _ Hink) as Hs; rewrite Forall_forall in Hs;
    specialize (Hs _ (list_elem_of_lookup_2 _ _ _ Hall));
    (split; [by apply trim_nonempty|apply trim_ends]).
Qed.

(** ** More on the remote summariser *)

Lemma inputOf_tail older tail :
  N.of_nat (length tail) = maxChars -> inputOf (older ++ tail) = tail.
Proof.
  intros Hlen. unfold inputOf, sliceLast.
  destruct (decide (maxChars < N.of_nat (length (older ++ tail)))) as [Hlong|Hshort].
  - rewrite length_app. replace (length older + length tail - N.to_nat maxChars)%nat
      with (length older) by lia. by rewrite drop_app_length.
  - rewrite length_app in Hshort. destruct older; [done|]. simpl in Hshort. lia.
Qed.

Lemma inputOf_length transcript : (N.of_nat (length (inputOf transcript)) <= maxChars).
Proof.
  unfold inputOf, sliceLast.
  destruct (decide (maxChars < N.of_nat (length transcript))); [|lia].
  rewrite length_drop. lia.
Qed.

(** X7. Only the last 16000 characters of a transcript reach the remote
    service: a transcript and its last 16000 characters get the same answer;
    and what is sent never carries more than 16000 characters of the
    transcript. *)
Theorem summarizeWithGemini_tail_only (e : env) (older tail : jsstring) :
  N.of_nat (length tail) = maxChars ->
  summarizeWithGemini e (older ++ tail) = summarizeWithGemini e tail
  /\ inputOf (older ++ tail) = tail
  /\ forall transcript, N.of_nat (length (inputOf transcript)) <= 16000.
Proof.
  intros Hlen. split; [|split; [by apply inputOf_tail|apply inputOf_length]].
  unfold summarizeWithGemini, summarizeWithGemini_try.
  pose proof (inputOf_tail [] tail Hlen) as Htail. simpl in Htail.
  by rewrite (inputOf_tail older tail Hlen), Htail.
Qed.

Lemma summarizeWithGemini_tail_only_witness :
  inputOf (lit "older talk " ++ replicate (N.to_nat 16000) 97) = replicate (N.to_nat 16000) 97.
Proof.
  apply (summarizeWithGemini_tail_only offline (lit "older talk ")
           (replicate (N.to_nat 16000) 97)).
  rewrite length_replicate. apply N2Nat.id.
Defined.

(** X8. With a credential, a successful response whose first candidate has
    a first part with a text that is not blank yields that text, trimmed;
    further parts and candidates are not looked at. *)
Theorem summarizeWithGemini_success (e : env) (transcript apiKey str : jsstring)
    (otherParts otherCandidates : list json) :
  apiKey <> [] ->
  GEMINI_API_KEY e = Some apiKey ->
  fetch e (endpoint apiKey) (preamble ++ inputOf transcript)
  = FetchResponse true (Some (geminiReply str otherParts otherCandidates)) ->
  hasInk str = true ->
  summarizeWithGemini e transcript = Normal (Some (trim str)).
Proof.
  intros Hkey Hk Hfetch Hink.
  unfold summarizeWithGemini, summarizeWithGemini_try. rewrite Hk.
  destruct apiKey as [|k key]; [done|]. rewrite Hfetch.
  assert (textOf (geminiReply str otherParts otherCandidates) = Some (JString str))
    as -> by reflexivity.
  pose proof (trim_nonempty _ Hink) as Hne.
  destruct (decide (0 < length (trim str))%nat) as [?|Hlen]; [done|].
  destruct (trim str); [done|]. simpl in Hlen. lia.
Qed.

Lemma summarizeWithGemini_success_witness :
  summarizeWithGemini
    {| GEMINI_API_KEY := Some (lit "k");
       fetch := fun _ _ =>
         FetchResponse true
           (Some (geminiReply (lit "  - Key point  ") [JNull] [JNull])) |}
    (lit "We talked.")
  = Normal (Some (lit "- Key point")).
Proof.
  apply (summarizeWithGemini_success _ (lit "We talked.") (lit "k") (lit "  - Key point  ")
           [JNull] [JNull]); [discriminate|reflexivity|reflexivity|reflexivity].
Defined.

(** ** More on the submission of transcripts *)

(** Every run of [uploadTranscript] with its response: the six ways in
    which it can end. *)
Lemma uploadTranscript_response e req w :
  let sid := params_sessionId req in
  let r := (uploadTranscript e req w).1 in
  let w' := (uploadTranscript e req w).2 in
  (user req = None /\ r = Normal (message 401 "Unauthorized") /\ w' = w)
  \/ (bodySchema_safeParse (body req) = None
      /\ r = Normal (message 400 "Invalid payload") /\ w' = w)
  \/ (sessions w !! sid = None
      /\ r = Normal (message 404 "Session not found")
      /\ sessions w' = sessions w /\ trace w' = trace w)
  \/ ((exists session, sessions w !! sid = Some session)
      /\ (forall session, ~ authorized req w session)
      /\ r = Normal (message 403 "Forbidden")
      /\ sessions w' = sessions w /\ trace w' = trace w)
  \/ (~ storeUp w
      /\ r = Normal (message 500 "Failed to save transcript")
      /\ ((sessions w' = sessions w /\ trace w' = trace w)
          \/ exists session fragment lang,
               sessions w !! sid = Some session
               /\ bodySchema_safeParse (body req) = Some (fragment, lang)
               /\ sessions w'
                  = <[sid := markPending (mergeTranscript (transcript session) fragment)
                               lang session]> (sessions w)))
  \/ exists session fragment lang llm,
       authorized req w session
       /\ bodySchema_safeParse (body req) = Some (fragment, lang)
       /\ summarizeWithGemini e (mergeTranscript (transcript session) fragment)
          = Normal llm
       /\ let merged := mergeTranscript (transcript session) fragment in
          let text := orExtractive llm merged in
          r = Normal (saved text)
          /\ sessions w'
             = <[sid := markCompleted text (markPending merged lang session)]>
                 (<[sid := markPending merged lang session]> (sessions w)).
Proof.
  cbn zeta. unfold uploadTranscript, tryCatchM, bind, ret.
  destruct (user req) as [u|] eqn:Hu; simpl; [|by left].
  destruct (bodySchema_safeParse (body req)) as [[fragment lang]|] eqn:Hparse;
    simpl; [|right; by left].
  destruct (session_findUnique (params_sessionId req) w) as [c1 w1] eqn:E1.
  apply read_spec in E1 as (S1 & G1 & T1 & U1 & [[-> Hdown] | ->]); simpl.
  { do 4 right. left. repeat split; try done. by left. }
  rewrite S1.
  destruct (sessions w !! params_sessionId req) as [session|] eqn:Hsession; simpl.
  2: { do 2 right. left. by repeat split. }
  destruct (group_findFirst (groupId session) (id u) w1) as [c2 w2] eqn:E2.
  apply read_spec in E2 as (S2 & G2 & T2 & U2 & [[-> Hdown] | ->]); simpl.
  { do 4 right. left. repeat split; [tauto|]. left. split; congruence. }
  rewrite G2, G1.
  destruct (groups w !! groupId session) as [members|] eqn:Hgroup; simpl.
  2: { do 3 right. left. split; [by exists session|]. repeat split; try congruence.
       intros session' (u' & members & _ & Hs & Hg & _). congruence. }
  destruct (decide (id u ∈ members)) as [Hin|Hout]; simpl.
  2: { do 3 right. left. split; [by exists session|]. repeat split; try congruence.
       intros session' (u' & members' & Hu' & Hs & Hg & Hin'). congruence. }
  set (merged := mergeTranscript (transcript session) fragment).
  destruct (session_update (params_sessionId req) (markPending merged lang) w2)
    as [c3 w3] eqn:E3.
  apply session_update_spec in E3
    as (G3 & U3 & [(-> & S3 & T3 & Hwhy)|(old & Hold & -> & S3 & T3)]); simpl.
  { do 4 right. left. repeat split.
    - destruct Hwhy as [Hdown|Hnone]; [tauto|]. congruence.
    - left. split; congruence. }
  assert (old = session) as -> by congruence.
  destruct (summarizeWithGemini_normal e merged) as (llm & Hllm & Hne).
  unfold liftC. rewrite Hllm.
  set (text := orExtractive llm merged).
  match goal with
  | |- context [session_update ?i ?d ?w0] =>
      destruct (session_update i d w0) as [c5 w5] eqn:E5
  end.
  apply session_update_spec in E5
    as (G5 & U5 & [(-> & S5 & T5 & Hwhy)|(old & Hold5 & -> & S5 & T5)]);
    simpl in *.
  - do 4 right. left. repeat split.
    + destruct Hwhy as [Hdown|Hnone].
      * intros Hup. apply Hdown. unfold storeUp in *. simpl. tauto.
      * rewrite S3, S2, S1, lookup_insert_eq in Hnone. done.
    + right. exists session, fragment, lang. repeat split; try done.
      rewrite S5, S3, S2, S1. done.
  - do 5 right. exists session, fragment, lang, llm.
    rewrite S3, S2, S1, lookup_insert_eq in Hold5. injection Hold5 as <-.
    repeat split; try done.
    + by exists u, members.
    + rewrite S5, S3, S2, S1. done.
Qed.

Lemma bodySchema_fragment b fragment lang :
  bodySchema_safeParse b = Some (fragment, lang) -> fragment <> [].
Proof.
  unfold bodySchema_safeParse. intros H.
  destruct b as [[| | | | |fields]|]; try done.
  destruct (lookupField (lit "transcript") fields) as [[| | |t| |]|]; try done.
  destruct (decide (1 <= length t)%nat) as [Hlen|]; [|done].
  destruct (lookupField (lit "lang") fields) as [[| | |l| |]|]; try done;
    injection H as <- _; intros ->; simpl in Hlen; lia.
Qed.

(** X9. A request without a user is answered 401 and a request whose body
    does not pass the validation is answered 400, in that order of
    precedence, and before the store is touched: the world stays as it is,
    pending store failures included. A body whose transcript is the empty
    string does not pass. *)
Theorem uploadTranscript_rejects_early e req w :
  (user req = None ->
   uploadTranscript e req w = (Normal (message 401 "Unauthorized"), w))
  /\ (user req <> None -> bodySchema_safeParse (body req) = None ->
      uploadTranscript e req w = (Normal (message 400 "Invalid payload"), w))
  /\ (forall fields,
        lookupField (lit "transcript") fields = Some (JString []) ->
        bodySchema_safeParse (Some (JObject fields)) = None).
Proof.
  unfold uploadTranscript, tryCatchM, bind, ret. repeat split.
  - by intros ->.
  - intros Hu ->. by destruct (user req).
  - intros fields H. unfold bodySchema_safeParse. by rewrite H.
Qed.

(** X10. While the store works, a valid submission by an authenticated user
    is answered 404 when the session does not exist and 403 when the user is
    not a member of the group of the session; in both cases no record is
    changed and nothing is written. *)
Theorem uploadTranscript_not_found_or_forbidden e req w u fragment lang :
  storeUp w ->
  user req = Some u ->
  bodySchema_safeParse (body req) = Some (fragment, lang) ->
  let r := (uploadTranscript e req w).1 in
  let w' := (uploadTranscript e req w).2 in
  (sessions w !! params_sessionId req = None ->
   r = Normal (message 404 "Session not found")
   /\ sessions w' = sessions w /\ trace w' = trace w)
  /\ (forall session,
        sessions w !! params_sessionId req = Some session ->
        (forall members, groups w !! groupId session = Some members -> id u ∉ members) ->
        r = Normal (message 403 "Forbidden")
        /\ sessions w' = sessions w /\ trace w' = trace w).
Proof.
  intros Hup Hu Hparse. cbn zeta.
  destruct (uploadTranscript_response e req w)
    as [(? & _)|[(? & _)|[(Hs & Hr)|[([s Hs] & Hno & Hr)|[(? & _)|Hok]]]]];
    try congruence; try done.
  - split; [done|]. intros session Hs'. congruence.
  - split; [congruence|]. done.
  - destruct Hok as (session & f & l & llm & (u' & members & Hu' & Hs & Hg & Hin) & _).
    split; [congruence|]. intros session' Hs' Hout. exfalso.
    assert (session' = session) as -> by congruence.
    assert (u' = u) as -> by congruence. by apply (Hout members).
Qed.

Lemma uploadTranscript_not_found_or_forbidden_witness :
  (uploadTranscript offline (requestOf "u2" "s1" "Hi.") (demoWorld (fresh (lit "g1")))).1
  = Normal (message 403 "Forbidden").
Proof.
  refine (proj1 (proj2 (uploadTranscript_not_found_or_forbidden offline
                   (requestOf "u2" "s1" "Hi.")
                   (demoWorld (fresh (lit "g1"))) {| id := lit "u2" |} (lit "Hi.") None
                   _ eq_refl eq_refl) (fresh (lit "g1")) eq_refl _)).
  - constructor.
  - intros members [= <-]. intros Hin.
    apply list_elem_of_singleton in Hin. discriminate.
Defined.

(** X11. Every run of [uploadTranscript] ends with a response, whatever
    the store does, and 200 is answered only after both writes: the session
    then holds the status "completed", the transcript it had merged with the
    fragment of the request, and the very summary that the response
    carries. *)
Theorem ok_only_after_both_writes e req w :
  exists resp,
    (uploadTranscript e req w).1 = Normal resp
    /\ (status resp = 200%nat ->
        exists session fragment lang stored text,
          sessions w !! params_sessionId req = Some session
          /\ bodySchema_safeParse (body req) = Some (fragment, lang)
          /\ sessions (uploadTranscript e req w).2 !! params_sessionId req = Some stored
          /\ summaryStatus stored = Some (lit "completed")
          /\ summary stored = Some text
          /\ transcript stored = Some (mergeTranscript (transcript session) fragment)
          /\ resp = saved text).
Proof.
  destruct (uploadTranscript_response e req w)
    as [(_ & -> & _)|[(_ & -> & _)|[(_ & -> & _)|[(_ & _ & -> & _)|[(_ & -> & _)|Hok]]]]];
    try (eexists; split; [reflexivity|discriminate]).
  destruct Hok as (session & fragment & lang & llm & Hauth & Hparse & _ & Hr & Hs).
  destruct Hauth as (u & members & _ & Hsession & _).
  cbn zeta in Hr, Hs. rewrite Hr, Hs. eexists. split; [reflexivity|]. intros _.
  exists session, fragment, lang. eexists _, _. rewrite lookup_insert_eq.
  by repeat split.
Qed.

(** X12. [uploadTranscript] answers 500 only when a call of the store
    fails; the session is then either as before, or holds the transcript it
    had merged with the fragment of the request, with the status "pending" and
    the summary it had before. *)
Theorem failure_leaves_pending_or_nothing e req w resp :
  (uploadTranscript e req w).1 = Normal resp ->
  status resp = 500%nat ->
  ~ storeUp w
  /\ (sessions (uploadTranscript e req w).2 = sessions w
      \/ exists session stored fragment lang,
           sessions w !! params_sessionId req = Some session
           /\ bodySchema_safeParse (body req) = Some (fragment, lang)
           /\ sessions (uploadTranscript e req w).2 !! params_sessionId req = Some stored
           /\ summaryStatus stored = Some (lit "pending")
           /\ transcript stored = Some (mergeTranscript (transcript session) fragment)
           /\ summary stored = summary session).
Proof.
  intros Hr H500.
  destruct (uploadTranscript_response e req w)
    as [(_ & E & _)|[(_ & E & _)|[(_ & E & _)|[(_ & _ & E & _)|[(Hdown & _ & Hs)|Hok]]]]];
    try (rewrite E in Hr; injection Hr as <-; discriminate).
  - split; [done|].
    destruct Hs as [[Hs _]|(session & fragment & lang & Hs & Hparse & Hs')].
    + by left.
    + right.
      exists session,
        (markPending (mergeTranscript (transcript session) fragment) lang session),
        fragment, lang.
      rewrite Hs', lookup_insert_eq. by repeat split.
  - destruct Hok as (session & fragment & lang & llm & _ & _ & _ & E & _).
    cbn zeta in E. rewrite E in Hr. injection Hr as <-. discriminate.
Qed.

Lemma failure_leaves_pending_or_nothing_witness :
  ~ storeUp {| sessions := {[ lit "s1" := fresh (lit "g1") ]};
               groups := {[ lit "g1" := [lit "u1"] ]};
               failures := [false; false; false; true];
               trace := [] |}
  /\ (sessions (uploadTranscript offline (demoRequest "Hi.")
                  {| sessions := {[ lit "s1" := fresh (lit "g1") ]};
                     groups := {[ lit "g1" := [lit "u1"] ]};
                     failures := [false; false; false; true];
                     trace := [] |}).2
      = {[ lit "s1" := fresh (lit "g1") ]}
      \/ exists session stored fragment lang,
           ({[ lit "s1" := fresh (lit "g1") ]} : gmap jsstring Session) !! lit "s1"
           = Some session
           /\ bodySchema_safeParse (body (demoRequest "Hi.")) = Some (fragment, lang)
           /\ sessions (uploadTranscript offline (demoRequest "Hi.")
                          {| sessions := {[ lit "s1" := fresh (lit "g1") ]};
                             groups := {[ lit "g1" := [lit "u1"] ]};
                             failures := [false; false; false; true];
                             trace := [] |}).2 !! lit "s1" = Some stored
           /\ summaryStatus stored = Some (lit "pending")
           /\ transcript stored = Some (mergeTranscript (transcript session) fragment)
           /\ summary stored = summary session).
Proof.
  exact (failure_leaves_pending_or_nothing offline (demoRequest "Hi.")
           {| sessions := {[ lit "s1" := fresh (lit "g1") ]};
              groups := {[ lit "g1" := [lit "u1"] ]};
              failures := [false; false; false; true];
              trace := [] |}
           (message 500 "Failed to save transcript") eq_refl eq_refl).
Defined.

(** X13. When the remote summariser returns a summary, an accepted
    submission answers with it and stores it; the extractive summary is not
    used. *)
Theorem remote_summary_persisted e req w session fragment lang text :
  authorized req w session ->
  bodySchema_safeParse (body req) = Some (fragment, lang) ->
  storeUp w ->
  summarizeWithGemini e (mergeTranscript (transcript session) fragment)
  = Normal (Some text) ->
  let stored := sessions (uploadTranscript e req w).2 !! params_sessionId req in
  (uploadTranscript e req w).1 = Normal (saved text)
  /\ summary <$> stored = Some (Some text)
  /\ summaryStatus <$> stored = Some (Some (lit "completed"))
  /\ text <> [].
Proof.
  intros Hauth Hparse Hup Hsome. cbn zeta.
  destruct (uploadTranscript_accepted e req w session fragment lang Hauth Hparse Hup)
    as (llm & Hllm & Hne & Hc & _ & Hs & _).
  rewrite Hsome in Hllm. injection Hllm as <-.
  assert (orExtractive (Some text)
            (mergeTranscript (transcript session) fragment) = text) as Htext.
  { destruct text; [done|]. reflexivity. }
  rewrite Htext in Hc, Hs.
  split; [exact Hc|]. rewrite Hs, lookup_insert_eq.
  repeat split. by intros ->.
Qed.

Lemma remote_summary_persisted_witness :
  (uploadTranscript (online " - Notes ") (demoRequest "Hi there. Bye")
     (demoWorld (fresh (lit "g1")))).1
  = Normal (saved (lit "- Notes")).
Proof.
  refine (proj1 (remote_summary_persisted (online " - Notes ")
                   (demoRequest "Hi there. Bye")
                   (demoWorld (fresh (lit "g1"))) (fresh (lit "g1"))
                   (lit "Hi there. Bye") None (lit "- Notes") _ eq_refl _ eq_refl)).
  - exists {| id := lit "u1" |}, [lit "u1"]. repeat split.
    apply list_elem_of_here.
  - constructor.
Defined.

(** X14. A submission for one session leaves every other session and every
    group as they are, and never moves the session to another group, however
    the run ends. *)
Theorem uploadTranscript_frame e req w :
  let w' := (uploadTranscript e req w).2 in
  groups w' = groups w
  /\ (forall other, other <> params_sessionId req ->
        sessions w' !! other = sessions w !! other)
  /\ (groupId <$> sessions w' !! params_sessionId req)
     = (groupId <$> sessions w !! params_sessionId req).
Proof.
  cbn zeta. destruct (uploadTranscript_run e req w) as [Hg Hrun].
  split; [exact Hg|].
  destruct Hrun as [(_ & -> & _)|(session & fragment & lang & llm & Hs & _ & _ & _ & Hcases)];
    [done|].
  cbn zeta in Hcases.
  destruct Hcases as [(_ & _ & ->)|(_ & _ & ->)]; split.
  - intros other Hne. by rewrite lookup_insert_ne.
  - by rewrite lookup_insert_eq, Hs.
  - intros other Hne. by rewrite !lookup_insert_ne.
  - by rewrite lookup_insert_eq, Hs.
Qed.

(** X15. The stored transcript only grows: after any run the transcript of
    the session is what it was, or what it was followed by more text that
    ends with the fragment of the request, which is not empty; no run shortens
    or rewrites it. *)
Theorem transcript_only_grows e req w session :
  sessions w !! params_sessionId req = Some session ->
  exists stored,
    sessions (uploadTranscript e req w).2 !! params_sessionId req = Some stored
    /\ (transcript stored = transcript session
        \/ exists fragment lang added,
             bodySchema_safeParse (body req) = Some (fragment, lang)
             /\ fragment <> []
             /\ (added = fragment \/ added = [10] ++ fragment)
             /\ transcript stored
                = Some (default [] (transcript session) ++ added)).
Proof.
  intros Hs.
  destruct (uploadTranscript_run e req w) as [_ Hrun].
  destruct Hrun as [(_ & -> & _)|(session' & fragment & lang & llm & Hs' & Hparse & _ & _ & Hcases)].
  { exists session. split; [done|]. by left. }
  assert (session' = session) as -> by congruence.
  pose proof (bodySchema_fragment _ _ _ Hparse) as Hne.
  cbn zeta in Hcases.
  assert (exists added,
            (added = fragment \/ added = [10] ++ fragment)
            /\ mergeTranscript (transcript session) fragment
               = default [] (transcript session) ++ added) as (added & Hsep & Hadd).
  { destruct (transcript session) as [[|c r]|]; simpl.
    - exists fragment. split; [by left|done].
    - exists ([10] ++ fragment). split; [by right|done].
    - exists fragment. split; [by left|done]. }
  destruct Hcases as [(_ & _ & ->)|(_ & _ & ->)];
    rewrite lookup_insert_eq; eexists; (split; [reflexivity|]);
    right; exists fragment, lang, added; simpl; rewrite Hadd; by repeat split.
Qed.

Lemma transcript_only_grows_witness :
  exists stored,
    sessions (uploadTranscript offline (demoRequest "More.")
                (demoWorld (markCompleted (lit "Hi.")
                              (markPending (lit "Hi.") None (fresh (lit "g1")))))).2
    !! lit "s1" = Some stored
    /\ (transcript stored = Some (lit "Hi.")
        \/ exists fragment lang added,
             bodySchema_safeParse (body (demoRequest "More.")) = Some (fragment, lang)
             /\ fragment <> []
             /\ (added = fragment \/ added = [10] ++ fragment)
             /\ transcript stored = Some (lit "Hi." ++ added)).
Proof.
  exact (transcript_only_grows offline (demoRequest "More.")
           (demoWorld (markCompleted (lit "Hi.")
                         (markPending (lit "Hi.") None (fresh (lit "g1")))))
           _ eq_refl).
Defined.

Lemma join_merge sep (a b : jsstring) (r : list jsstring) :
  join sep ((a ++ sep ++ b) :: r) = a ++ sep ++ join sep (b :: r).
Proof. destruct r as [|y r']; simpl; [done|]. by rewrite <- !app_assoc. Qed.

Lemma merge_fold (fragments : list jsstring) :
  Forall (fun f => f <> []) fragments ->
  forall t, t <> [] ->
    fold_left (fun stored f => Some (mergeTranscript stored f)) fragments (Some t)
    = Some (join [10] (t :: fragments)).
Proof.
  induction 1 as [|f fs Hf _ IH]; intros t Ht; [done|]. cbn [fold_left].
  assert (mergeTranscript (Some t) f = t ++ [10] ++ f) as -> by (by destruct t).
  rewrite IH by (by destruct t). by rewrite join_merge.
Qed.

Lemma submitAll_transcript (steps : list (env * Request)) (fragments : list jsstring)
    sid members :
  Forall2 (fun step fragment => memberRequest sid members step.2 fragment)
          steps fragments ->
  forall w session,
    sessions w !! sid = Some session ->
    groups w !! groupId session = Some members ->
    storeUp w ->
    exists stored,
      sessions (submitAll steps w) !! sid = Some stored
      /\ transcript stored
         = fold_left (fun t f => Some (mergeTranscript t f)) fragments (transcript session)
      /\ (fragments <> [] -> summaryStatus stored = Some (lit "completed")).
Proof.
  induction 1 as [|[e req] fragment steps fragments Hreq Hrest IH];
    intros w session Hs Hg Hup.
  - exists session. by repeat split.
  - destruct Hreq as (Hsid & (u & Hu & Hin) & lang & Hparse). simpl in *.
    assert (authorized req w session) as Hauth.
    { exists u, members. by rewrite Hsid. }
    destruct (uploadTranscript_accepted e req w session fragment lang Hauth Hparse Hup)
      as (llm & _ & _ & _ & _ & Hs' & Hg').
    cbn zeta in Hs'. rewrite Hsid in Hs'.
    set (stored := markCompleted _ _) in Hs'.
    destruct (IH (uploadTranscript e req w).2 stored) as (final & Hf & Ht & Hst).
    + by rewrite Hs', lookup_insert_eq.
    + by rewrite Hg'.
    + by apply storeUp_after.
    + exists final. split; [exact Hf|]. split; [exact Ht|]. intros _.
      destruct fragments as [|f fs]; [|by apply Hst].
      apply Forall2_nil_inv_r in Hrest as ->. simpl in Hf.
      rewrite Hs', lookup_insert_eq in Hf. by injection Hf as <-.
Qed.

(** X16. Submissions compose: after accepted submissions of the fragments
    [f1 ... fn] (n >= 1) to a session without transcript, while the store
    works, the stored transcript is [f1], a newline, ..., a newline, [fn], and
    the status is "completed"; submitting a fragment twice stores it twice. *)
Theorem transcript_after_submissions (steps : list (env * Request))
    (fragments : list jsstring) w sid session members :
  sessions w !! sid = Some session ->
  groups w !! groupId session = Some members ->
  storeUp w ->
  absent (transcript session) ->
  Forall2 (fun step fragment => memberRequest sid members step.2 fragment)
          steps fragments ->
  fragments <> [] ->
  exists stored,
    sessions (submitAll steps w) !! sid = Some stored
    /\ transcript stored = Some (join [10] fragments)
    /\ summaryStatus stored = Some (lit "completed").
Proof.
  intros Hs Hg Hup Habs Hall Hne.
  destruct (submitAll_transcript steps fragments sid members Hall w session Hs Hg Hup)
    as (stored & Hf & Ht & Hst).
  exists stored. split; [exact Hf|]. split; [|by apply Hst].
  rewrite Ht.
  assert (Forall (fun f => f <> []) fragments) as Hfs.
  { clear -Hall. induction Hall as [|step f steps fs Hreq _ IH]; constructor; [|done].
    destruct Hreq as (_ & _ & lang & Hparse). by eapply bodySchema_fragment. }
  destruct fragments as [|f fs]; [done|].
  apply Forall_cons in Hfs as [Hf1 Hfs]. cbn [fold_left].
  assert (mergeTranscript (transcript session) f = f) as ->
    by (by destruct Habs as [-> | ->]).
  by apply merge_fold.
Qed.

Lemma transcript_after_submissions_witness :
  exists stored,
    sessions (submitAll [(offline, demoRequest "Hi."); (offline, demoRequest "Hi.")]
                (demoWorld (fresh (lit "g1")))) !! lit "s1" = Some stored
    /\ transcript stored = Some (lit "Hi." ++ [10] ++ lit "Hi.")
    /\ summaryStatus stored = Some (lit "completed").
Proof.
  apply (transcript_after_submissions
           [(offline, demoRequest "Hi."); (offline, demoRequest "Hi.")]
           [lit "Hi."; lit "Hi."] (demoWorld (fresh (lit "g1"))) (lit "s1")
           (fresh (lit "g1")) [lit "u1"]);
    [reflexivity|reflexivity|constructor|by left| |discriminate].
  repeat constructor; try (by exists None);
    exists {| id := lit "u1" |}; (split; [reflexivity|apply list_elem_of_here]).
Defined.

Lemma mergeTranscript_nonempty existing fragment :
  fragment <> [] -> mergeTranscript existing fragment <> [].
Proof. intros H. by destruct existing as [[|c r]|]. Qed.

(** X17. Reading after writing: after an accepted submission, while the
    store works, [getSummary] by a member answers 200 with the merged
    transcript, the status "completed" and the summary that the submission
    returned, or [null] in its place when that summary is the empty
    string. *)
Theorem getSummary_after_upload e req reader w session fragment lang :
  authorized req w session ->
  authorized reader w session ->
  params_sessionId reader = params_sessionId req ->
  bodySchema_safeParse (body req) = Some (fragment, lang) ->
  storeUp w ->
  exists text,
    (uploadTranscript e req w).1 = Normal (saved text)
    /\ (getSummary reader (uploadTranscript e req w).2).1
       = Normal
           {| status := 200;
              payload :=
                JObject
                  [(lit "transcript",
                    JString (mergeTranscript (transcript session) fragment));
                   (lit "summary",
                    match text with [] => JNull | _ :: _ => JString text end);
                   (lit "status", JString (lit "completed"));
                   (lit "lang",
                    orNull (match lang with
                            | Some l => Some l
                            | None => transcriptLang session
                            end))] |}.
Proof.
  intros Hauth Hreader Hsid Hparse Hup.
  destruct (uploadTranscript_accepted e req w session fragment lang Hauth Hparse Hup)
    as (llm & _ & _ & Hr & _ & Hs & _).
  cbn zeta in Hr, Hs.
  set (merged := mergeTranscript (transcript session) fragment) in *.
  set (text := orExtractive llm merged) in *.
  exists text. split; [exact Hr|].
  set (stored := markCompleted text (markPending merged lang session)).
  assert (authorized reader (uploadTranscript e req w).2 stored) as Hauth'.
  { apply (authorized_after e req reader w session stored Hreader); [|done].
    by rewrite Hs, Hsid, lookup_insert_eq. }
  destruct (getSummary_run reader (uploadTranscript e req w).2) as (_ & _ & _ & Hview).
  rewrite (Hview stored Hauth' (storeUp_after e req w Hup)).
  unfold summaryView. simpl.
  pose proof (mergeTranscript_nonempty (transcript session) fragment
                (bodySchema_fragment _ _ _ Hparse)) as Hne.
  fold merged in Hne. destruct merged as [|m ms]; [done|].
  by destruct text.
Qed.

Lemma getSummary_after_upload_witness :
  exists text,
    (uploadTranscript offline (demoRequest " ") (demoWorld (fresh (lit "g1")))).1
    = Normal (saved text)
    /\ (getSummary (demoRequest "")
          (uploadTranscript offline (demoRequest " ") (demoWorld (fresh (lit "g1")))).2).1
       = Normal
           {| status := 200;
              payload :=
                JObject
                  [(lit "transcript", JString (lit " "));
                   (lit "summary", match text with [] => JNull | _ :: _ => JString text end);
                   (lit "status", JString (lit "completed"));
                   (lit "lang", JNull)] |}.
Proof.
  assert (forall fragment,
            authorized (demoRequest fragment) (demoWorld (fresh (lit "g1")))
              (fresh (lit "g1"))) as Hauth.
  { intros fragment. exists {| id := lit "u1" |}, [lit "u1"]. repeat split.
    apply list_elem_of_here. }
  exact (getSummary_after_upload offline (demoRequest " ") (demoRequest "")
           (demoWorld (fresh (lit "g1"))) (fresh (lit "g1")) (lit " ") None
           (Hauth " ") (Hauth "") eq_refl eq_refl (Forall_nil_2 _)).
Defined.

(** X18. [getSummary] answers 401 without a user, before the store is
    touched; while the store works it answers 404 for a session that does not
    exist and 403 to a user outside the group of the session; and 500 when the
    first call of the store fails. *)
Theorem getSummary_rejections req w :
  (user req = None -> getSummary req w = (Normal (message 401 "Unauthorized"), w))
  /\ (storeUp w -> user req <> None -> sessions w !! params_sessionId req = None ->
      (getSummary req w).1 = Normal (message 404 "Session not found"))
  /\ (forall u session,
        storeUp w -> user req = Some u ->
        sessions w !! params_sessionId req = Some session ->
        (forall members, groups w !! groupId session = Some members -> id u ∉ members) ->
        (getSummary req w).1 = Normal (message 403 "Forbidden"))
  /\ (forall rest,
        user req <> None -> failures w = true :: rest ->
        (getSummary req w).1 = Normal (message 500 "Failed to fetch summary")).
Proof.
  unfold getSummary, tryCatchM, bind, ret. repeat split.
  - by intros ->.
  - intros Hup Hu Hs. destruct (user req) as [u|]; [|done].
    destruct (session_findUnique (params_sessionId req) w) as [c1 w1] eqn:E1.
    apply read_spec in E1 as (S1 & _ & _ & _ & [[-> Hdown] | ->]); [done|].
    by rewrite S1, Hs.
  - intros u session Hup Hu Hs Hout. rewrite Hu.
    destruct (session_findUnique (params_sessionId req) w) as [c1 w1] eqn:E1.
    apply read_spec in E1 as (S1 & G1 & _ & U1 & [[-> Hdown] | ->]); [done|].
    rewrite S1, Hs.
    destruct (group_findFirst (groupId session) (id u) w1) as [c2 w2] eqn:E2.
    apply read_spec in E2 as (_ & G2 & _ & _ & [[-> Hdown] | ->]); [tauto|].
    rewrite G2, G1.
    destruct (groups w !! groupId session) as [members|] eqn:Hg; [|done].
    destruct (decide (id u ∈ members)) as [Hin|?]; [|done].
    by destruct (Hout members eq_refl).
  - intros rest Hu Hf. destruct (user req) as [u|]; [|done].
    unfold session_findUnique, dbCall. by rewrite Hf.
Qed.

(** ** The store with all columns *)

Lemma row_findUnique_spec sid d c d' :
  row_findUnique sid d = (c, d') ->
  details d' = details d
  /\ sessions (world d') = sessions (world d)
  /\ groups (world d') = groups (world d)
  /\ trace (world d') = trace (world d)
  /\ (storeUp (world d) -> storeUp (world d'))
  /\ ((c = Throw /\ ~ storeUp (world d))
      \/ c = Normal match sessions (world d) !! sid, details d !! sid with
                    | Some s, Some x => Some (sid, s, x)
                    | _, _ => None
                    end).
Proof.
  unfold row_findUnique, bindH, liftW.
  destruct (session_findUnique sid (world d)) as [c1 w1] eqn:E1.
  apply read_spec in E1 as (S1 & G1 & T1 & U1 & [[-> Hdown] | ->]).
  - intros [= <- <-]. simpl. repeat split; auto.
  - intros [= <- <-]. simpl. repeat split; auto. right. by rewrite S1.
Qed.

Lemma member_findFirst_spec group uid d c d' :
  member_findFirst group uid d = (c, d') ->
  details d' = details d
  /\ sessions (world d') = sessions (world d)
  /\ groups (world d') = groups (world d)
  /\ trace (world d') = trace (world d)
  /\ (storeUp (world d) -> storeUp (world d'))
  /\ ((c = Throw /\ ~ storeUp (world d))
      \/ c = Normal match groups (world d) !! group with
                    | Some memberIds =>
                        if decide (uid ∈ memberIds) then Some memberIds else None
                    | None => None
                    end).
Proof.
  unfold member_findFirst, liftW.
  destruct (group_findFirst group uid (world d)) as [c1 w1] eqn:E1.
  apply read_spec in E1 as (S1 & G1 & T1 & U1 & [[-> Hdown] | ->]).
  - intros [= <- <-]. simpl. repeat split; auto.
  - intros [= <- <-]. simpl. repeat split; auto. right. by rewrite G1.
Qed.

Lemma row_update_spec sid data d c d' :
  row_update sid data d = (c, d') ->
  sessions (world d') = sessions (world d)
  /\ groups (world d') = groups (world d)
  /\ (storeUp (world d) -> storeUp (world d'))
  /\ ((c = Throw /\ details d' = details d
       /\ (~ storeUp (world d) \/ sessions (world d) !! sid = None
           \/ details d !! sid = None))
      \/ exists s x,
           sessions (world d) !! sid = Some s /\ details d !! sid = Some x
           /\ c = Normal (sid, s, data x)
           /\ details d' = <[sid := data x]> (details d)).
Proof.
  unfold row_update, bindH, liftW.
  destruct (session_update sid (fun s => s) (world d)) as [c1 w1] eqn:E1.
  apply session_update_spec in E1
    as (G1 & U1 & [(-> & S1 & T1 & Hwhy)|(old & Hold & -> & S1 & T1)]).
  - intros [= <- <-]. simpl. repeat split; auto. left. repeat split; auto. tauto.
  - simpl. rewrite S1, lookup_insert_eq.
    destruct (details d !! sid) as [x|] eqn:Hx; intros [= <- <-]; simpl.
    + repeat split; auto; [by rewrite S1, insert_id|]. right. by exists old, x.
    + repeat split; auto; [by rewrite S1, insert_id|]. left. repeat split; auto.
Qed.

(** Every run of [startSession] or [endSession], with what it does to the
    further columns. *)
Lemma startSession_run now req d :
  let sid := params_sessionId req in
  let r := (startSession now req d).1 in
  let d' := (startSession now req d).2 in
  sessions (world d') = sessions (world d)
  /\ groups (world d') = groups (world d)
  /\ (storeUp (world d) -> storeUp (world d'))
  /\ exists reply,
       r = Normal reply
       /\ ((details d' = details d /\ codeOf reply <> 200%nat
            /\ (storeUp (world d) ->
                match user req with
                | None => reply = Message 401 "Unauthorized"
                | Some u =>
                    match sessions (world d) !! sid, details d !! sid with
                    | Some s, Some x =>
                        if decide (creatorID x = id u) then
                          isStarted x = true
                          /\ reply = Message 400 "Session already started"
                        else reply = Message 403 "Only session creator can start the session"
                    | _, _ => reply = Message 404 "Session not found"
                    end
                end))
           \/ exists u s x,
                user req = Some u
                /\ sessions (world d) !! sid = Some s /\ details d !! sid = Some x
                /\ creatorID x = id u /\ isStarted x = false
                /\ reply = MessageRow 200 "Session started successfully"
                             (sid, s, markStarted now x)
                /\ details d' = <[sid := markStarted now x]> (details d)).
Proof.
  cbn zeta. unfold startSession, tryCatchH, bindH, retH.
  destruct (user req) as [u|] eqn:Hu; simpl; [|by refused].
  destruct (row_findUnique (params_sessionId req) d) as [c1 d1] eqn:E1.
  apply row_findUnique_spec in E1 as (D1 & S1 & G1 & T1 & U1 & [[-> Hdown] | ->]); simpl.
  { refused. tauto. }
  destruct (sessions (world d) !! params_sessionId req) as [s|] eqn:Hs;
    [|simpl; by refused].
  destruct (details d !! params_sessionId req) as [x|] eqn:Hx;
    [|simpl; by refused].
  simpl. destruct (decide (creatorID x = id u)) as [Hc|Hc]; simpl; [|by refused].
  destruct (isStarted x) eqn:Hst; simpl; [by refused|].
  destruct (row_update (params_sessionId req) (markStarted now) d1) as [c2 d2] eqn:E2.
  apply row_update_spec in E2
    as (S2 & G2 & U2 & [(-> & D2 & Hwhy)|(s' & x' & Hs' & Hx' & -> & D2)]); simpl.
  - refused. intros Hup. exfalso.
    destruct Hwhy as [?|[?|?]]; [tauto|congruence|congruence].
  - split; [congruence|]. split; [congruence|]. split; [tauto|].
    eexists. split; [reflexivity|]. right.
    assert (s' = s) as -> by congruence. assert (x' = x) as -> by congruence.
    exists u, s, x. repeat split; try done. congruence.
Qed.

Lemma endSession_run now req d :
  let sid := params_sessionId req in
  let r := (endSession now req d).1 in
  let d' := (endSession now req d).2 in
  sessions (world d') = sessions (world d)
  /\ groups (world d') = groups (world d)
  /\ (storeUp (world d) -> storeUp (world d'))
  /\ exists reply,
       r = Normal reply
       /\ ((details d' = details d /\ codeOf reply <> 200%nat
            /\ (storeUp (world d) ->
                match user req with
                | None => reply = Message 401 "Unauthorized"
                | Some u =>
                    match sessions (world d) !! sid, details d !! sid with
                    | Some s, Some x =>
                        if decide (creatorID x = id u) then
                          if isStarted x then
                            endedAt x <> None
                            /\ reply = Message 400 "Session already ended"
                          else reply = Message 400 "Session hasn't started yet"
                        else reply = Message 403 "Only session creator can end the session"
                    | _, _ => reply = Message 404 "Session not found"
                    end
                end))
           \/ exists u s x,
                user req = Some u
                /\ sessions (world d) !! sid = Some s /\ details d !! sid = Some x
                /\ creatorID x = id u /\ isStarted x = true /\ endedAt x = None
                /\ reply = MessageRow 200 "Session ended successfully"
                             (sid, s, markEnded now x)
                /\ details d' = <[sid := markEnded now x]> (details d)).
Proof.
  cbn zeta. unfold endSession, tryCatchH, bindH, retH.
  destruct (user req) as [u|] eqn:Hu; simpl; [|by refused].
  destruct (row_findUnique (params_sessionId req) d) as [c1 d1] eqn:E1.
  apply row_findUnique_spec in E1 as (D1 & S1 & G1 & T1 & U1 & [[-> Hdown] | ->]); simpl.
  { refused. tauto. }
  destruct (sessions (world d) !! params_sessionId req) as [s|] eqn:Hs;
    [|simpl; by refused].
  destruct (details d !! params_sessionId req) as [x|] eqn:Hx;
    [|simpl; by refused].
  simpl. destruct (decide (creatorID x = id u)) as [Hc|Hc]; simpl; [|by refused].
  destruct (isStarted x) eqn:Hst; simpl; [|by refused].
  destruct (endedAt x) as [t|] eqn:Hend; simpl; [by refused|].
  destruct (row_update (params_sessionId req) (markEnded now) d1) as [c2 d2] eqn:E2.
  apply row_update_spec in E2
    as (S2 & G2 & U2 & [(-> & D2 & Hwhy)|(s' & x' & Hs' & Hx' & -> & D2)]); simpl.
  - refused. intros Hup. exfalso.
    destruct Hwhy as [?|[?|?]]; [tauto|congruence|congruence].
  - split; [congruence|]. split; [congruence|]. split; [tauto|].
    eexists. split; [reflexivity|]. right.
    assert (s' = s) as -> by congruence. assert (x' = x) as -> by congruence.
    exists u, s, x. repeat split; try done. congruence.
Qed.

(** ** Starting and ending a session *)

(** X19. While the store works, [startSession] on an existing session
    answers 403 to everyone but the creator of the session, 400 to the creator
    when the session is already started, and otherwise marks the session
    started at the time of the call and answers 200 with the updated record;
    a refusal changes nothing. *)
Theorem startSession_outcomes now req d u s x :
  storeUp (world d) ->
  user req = Some u ->
  sessions (world d) !! params_sessionId req = Some s ->
  details d !! params_sessionId req = Some x ->
  let r := (startSession now req d).1 in
  let d' := (startSession now req d).2 in
  (creatorID x <> id u ->
   r = Normal (Message 403 "Only session creator can start the session")
   /\ details d' = details d)
  /\ (creatorID x = id u -> isStarted x = true ->
      r = Normal (Message 400 "Session already started") /\ details d' = details d)
  /\ (creatorID x = id u -> isStarted x = false ->
      r = Normal (MessageRow 200 "Session started successfully"
                    (params_sessionId req, s, markStarted now x))
      /\ details d' = <[params_sessionId req := markStarted now x]> (details d)).
Proof.
  intros Hup Hu Hs Hx. cbn zeta.
  destruct (startSession_run now req d)
    as (_ & _ & _ & reply & -> &
        [(Hd & _ & Hreply)|(u' & s' & x' & Hu' & Hs' & Hx' & Hc & Hst & -> & Hd)]).
  - specialize (Hreply Hup). rewrite Hu, Hs, Hx in Hreply.
    destruct (decide (creatorID x = id u)) as [Hc|Hc].
    + destruct Hreply as [Hst ->]. repeat split; try done; congruence.
    + subst reply. repeat split; try done.
  - assert (x' = x) as -> by congruence. assert (s' = s) as -> by congruence.
    assert (u' = u) as -> by congruence.
    repeat split; try done; congruence.
Qed.

(** X20. While the store works, [endSession] on an existing session
    answers 403 to everyone but the creator, 400 when the session has not
    started, 400 when it has already ended, and otherwise stores the time of
    the call as the end and answers 200; a refusal changes nothing. *)
Theorem endSession_outcomes now req d u s x :
  storeUp (world d) ->
  user req = Some u ->
  sessions (world d) !! params_sessionId req = Some s ->
  details d !! params_sessionId req = Some x ->
  let r := (endSession now req d).1 in
  let d' := (endSession now req d).2 in
  (creatorID x <> id u ->
   r = Normal (Message 403 "Only session creator can end the session")
   /\ details d' = details d)
  /\ (creatorID x = id u -> isStarted x = false ->
      r = Normal (Message 400 "Session hasn't started yet") /\ details d' = details d)
  /\ (creatorID x = id u -> isStarted x = true -> endedAt x <> None ->
      r = Normal (Message 400 "Session already ended") /\ details d' = details d)
  /\ (creatorID x = id u -> isStarted x = true -> endedAt x = None ->
      r = Normal (MessageRow 200 "Session ended successfully"
                    (params_sessionId req, s, markEnded now x))
      /\ details d' = <[params_sessionId req := markEnded now x]> (details d)).
Proof.
  intros Hup Hu Hs Hx. cbn zeta.
  destruct (endSession_run now req d)
    as (_ & _ & _ & reply & -> &
        [(Hd & _ & Hreply)|(u' & s' & x' & Hu' & Hs' & Hx' & Hc & Hst & Hend & -> & Hd)]).
  - specialize (Hreply Hup). rewrite Hu, Hs, Hx in Hreply.
    destruct (decide (creatorID x = id u)) as [Hc|Hc].
    + destruct (isStarted x) eqn:Hst.
      * destruct Hreply as [Hend ->]. repeat split; try done; congruence.
      * subst reply. repeat split; try done; congruence.
    + subst reply. repeat split; try done.
  - assert (x' = x) as -> by congruence. assert (s' = s) as -> by congruence.
    assert (u' = u) as -> by congruence.
    repeat split; try done; congruence.
Qed.

Lemma startSession_outcomes_witness :
  (startSession 1000 (demoRequest "") (demoDb (demoDetails false None None))).1
  = Normal (MessageRow 200 "Session started successfully"
              (lit "s1", fresh (lit "g1"), demoDetails true (Some 1000%Z) None)).
Proof.
  refine (proj1 (proj2 (proj2 (startSession_outcomes 1000 (demoRequest "")
                   (demoDb (demoDetails false None None)) {| id := lit "u1" |}
                   (fresh (lit "g1")) (demoDetails false None None)
                   _ eq_refl eq_refl eq_refl)) eq_refl eq_refl)).
  constructor.
Defined.

Lemma endSession_outcomes_witness :
  (endSession 2000 (demoRequest "") (demoDb (demoDetails false None None))).1
  = Normal (Message 400 "Session hasn't started yet").
Proof.
  refine (proj1 (proj1 (proj2 (endSession_outcomes 2000 (demoRequest "")
                   (demoDb (demoDetails false None None)) {| id := lit "u1" |}
                   (fresh (lit "g1")) (demoDetails false None None)
                   _ eq_refl eq_refl eq_refl)) eq_refl eq_refl)).
  constructor.
Defined.

(** X21. Starting and ending only move a session forward: after any run of
    [startSession] or [endSession], whatever the request and the store, every
    session is still there with its creator; a started session stays started
    with the same start time; an end time once stored is kept; and a session
    that has an end time is started, if that held before. *)
Theorem lifecycle_moves_forward now req d d' :
  d' = (startSession now req d).2 \/ d' = (endSession now req d).2 ->
  forall sid x,
    details d !! sid = Some x ->
    exists x',
      details d' !! sid = Some x'
      /\ creatorID x' = creatorID x
      /\ (isStarted x = true -> isStarted x' = true /\ startedAt x' = startedAt x)
      /\ (forall t, endedAt x = Some t -> endedAt x' = Some t)
      /\ ((endedAt x <> None -> isStarted x = true) ->
          endedAt x' <> None -> isStarted x' = true).
Proof.
  intros Hrun sid x Hx.
  assert (details d' = details d
          \/ exists sid0 x0 x0',
               details d !! sid0 = Some x0
               /\ details d' = <[sid0 := x0']> (details d)
               /\ creatorID x0' = creatorID x0
               /\ ((isStarted x0 = false /\ isStarted x0' = true
                    /\ endedAt x0' = endedAt x0)
                   \/ (isStarted x0 = true /\ endedAt x0 = None
                       /\ isStarted x0' = true /\ startedAt x0' = startedAt x0)))
    as [->|(sid0 & x0 & x0' & Hx0 & -> & Hc & Hcases)].
  { destruct Hrun as [-> | ->].
    - destruct (startSession_run now req d)
        as (_ & _ & _ & reply & _ & [(Hd & _)|(u & s & x0 & _ & _ & Hx0 & _ & Hst & _ & Hd)]);
        [by left|].
      right. exists (params_sessionId req), x0, (markStarted now x0).
      repeat split; try done. by left.
    - destruct (endSession_run now req d)
        as (_ & _ & _ & reply & _ &
            [(Hd & _)|(u & s & x0 & _ & _ & Hx0 & _ & Hst & Hend & _ & Hd)]);
        [by left|].
      right. exists (params_sessionId req), x0, (markEnded now x0).
      repeat split; try done. by right. }
  - exists x. by repeat split.
  - destruct (decide (sid0 = sid)) as [->|Hne].
    + assert (x0 = x) as -> by congruence.
      exists x0'. rewrite lookup_insert_eq. split; [done|]. split; [done|].
      destruct Hcases as [(Hst & Hst' & Hend)|(Hst & Hend & Hst' & Hat)].
      * repeat split; try congruence.
      * repeat split; try congruence.
    + exists x. rewrite lookup_insert_ne by done. by repeat split.
Qed.

Lemma lifecycle_moves_forward_witness :
  exists x',
    details (endSession 2000 (demoRequest "")
               (demoDb (demoDetails true (Some 1000%Z) None))).2 !! lit "s1" = Some x'
    /\ creatorID x' = lit "u1".
Proof.
  destruct (lifecycle_moves_forward 2000 (demoRequest "")
              (demoDb (demoDetails true (Some 1000%Z) None)) _ (or_intror eq_refl)
              (lit "s1") (demoDetails true (Some 1000%Z) None) eq_refl)
    as (x' & H1 & H2 & _).
  by exists x'.
Defined.

(** X22. The life of a session: when its creator starts a session that is
    not started and then ends it, while the store works, both calls answer
    200 and the record holds the two times; after that, starting it again is
    answered 400 "already started" and ending it again 400 "already ended",
    and the two times stay. *)
Theorem start_then_end t1 t2 t3 req d u s x :
  storeUp (world d) ->
  user req = Some u ->
  sessions (world d) !! params_sessionId req = Some s ->
  details d !! params_sessionId req = Some x ->
  creatorID x = id u ->
  isStarted x = false ->
  endedAt x = None ->
  let d1 := (startSession t1 req d).2 in
  let d2 := (endSession t2 req d1).2 in
  let final := markEnded t2 (markStarted t1 x) in
  (startSession t1 req d).1
  = Normal (MessageRow 200 "Session started successfully"
              (params_sessionId req, s, markStarted t1 x))
  /\ (endSession t2 req d1).1
     = Normal (MessageRow 200 "Session ended successfully"
                 (params_sessionId req, s, final))
  /\ details d2 !! params_sessionId req = Some final
  /\ isStarted final = true /\ startedAt final = Some t1 /\ endedAt final = Some t2
  /\ (startSession t3 req d2).1 = Normal (Message 400 "Session already started")
  /\ (endSession t3 req d2).1 = Normal (Message 400 "Session already ended")
  /\ details (startSession t3 req d2).2 = details d2
  /\ details (endSession t3 req d2).2 = details d2.
Proof.
  intros Hup Hu Hs Hx Hc Hst Hend. cbn zeta.
  destruct (startSession_run t1 req d)
    as (S1 & _ & U1 & r1 & -> &
        [(_ & _ & Hr)|(u1 & s1 & x1 & Hu1 & Hs1 & Hx1 & _ & _ & -> & D1)]).
  { exfalso. specialize (Hr Hup). rewrite Hu, Hs, Hx in Hr.
    destruct (decide (creatorID x = id u)); [|done]. destruct Hr as [? _]. congruence. }
  assert (x1 = x) as -> by congruence. assert (s1 = s) as -> by congruence.
  split; [done|].
  set (d1 := (startSession t1 req d).2) in *.
  assert (details d1 !! params_sessionId req = Some (markStarted t1 x)) as Hx1'
    by (by rewrite D1, lookup_insert_eq).
  assert (sessions (world d1) !! params_sessionId req = Some s) as Hs1'
    by (by rewrite S1).
  destruct (endSession_run t2 req d1)
    as (S2 & _ & U2 & r2 & -> &
        [(_ & _ & Hr)|(u2 & s2 & x2 & Hu2 & Hs2 & Hx2 & _ & _ & _ & -> & D2)]).
  { exfalso. specialize (Hr (U1 Hup)). rewrite Hu, Hs1', Hx1' in Hr. simpl in Hr.
    destruct (decide (creatorID x = id u)); [|done]. destruct Hr as [? _]. simpl in *.
    congruence. }
  assert (x2 = markStarted t1 x) as -> by congruence.
  assert (s2 = s) as -> by congruence.
  split; [done|].
  set (d2 := (endSession t2 req d1).2) in *.
  assert (details d2 !! params_sessionId req = Some (markEnded t2 (markStarted t1 x)))
    as Hx2' by (by rewrite D2, lookup_insert_eq).
  assert (sessions (world d2) !! params_sessionId req = Some s) as Hs2'
    by (by rewrite S2).
  split; [done|]. do 3 (split; [done|]).
  destruct (startSession_run t3 req d2)
    as (_ & _ & _ & r3 & -> &
        [(D3 & _ & Hr)|(u3 & s3 & x3 & _ & _ & Hx3 & _ & Hst3 & _)]).
  2: { exfalso. rewrite Hx2' in Hx3. injection Hx3 as <-. simpl in Hst3. done. }
  specialize (Hr (U2 (U1 Hup))). rewrite Hu, Hs2', Hx2' in Hr. simpl in Hr.
  destruct (decide (creatorID x = id u)); [|done]. destruct Hr as [_ ->].
  destruct (endSession_run t3 req d2)
    as (_ & _ & _ & r4 & -> &
        [(D4 & _ & Hr)|(u4 & s4 & x4 & _ & _ & Hx4 & _ & _ & Hend4 & _)]).
  2: { exfalso. rewrite Hx2' in Hx4. injection Hx4 as <-. simpl in Hend4. done. }
  specialize (Hr (U2 (U1 Hup))). rewrite Hu, Hs2', Hx2' in Hr. simpl in Hr.
  destruct (decide (creatorID x = id u)); [|done]. destruct Hr as [_ ->].
  done.
Qed.

Lemma start_then_end_witness :
  (endSession 2000 (demoRequest "")
     (startSession 1000 (demoRequest "") (demoDb (demoDetails false None None))).2).1
  = Normal (MessageRow 200 "Session ended successfully"
              (lit "s1", fresh (lit "g1"),
               demoDetails true (Some 1000%Z) (Some 2000%Z))).
Proof.
  refine (proj1 (proj2 (start_then_end 1000 2000 3000 (demoRequest "")
                   (demoDb (demoDetails false None None)) {| id := lit "u1" |}
                   (fresh (lit "g1")) (demoDetails false None None)
                   _ eq_refl eq_refl eq_refl eq_refl eq_refl eq_refl))).
  constructor.
Defined.

(** ** Deleting, creating, updating and listing sessions *)

Lemma dbCall_up {A : Type} (op : M A) w :
  storeUp w ->
  exists w0,
    dbCall op w = op w0
    /\ sessions w0 = sessions w /\ groups w0 = groups w /\ trace w0 = trace w
    /\ storeUp w0.
Proof.
  intros Hup. unfold dbCall. destruct (failures w) as [|failed rest] eqn:Hf.
  - by exists w.
  - destruct (storeUp_tail w failed rest Hf Hup) as [-> Hup'].
    eexists. split; [reflexivity|]. by repeat split.
Qed.

Lemma row_findUnique_up sid d :
  storeUp (world d) ->
  exists d',
    row_findUnique sid d
    = (Normal match sessions (world d) !! sid, details d !! sid with
              | Some s, Some x => Some (sid, s, x)
              | _, _ => None
              end, d')
    /\ details d' = details d /\ sessions (world d') = sessions (world d)
    /\ groups (world d') = groups (world d) /\ storeUp (world d').
Proof.
  intros Hup. destruct (row_findUnique sid d) as [c d'] eqn:E.
  apply row_findUnique_spec in E as (D & S & G & _ & U & [[-> Hdown] | ->]); [done|].
  exists d'. repeat split; auto.
Qed.

Lemma member_findFirst_up group uid d :
  storeUp (world d) ->
  exists d',
    member_findFirst group uid d
    = (Normal match groups (world d) !! group with
              | Some memberIds =>
                  if decide (uid ∈ memberIds) then Some memberIds else None
              | None => None
              end, d')
    /\ details d' = details d /\ sessions (world d') = sessions (world d)
    /\ groups (world d') = groups (world d) /\ storeUp (world d').
Proof.
  intros Hup. destruct (member_findFirst group uid d) as [c d'] eqn:E.
  apply member_findFirst_spec in E as (D & S & G & _ & U & [[-> Hdown] | ->]); [done|].
  exists d'. repeat split; auto.
Qed.

Lemma row_delete_up sid d s x :
  storeUp (world d) ->
  sessions (world d) !! sid = Some s ->
  details d !! sid = Some x ->
  exists d',
    row_delete sid d = (Normal (sid, s, x), d')
    /\ details d' = delete sid (details d)
    /\ sessions (world d') = delete sid (sessions (world d))
    /\ groups (world d') = groups (world d) /\ storeUp (world d').
Proof.
  intros Hup Hs Hx. unfold row_delete, bindH, liftW.
  destruct (dbCall_up
              (fun w =>
                 match sessions w !! sid with
                 | None => (Throw, w)
                 | Some s0 =>
                     (Normal s0,
                      {| sessions := delete sid (sessions w); groups := groups w;
                         failures := failures w; trace := trace w |})
                 end) (world d) Hup) as (w0 & -> & S0 & G0 & T0 & U0).
  rewrite S0, Hs. simpl. rewrite Hx. eexists. split; [reflexivity|]. simpl.
  by repeat split.
Qed.

Lemma row_create_up newId d s x :
  storeUp (world d) ->
  sessions (world d) !! newId = None ->
  exists d',
    row_create newId s x d = (Normal (newId, s, x), d')
    /\ details d' = <[newId := x]> (details d)
    /\ sessions (world d') = <[newId := s]> (sessions (world d))
    /\ groups (world d') = groups (world d) /\ storeUp (world d').
Proof.
  intros Hup Hs. unfold row_create, bindH, liftW.
  destruct (dbCall_up
              (fun w =>
                 match sessions w !! newId with
                 | Some _ => (Throw, w)
                 | None =>
                     (Normal tt,
                      {| sessions := <[newId := s]> (sessions w); groups := groups w;
                         failures := failures w; trace := trace w |})
                 end) (world d) Hup) as (w0 & -> & S0 & G0 & T0 & U0).
  rewrite S0, Hs. simpl. eexists. split; [reflexivity|]. simpl.
  by repeat split.
Qed.

Lemma row_update_up sid data d s x :
  storeUp (world d) ->
  sessions (world d) !! sid = Some s ->
  details d !! sid = Some x ->
  exists d',
    row_update sid data d = (Normal (sid, s, data x), d')
    /\ details d' = <[sid := data x]> (details d)
    /\ sessions (world d') = sessions (world d)
    /\ groups (world d') = groups (world d) /\ storeUp (world d').
Proof.
  intros Hup Hs Hx. destruct (row_update sid data d) as [c d'] eqn:E.
  apply row_update_spec in E
    as (S & G & U & [(-> & _ & Hwhy)|(s' & x' & Hs' & Hx' & -> & D)]).
  - exfalso. destruct Hwhy as [?|[?|?]]; [tauto|congruence|congruence].
  - assert (s' = s) as -> by congruence. assert (x' = x) as -> by congruence.
    exists d'. repeat split; auto.
Qed.

Lemma deleteSession_ok req d u s x members :
  storeUp (world d) ->
  user req = Some u ->
  params_sessionId req <> [] ->
  sessions (world d) !! params_sessionId req = Some s ->
  details d !! params_sessionId req = Some x ->
  groups (world d) !! groupId s = Some members ->
  id u ∈ members ->
  exists d',
    deleteSession req d = (Normal (OneRow 200 (params_sessionId req, s, x)), d')
    /\ details d' = delete (params_sessionId req) (details d)
    /\ sessions (world d') = delete (params_sessionId req) (sessions (world d))
    /\ groups (world d') = groups (world d) /\ storeUp (world d').
Proof.
  intros Hup Hu Hsid Hs Hx Hg Hin.
  unfold deleteSession, tryCatchH, bindH, retH. rewrite Hu.
  destruct (params_sessionId req) as [|c sid] eqn:E; [done|].
  destruct (row_findUnique_up (c :: sid) d Hup) as (d1 & -> & D1 & S1 & G1 & U1).
  rewrite Hs, Hx.
  destruct (member_findFirst_up (groupId s) (id u) d1 U1) as (d2 & -> & D2 & S2 & G2 & U2).
  rewrite G1, Hg, decide_True by done.
  destruct (row_delete_up (c :: sid) d2 s x U2) as (d3 & -> & D3 & S3 & G3 & U3);
    [congruence|congruence|].
  exists d3. repeat split; congruence.
Qed.

Lemma deleteSession_404 req d :
  storeUp (world d) ->
  user req <> None ->
  params_sessionId req <> [] ->
  sessions (world d) !! params_sessionId req = None ->
  (deleteSession req d).1 = Normal (Message 404 "Session not found")
  /\ details (deleteSession req d).2 = details d
  /\ sessions (world (deleteSession req d).2) = sessions (world d).
Proof.
  intros Hup Hu Hsid Hs.
  unfold deleteSession, tryCatchH, bindH, retH.
  destruct (user req) as [u|]; [|done].
  destruct (params_sessionId req) as [|c sid] eqn:E; [done|].
  destruct (row_findUnique_up (c :: sid) d Hup) as (d1 & -> & D1 & S1 & _).
  by rewrite Hs.
Qed.

Lemma getSummary_404 req w :
  storeUp w ->
  user req <> None ->
  sessions w !! params_sessionId req = None ->
  (getSummary req w).1 = Normal (message 404 "Session not found").
Proof.
  intros Hup Hu Hs. unfold getSummary, tryCatchM, bind, ret.
  destruct (user req) as [u|]; [|done].
  destruct (session_findUnique (params_sessionId req) w) as [c1 w1] eqn:E1.
  apply read_spec in E1 as (S1 & _ & _ & _ & [[-> Hdown] | ->]); [done|].
  by rewrite S1, Hs.
Qed.

(** X23. While the store works, any member of the group of a session, not
    only its creator, can delete it: [deleteSession] answers 200 with the
    record and removes it, leaving the other sessions alone; afterwards
    deleting it again and reading its summary are both answered 404. *)
Theorem deleteSession_deletes req reader d u s x members :
  storeUp (world d) ->
  user req = Some u ->
  params_sessionId req <> [] ->
  sessions (world d) !! params_sessionId req = Some s ->
  details d !! params_sessionId req = Some x ->
  groups (world d) !! groupId s = Some members ->
  id u ∈ members ->
  user reader <> None ->
  params_sessionId reader = params_sessionId req ->
  let d' := (deleteSession req d).2 in
  (deleteSession req d).1 = Normal (OneRow 200 (params_sessionId req, s, x))
  /\ sessions (world d') = delete (params_sessionId req) (sessions (world d))
  /\ details d' = delete (params_sessionId req) (details d)
  /\ (deleteSession req d').1 = Normal (Message 404 "Session not found")
  /\ (getSummary reader (world d')).1 = Normal (message 404 "Session not found").
Proof.
  intros Hup Hu Hsid Hs Hx Hg Hin Hreader Hsame. cbn zeta.
  destruct (deleteSession_ok req d u s x members Hup Hu Hsid Hs Hx Hg Hin)
    as (d' & -> & D & S & G & U).
  simpl. do 3 (split; [done|]).
  assert (sessions (world d') !! params_sessionId req = None) as Hgone
    by (by rewrite S, lookup_delete_eq).
  split.
  - apply deleteSession_404; [done|congruence|done|done].
  - apply getSummary_404; [done|done|]. by rewrite Hsame.
Qed.

Lemma deleteSession_deletes_witness :
  (deleteSession (demoRequest "") (demoDb (demoDetails false None None))).1
  = Normal (OneRow 200 (lit "s1", fresh (lit "g1"), demoDetails false None None)).
Proof.
  refine (proj1 (deleteSession_deletes (demoRequest "") (demoRequest "")
                   (demoDb (demoDetails false None None)) {| id := lit "u1" |}
                   (fresh (lit "g1")) (demoDetails false None None) [lit "u1"]
                   _ eq_refl _ eq_refl eq_refl eq_refl _ _ eq_refl)).
  - constructor.
  - discriminate.
  - apply list_elem_of_here.
  - discriminate.
Defined.

(** X24. [deleteSession] deletes nothing for a user outside the group of
    the session: while the store works it answers 403, and 404 for a session
    that does not exist, 400 for an empty session identifier and 401 without a
    user; the table stays as it is. *)
Theorem deleteSession_refusals req d :
  let r := (deleteSession req d).1 in
  let d' := (deleteSession req d).2 in
  (user req = None -> r = Normal (Message 401 "Unauthorized") /\ d' = d)
  /\ (user req <> None -> params_sessionId req = [] ->
      r = Normal (Message 400 "Session ID is required") /\ d' = d)
  /\ (storeUp (world d) -> user req <> None -> params_sessionId req <> [] ->
      sessions (world d) !! params_sessionId req = None ->
      r = Normal (Message 404 "Session not found")
      /\ details d' = details d /\ sessions (world d') = sessions (world d))
  /\ (forall u s x,
        storeUp (world d) -> user req = Some u -> params_sessionId req <> [] ->
        sessions (world d) !! params_sessionId req = Some s ->
        details d !! params_sessionId req = Some x ->
        (forall members, groups (world d) !! groupId s = Some members -> id u ∉ members) ->
        r = Normal (Message 403 "You are not a member of this group")
        /\ details d' = details d /\ sessions (world d') = sessions (world d)).
Proof.
  cbn zeta. split; [|split; [|split]].
  - intros Hu. unfold deleteSession, tryCatchH, bindH, retH. by rewrite Hu.
  - intros Hu Hsid. unfold deleteSession, tryCatchH, bindH, retH.
    destruct (user req); [|done]. by rewrite Hsid.
  - apply deleteSession_404.
  - intros u s x Hup Hu Hsid Hs Hx Hout.
    unfold deleteSession, tryCatchH, bindH, retH. rewrite Hu.
    destruct (params_sessionId req) as [|c sid] eqn:E; [done|].
    destruct (row_findUnique_up (c :: sid) d Hup) as (d1 & -> & D1 & S1 & G1 & U1).
    rewrite Hs, Hx.
    destruct (member_findFirst_up (groupId s) (id u) d1 U1)
      as (d2 & -> & D2 & S2 & G2 & U2).
    rewrite G1.
    destruct (groups (world d) !! groupId s) as [members|] eqn:Hg.
    + destruct (decide (id u ∈ members)) as [Hin|_];
        [by destruct (Hout members eq_refl)|].
      simpl. repeat split; congruence.
    + simpl. repeat split; congruence.
Qed.

Lemma createSessionSchema_bounds parseDate b parsed :
  createSessionSchema_safeParse parseDate b = Some parsed ->
  (1 <= length (new_name parsed) <= 100)%nat
  /\ length (new_groupId parsed) = 24%nat
  /\ forallb isHexDigit (new_groupId parsed) = true.
Proof.
  unfold createSessionSchema_safeParse. intros H.
  destruct b as [[| | | | |fields]|]; try done.
  destruct (sessionName (lookupField (lit "name") fields)) as [n|] eqn:Hn; [|done].
  destruct (optionalString (lookupField (lit "description") fields)); [|done].
  destruct (groupIdentifier (lookupField (lit "groupId") fields)) as [g|] eqn:Hg; [|done].
  destruct (optionalString (lookupField (lit "preRequisites") fields)); [|done].
  destruct (dateString parseDate (lookupField (lit "time") fields)); [|done].
  injection H as <-. simpl.
  unfold sessionName in Hn. unfold groupIdentifier in Hg.
  destruct (lookupField (lit "name") fields) as [[| | |str| |]|]; try done.
  destruct (decide (1 <= length str <= 100)%nat); [|done]. injection Hn as <-.
  destruct (lookupField (lit "groupId") fields) as [[| | |gs| |]|]; try done.
  destruct (decide (length gs = 24%nat)); [|done].
  destruct (forallb isHexDigit gs) eqn:Hhex; [|done]. by injection Hg as <-.
Qed.

(** X25. While the store works, [createSession] by a member of the group,
    with a valid body and a valid time, answers 201 with the new record and
    stores it under the new identifier: the record belongs to the group of the
    body, has the user as creator and the name and the time of the body; the
    transcript, the summary, its status and the columns of the start and the
    end are not taken from the body, whatever keys it holds, but left to the
    defaults of the store; [getSummary] by the creator then answers 200 with
    the view of that record. *)
Theorem createSession_creates parseDate newId defaults req reader d u parsed members ms :
  storeUp (world d) ->
  user req = Some u ->
  createSessionSchema_safeParse parseDate (body req) = Some parsed ->
  groups (world d) !! new_groupId parsed = Some members ->
  id u ∈ members ->
  new_time parsed = ValidDate ms ->
  sessions (world d) !! newId = None ->
  user reader = Some u ->
  params_sessionId reader = newId ->
  let d' := (createSession parseDate newId defaults req d).2 in
  let s := createdSession defaults (new_groupId parsed) in
  let created := createdDetails defaults parsed ms (id u) in
  (createSession parseDate newId defaults req d).1
  = Normal (OneRow 201 (newId, s, created))
  /\ sessions (world d') = <[newId := s]> (sessions (world d))
  /\ details d' = <[newId := created]> (details d)
  /\ (groupId s = new_groupId parsed /\ creatorID created = id u
      /\ name created = new_name parsed /\ time created = ms)
  /\ (transcript s = default_transcript defaults
      /\ summary s = default_summary defaults
      /\ summaryStatus s = default_summaryStatus defaults
      /\ isStarted created = default_isStarted defaults
      /\ startedAt created = default_startedAt defaults
      /\ endedAt created = default_endedAt defaults)
  /\ (getSummary reader (world d')).1 = Normal (summaryView s).
Proof.
  intros Hup Hu Hparse Hg Hin Htime Hnew Hreader Hsid. cbn zeta.
  unfold createSession, tryCatchH, bindH, retH. rewrite Hu, Hparse.
  destruct (member_findFirst_up (new_groupId parsed) (id u) d Hup)
    as (d1 & -> & D1 & S1 & G1 & U1).
  rewrite Hg, decide_True, Htime by done.
  destruct (row_create_up newId d1 (createdSession defaults (new_groupId parsed))
              (createdDetails defaults parsed ms (id u)) U1)
    as (d2 & -> & D2 & S2 & G2 & U2);
    [congruence|].
  simpl. split; [done|]. split; [congruence|]. split; [congruence|].
  do 2 (split; [done|]).
  destruct (getSummary_run reader (world d2)) as (_ & _ & _ & Hview).
  apply Hview; [|done].
  exists u, members. repeat split; try done.
  - by rewrite Hsid, S2, lookup_insert_eq.
  - simpl. congruence.
Qed.

Lemma createSession_creates_witness :
  (createSession epoch (lit "s1") demoDefaults
     {| user := Some {| id := lit "u1" |}; params_sessionId := [];
        body := Some (JObject [(lit "name", JString (lit "Algebra"));
                               (lit "groupId", JString (lit "0123456789abcdefABCDEF01"));
                               (lit "time", JString (lit "2025-01-01"));
                               (lit "isStarted", JBool true);
                               (lit "summary", JString (lit "Planted"))]) |}
     {| world := {| sessions := ∅;
                    groups := {[ lit "0123456789abcdefABCDEF01" := [lit "u1"] ]};
                    failures := []; trace := [] |};
        details := ∅ |}).1
  = Normal (OneRow 201
              (lit "s1",
               {| groupId := lit "0123456789abcdefABCDEF01"; transcript := None;
                  transcriptLang := None; summary := None;
                  summaryStatus := Some (lit "draft") |},
               {| name := lit "Algebra"; description := None; time := 0;
                  prerequisites := None; creatorID := lit "u1"; isStarted := false;
                  startedAt := None; endedAt := None |})).
Proof.
  refine (proj1 (createSession_creates epoch (lit "s1") demoDefaults
                   {| user := Some {| id := lit "u1" |}; params_sessionId := [];
                      body := Some (JObject
                                [(lit "name", JString (lit "Algebra"));
                                 (lit "groupId", JString (lit "0123456789abcdefABCDEF01"));
                                 (lit "time", JString (lit "2025-01-01"));
                                 (lit "isStarted", JBool true);
                                 (lit "summary", JString (lit "Planted"))]) |}
                   (demoRequest "")
                   {| world := {| sessions := ∅;
                                  groups := {[ lit "0123456789abcdefABCDEF01" := [lit "u1"] ]};
                                  failures := []; trace := [] |};
                      details := ∅ |}
                   {| id := lit "u1" |}
                   {| new_name := lit "Algebra"; new_description := None;
                      new_groupId := lit "0123456789abcdefABCDEF01";
                      new_preRequisites := None; new_time := ValidDate 0 |}
                   [lit "u1"] 0 _ eq_refl eq_refl eq_refl _ eq_refl eq_refl eq_refl eq_refl)).
  - constructor.
  - apply list_elem_of_here.
Defined.

(** X26. [createSession] creates nothing from a body that fails the
    validation: it answers 400 before the store is touched; a body that passes
    has a name of 1 to 100 characters and a group identifier of exactly 24
    hexadecimal digits; and while the store works a user who is not a member
    of that group is answered 403 and nothing is created. *)
Theorem createSession_validation parseDate newId defaults req d :
  (user req <> None -> createSessionSchema_safeParse parseDate (body req) = None ->
   createSession parseDate newId defaults req d = (Normal (Invalid 400 "Invalid input data"), d))
  /\ (forall parsed,
        createSessionSchema_safeParse parseDate (body req) = Some parsed ->
        (1 <= length (new_name parsed) <= 100)%nat
        /\ length (new_groupId parsed) = 24%nat
        /\ forallb isHexDigit (new_groupId parsed) = true)
  /\ (forall u parsed,
        storeUp (world d) -> user req = Some u ->
        createSessionSchema_safeParse parseDate (body req) = Some parsed ->
        (forall members,
           groups (world d) !! new_groupId parsed = Some members -> id u ∉ members) ->
        (createSession parseDate newId defaults req d).1
        = Normal (Message 403 "You are not a member of this group")
        /\ sessions (world (createSession parseDate newId defaults req d).2) = sessions (world d)
        /\ details (createSession parseDate newId defaults req d).2 = details d).
Proof.
  split; [|split].
  - intros Hu Hparse. unfold createSession, tryCatchH, bindH, retH.
    destruct (user req); [|done]. by rewrite Hparse.
  - intros parsed. apply createSessionSchema_bounds.
  - intros u parsed Hup Hu Hparse Hout.
    unfold createSession, tryCatchH, bindH, retH. rewrite Hu, Hparse.
    destruct (member_findFirst_up (new_groupId parsed) (id u) d Hup)
      as (d1 & -> & D1 & S1 & G1 & U1).
    destruct (groups (world d) !! new_groupId parsed) as [members|] eqn:Hg.
    + destruct (decide (id u ∈ members)) as [Hin|_];
        [by destruct (Hout members eq_refl)|].
      simpl. by repeat split.
    + simpl. by repeat split.
Qed.

Lemma normalizePrerequisites_not_null p : normalizePrerequisites p <> lit "null".
Proof.
  destruct p as [| |str]; simpl; try discriminate.
  destruct (decide (str = lit "null")); [discriminate|done].
Qed.

(** X27. While the store works, [updateSession] by any member of the group,
    with a valid body and a valid time, answers 200 with the updated record:
    name and time are replaced; the description is replaced when one is given
    and kept otherwise; the prerequisites become a string that is never absent
    and never the text "null" ([undefined], [null] and "null" all become the
    empty string); creator, start and end are kept, and so are the columns of
    the summary. *)
Theorem updateSession_updates parseDate req d u s x members parsed ms :
  storeUp (world d) ->
  user req = Some u ->
  updateBodySchema_safeParse parseDate (body req) = Some parsed ->
  sessions (world d) !! params_sessionId req = Some s ->
  details d !! params_sessionId req = Some x ->
  groups (world d) !! groupId s = Some members ->
  id u ∈ members ->
  upd_time parsed = ValidDate ms ->
  let d' := (updateSession parseDate req d).2 in
  let x' := updatedDetails parsed ms x in
  (updateSession parseDate req d).1 = Normal (OneRow 200 (params_sessionId req, s, x'))
  /\ details d' = <[params_sessionId req := x']> (details d)
  /\ sessions (world d') = sessions (world d)
  /\ name x' = upd_name parsed /\ time x' = ms
  /\ (upd_description parsed = None -> description x' = description x)
  /\ (exists p, prerequisites x' = Some p /\ p <> lit "null"
                /\ (upd_prerequisites parsed = Undefined
                    \/ upd_prerequisites parsed = Null
                    \/ upd_prerequisites parsed = Text (lit "null") -> p = []))
  /\ creatorID x' = creatorID x /\ isStarted x' = isStarted x
  /\ startedAt x' = startedAt x /\ endedAt x' = endedAt x.
Proof.
  intros Hup Hu Hparse Hs Hx Hg Hin Htime. cbn zeta.
  unfold updateSession, tryCatchH, bindH, retH. rewrite Hu, Hparse.
  destruct (row_findUnique_up (params_sessionId req) d Hup)
    as (d1 & -> & D1 & S1 & G1 & U1).
  rewrite Hs, Hx.
  destruct (member_findFirst_up (groupId s) (id u) d1 U1) as (d2 & -> & D2 & S2 & G2 & U2).
  rewrite G1, Hg, decide_True, Htime by done.
  destruct (row_update_up (params_sessionId req) (updatedDetails parsed ms) d2 s x U2)
    as (d3 & -> & D3 & S3 & G3 & U3); [congruence|congruence|].
  simpl. split; [done|]. split; [congruence|]. split; [congruence|].
  do 2 (split; [done|]). split; [by intros ->|]. split; [|done].
  exists (normalizePrerequisites (upd_prerequisites parsed)).
  split; [done|]. split; [apply normalizePrerequisites_not_null|].
  by intros [-> | [-> | ->]].
Qed.

Lemma updateSession_updates_witness :
  (updateSession epoch
     {| user := Some {| id := lit "u1" |}; params_sessionId := lit "s1";
        body := Some (JObject [(lit "name", JString (lit "Geometry"));
                               (lit "time", JString (lit "2025-02-02"));
                               (lit "prerequisites", JString (lit "null"))]) |}
     (demoDb (demoDetails false None None))).1
  = Normal (OneRow 200
              (lit "s1", fresh (lit "g1"),
               {| name := lit "Geometry"; description := None; time := 0;
                  prerequisites := Some []; creatorID := lit "u1"; isStarted := false;
                  startedAt := None; endedAt := None |})).
Proof.
  refine (proj1 (updateSession_updates epoch
                   {| user := Some {| id := lit "u1" |}; params_sessionId := lit "s1";
                      body := Some (JObject [(lit "name", JString (lit "Geometry"));
                                             (lit "time", JString (lit "2025-02-02"));
                                             (lit "prerequisites", JString (lit "null"))]) |}
                   (demoDb (demoDetails false None None)) {| id := lit "u1" |}
                   (fresh (lit "g1")) (demoDetails false None None) [lit "u1"]
                   {| upd_name := lit "Geometry"; upd_description := None;
                      upd_time := ValidDate 0; upd_prerequisites := Text (lit "null") |}
                   0 _ eq_refl eq_refl eq_refl eq_refl eq_refl _ eq_refl)).
  - constructor.
  - apply list_elem_of_here.
Defined.

(** X28. While the store works, [getAllSessions] answers a member of the
    group with 200 and the sessions of that group, all of them and no other:
    a record is listed exactly when it is stored with that group identifier;
    nothing is changed. *)
Theorem getAllSessions_lists req d u members :
  storeUp (world d) ->
  g_user req = Some u ->
  params_groupId req <> [] ->
  groups (world d) !! params_groupId req = Some members ->
  id u ∈ members ->
  exists rows,
    (getAllSessions req d).1 = Normal (Rows 200 rows)
    /\ (forall sid s x,
          (sid, s, x) ∈ rows
          <-> sessions (world d) !! sid = Some s /\ groupId s = params_groupId req
              /\ details d !! sid = Some x)
    /\ sessions (world (getAllSessions req d).2) = sessions (world d)
    /\ details (getAllSessions req d).2 = details d.
Proof.
  intros Hup Hu Hgid Hg Hin.
  unfold getAllSessions, tryCatchH, bindH, retH. rewrite Hu.
  destruct (params_groupId req) as [|c group] eqn:E; [done|].
  destruct (member_findFirst_up (c :: group) (id u) d Hup) as (d1 & -> & D1 & S1 & G1 & U1).
  rewrite Hg, decide_True by done.
  unfold rows_findMany, bindH, liftW.
  destruct (dbCall_up
              (fun w => (Normal (filter (fun kv => groupId kv.2 = c :: group)
                                        (map_to_list (sessions w))), w))
              (world d1) U1) as (w0 & -> & S0 & G0 & T0 & U0).
  simpl. eexists. split; [reflexivity|]. split; [|split; [congruence|done]].
  intros sid s x. rewrite list_elem_of_omap. split.
  - intros ([sid' s'] & Hin' & Hsome). simpl in Hsome.
    apply list_elem_of_filter in Hin' as [Hgroup Hin']. simpl in Hgroup.
    apply elem_of_map_to_list in Hin'.
    destruct (details d1 !! sid') as [x'|] eqn:Hx; [|done].
    injection Hsome as <- <- <-. repeat split; congruence.
  - intros (Hs & Hgroup & Hx). exists (sid, s). split.
    + apply list_elem_of_filter. split; [done|].
      apply elem_of_map_to_list. congruence.
    + simpl. by rewrite D1, Hx.
Qed.

Lemma getAllSessions_lists_witness :
  exists rows,
    (getAllSessions {| g_user := Some {| id := lit "u1" |}; params_groupId := lit "g1" |}
       (demoDb (demoDetails false None None))).1
    = Normal (Rows 200 rows).
Proof.
  destruct (getAllSessions_lists
              {| g_user := Some {| id := lit "u1" |}; params_groupId := lit "g1" |}
              (demoDb (demoDetails false None None)) {| id := lit "u1" |} [lit "u1"])
    as (rows & H & _); [constructor|reflexivity|discriminate|reflexivity| |].
  - apply list_elem_of_here.
  - by exists rows.
Defined.

(** ** The transcription route *)

Lemma transcriptOf_value dgJson :
  transcriptOf dgJson = JString [] \/ truthy (transcriptOf dgJson) = true.
Proof.
  unfold transcriptOf.
  destruct (member _ _) as [v|]; [|by left].
  destruct (truthy v) eqn:E; [by right|by left].
Qed.

(** X29. The route has no fallback: it answers 200 exactly when both
    credentials are set, a file is uploaded, the speech service succeeds with a
    body that parses and the model returns a text; the reply then carries that
    text as it is and the transcript found in the body, which is the empty
    string whenever the body has none. When the model call throws, the answer
    is 500 although a transcript was obtained. *)
Theorem transcribe_success_iff (e : TranscribeEnv) (file : option AudioFile)
    (transcript : json) (summary : jsstring) :
  (transcribe e file = Transcribed transcript summary
   <-> exists dgKey f dgJson,
         env_DEEPGRAM_API_KEY e = Some dgKey /\ dgKey <> []
         /\ ~ absent (env_GEMINI_API_KEY e)
         /\ file = Some f
         /\ listen e dgKey (contentTypeOf f) (buffer f) = DgSuccess (Some dgJson)
         /\ transcript = transcriptOf dgJson
         /\ generateContent e transcript = Normal summary)
  /\ (transcribe e file = Transcribed transcript summary ->
      transcript = JString [] \/ truthy transcript = true)
  /\ (forall dgKey f dgJson,
        env_DEEPGRAM_API_KEY e = Some dgKey -> dgKey <> [] ->
        ~ absent (env_GEMINI_API_KEY e) ->
        file = Some f ->
        listen e dgKey (contentTypeOf f) (buffer f) = DgSuccess (Some dgJson) ->
        generateContent e (transcriptOf dgJson) = Throw ->
        transcribe e file = ServerError).
Proof.
  assert (transcribe e file = Transcribed transcript summary
          <-> exists dgKey f dgJson,
                env_DEEPGRAM_API_KEY e = Some dgKey /\ dgKey <> []
                /\ ~ absent (env_GEMINI_API_KEY e)
                /\ file = Some f
                /\ listen e dgKey (contentTypeOf f) (buffer f) = DgSuccess (Some dgJson)
                /\ transcript = transcriptOf dgJson
                /\ generateContent e transcript = Normal summary) as Hiff.
  { unfold transcribe, transcribe_try, absent. split.
    - destruct (env_DEEPGRAM_API_KEY e) as [[|k dg]|]; try done.
      destruct (env_GEMINI_API_KEY e) as [[|k' gm]|]; try done.
      destruct file as [f|]; try done.
      destruct (listen e (k :: dg) (contentTypeOf f) (buffer f))
        as [ | [errText | ] | [dgJson | ] ] eqn:Hl; try done.
      destruct (generateContent e (transcriptOf dgJson)) as [s|] eqn:Hg; try done.
      intros [= <- <-]. exists (k :: dg), f, dgJson.
      repeat split; try done. by intros [?|?].
    - intros (dgKey & f & dgJson & -> & Hne & Hgm & -> & Hl & -> & Hg).
      destruct dgKey as [|k dg]; [done|].
      destruct (env_GEMINI_API_KEY e) as [[|k' gm]|];
        [exfalso; apply Hgm; by right| |exfalso; apply Hgm; by left].
      by rewrite Hl, Hg. }
  split; [exact Hiff|]. split.
  - intros H. apply Hiff in H as (_ & _ & dgJson & _ & _ & _ & _ & _ & -> & _).
    apply transcriptOf_value.
  - intros dgKey f dgJson Hdg Hne Hgm -> Hl Hg.
    unfold transcribe, transcribe_try. rewrite Hdg.
    destruct dgKey as [|k dg]; [done|].
    destruct (env_GEMINI_API_KEY e) as [[|k' gm]|];
      [exfalso; apply Hgm; by right| |exfalso; apply Hgm; by left].
    by rewrite Hl, Hg.
Qed.

Lemma transcribe_success_iff_witness :
  transcribe demoServices (Some {| buffer := [1; 2; 3]; mimetype := [] |}) = ServerError.
Proof.
  refine (proj2 (proj2 (transcribe_success_iff demoServices
                   (Some {| buffer := [1; 2; 3]; mimetype := [] |}) JNull []))
                (lit "dg") {| buffer := [1; 2; 3]; mimetype := [] |} _
                eq_refl _ _ eq_refl eq_refl eq_refl).
  - discriminate.
  - by intros [?|?].
Defined.

(** X30. The errors of the route, in their order of precedence: a missing
    speech credential is answered 500 "Missing DEEPGRAM_API_KEY" whatever else
    is missing; then a missing model credential 500 "Missing GEMINI_API_KEY";
    then a missing file 400; in these cases no service is called. A refusal of
    the speech service is passed on as 502 with its text, and the model is not
    asked. *)
Theorem transcribe_errors (e : TranscribeEnv) (file : option AudioFile) :
  (absent (env_DEEPGRAM_API_KEY e) ->
   transcribe e file = ConfigError "Missing DEEPGRAM_API_KEY")
  /\ (~ absent (env_DEEPGRAM_API_KEY e) -> absent (env_GEMINI_API_KEY e) ->
      transcribe e file = ConfigError "Missing GEMINI_API_KEY")
  /\ (~ absent (env_DEEPGRAM_API_KEY e) -> ~ absent (env_GEMINI_API_KEY e) ->
      file = None -> transcribe e file = NoAudio)
  /\ (forall dgKey f errText,
        env_DEEPGRAM_API_KEY e = Some dgKey -> dgKey <> [] ->
        ~ absent (env_GEMINI_API_KEY e) ->
        file = Some f ->
        listen e dgKey (contentTypeOf f) (buffer f) = DgFailure (Normal errText) ->
        transcribe e file = DeepgramError errText)
  /\ (forall e',
        env_DEEPGRAM_API_KEY e' = env_DEEPGRAM_API_KEY e ->
        env_GEMINI_API_KEY e' = env_GEMINI_API_KEY e ->
        absent (env_DEEPGRAM_API_KEY e) \/ absent (env_GEMINI_API_KEY e) \/ file = None ->
        transcribe e' file = transcribe e file).
Proof.
  unfold transcribe, transcribe_try, absent. repeat split.
  - by intros [-> | ->].
  - intros Hdg Hgm. destruct (env_DEEPGRAM_API_KEY e) as [[|k dg]|]; try tauto.
    by destruct Hgm as [-> | ->].
  - intros Hdg Hgm ->. destruct (env_DEEPGRAM_API_KEY e) as [[|k dg]|]; try tauto.
    destruct (env_GEMINI_API_KEY e) as [[|k' gm]|]; tauto.
  - intros dgKey f errText -> Hne Hgm -> Hl. destruct dgKey as [|k dg]; [done|].
    destruct (env_GEMINI_API_KEY e) as [[|k' gm]|]; try tauto. by rewrite Hl.
  - intros e' -> -> H.
    destruct (env_DEEPGRAM_API_KEY e) as [[|k dg]|]; try done.
    destruct (env_GEMINI_API_KEY e) as [[|k' gm]|]; try done.
    destruct H as [[?|?] | [[?|?] | ->]]; done.
Qed.
